(** * gcbm_animation: the raster Layer / LayerCollection pipeline

    A shallow embedding of [gcbmanimation.layer.layer],
    [gcbmanimation.layer.boundingbox], [gcbmanimation.layer.layercollection]
    and [gcbmanimation.indicator.indicator].

    Conventions.
    - Pixel values, nodata values and unit scale factors are exact rationals
      ([Q]); Python's numeric [==] / [!=] is [Qeq_bool].  Rounding of the
      floating point arithmetic is not represented.
    - A raster file is the grid read by [ReadAsArray] plus the metadata the
      code looks at ([gdal.Info]).  The file store is total: every path
      names a raster, so a failure of the raster engine to open a file is
      not represented.
    - Python exceptions are the constructors of [Exc]; a method that can
      raise returns a [Result]. *)

From Stdlib Require Import List ZArith QArith Qabs Qminmax Bool Lia Lqa String Ascii Permutation Arith Sorted.
Import ListNotations.

Open Scope Z_scope.

(** ** Numeric comparison of pixel values *)

Definition Pixel := Q.

(** Python / numpy [a != b] on numbers. *)
Definition ne (a b : Q) : bool := negb (Qeq_bool a b).

(** Python / numpy [a == b] on numbers. *)
Definition eqn (a b : Q) : bool := Qeq_bool a b.

Definition Grid := list (list Pixel).

(** ** BoundingBox.min_pixel_bounds (boundingbox.py) *)

Module BoundingBoxScan.

(** [np.where(row != nodata)[0]]: the column indices holding data,
    ascending; [c] is the index of the head of [row]. *)
Fixpoint where_ne (nodata : Q) (row : list Pixel) (c : nat) : list nat :=
  match row with
  | [] => []
  | v :: rest =>
      if ne v nodata then c :: where_ne nodata rest (S c)
      else where_ne nodata rest (S c)
  end.

(** [np.min] and [np.max] of a non-empty index array. *)
Definition np_min (l : list nat) : nat := fold_right Nat.min (hd 0%nat l) l.
Definition np_max (l : list nat) : nat := fold_right Nat.max (hd 0%nat l) l.

(** The four loop variables of [min_pixel_bounds]. *)
Record Bounds := mkBounds { x_min : Z; x_max : Z; y_min : Z; y_max : Z }.

(** One iteration of [for i, row in enumerate(raster_data)]. *)
Definition scan_row (nodata : Q) (b : Bounds) (i : nat) (row : list Pixel) : Bounds :=
  let x_index := where_ne nodata row 0 in
  match x_index with
  | [] => b   (* continue *)
  | _ =>
      let x_index_min := Z.of_nat (np_min x_index) in
      let x_index_max := Z.of_nat (np_max x_index) in
      {| y_min := if y_min b =? 0 then Z.of_nat i else y_min b;
         x_min := if x_index_min <? x_min b then x_index_min else x_min b;
         x_max := if x_index_max >? x_max b then x_index_max else x_max b;
         y_max := Z.of_nat i |}
  end.

Fixpoint scan (nodata : Q) (rows : Grid) (i : nat) (b : Bounds) : Bounds :=
  match rows with
  | [] => b
  | row :: rest => scan nodata rest (S i) (scan_row nodata b i row)
  end.

(** [raster_data.shape[1]]. *)
Definition shape1 (data : Grid) : nat := List.length (hd [] data).

(** The list [[x_min - 1, x_max + 1, y_min - 1, y_max + 1]] computed on the
    first access of the property. *)
Definition min_pixel_bounds (data : Grid) (nodata : Q) : list Z :=
  let b := scan nodata data 0
             {| x_min := Z.of_nat (shape1 data); x_max := 0; y_min := 0; y_max := 0 |} in
  [x_min b - 1; x_max b + 1; y_min b - 1; y_max b + 1].

(** A pixel of [data] at row [r], column [c] that is not nodata. *)
Definition data_at (nodata : Q) (data : Grid) (r c : nat) : Prop :=
  exists row v, nth_error data r = Some row /\ nth_error row c = Some v /\ ne v nodata = true.

(** numpy arrays are rectangular. *)
Definition rectangular (data : Grid) : Prop :=
  forall row, In row data -> List.length row = shape1 data.

End BoundingBoxScan.

(** ** Exceptions and results *)

Inductive Exc : Type :=
  | IndexError | AttributeError | ValueError | TypeError | SyntaxError
  | RuntimeError | IOError | StopIteration | CalcError.

Inductive Result (A : Type) : Type :=
  | Ok (a : A)
  | Raise (e : Exc).
Arguments Ok {A} a.
Arguments Raise {A} e.

(** ** Units (layer/units.py) *)

Inductive Units : Type := Blank | Tc | Ktc | Mtc | TcPerHa | KtcPerHa | MtcPerHa.

(** Modelled from the spec: the members of the enumeration
    [gcbmanimation.layer.units.Units], whose module is not among the sources.
    [layer.py] unpacks a member's value as [(per_ha, units_tc, name)]; the
    scale factors and labels are those of the table in [indicator.py], the
    per-hectare flag follows the member's name and Blank is the
    dimensionless unit of scale 1. *)
Definition Units_value (u : Units) : bool * Q * string :=
  match u with
  | Blank    => (false, 1%Q,       ""%string)
  | Tc       => (false, 1%Q,       "tC/yr"%string)
  | Ktc      => (false, 1000%Q,    "KtC/yr"%string)
  | Mtc      => (false, 1000000%Q, "MtC/yr"%string)
  | TcPerHa  => (true,  1%Q,       "tC/ha/yr"%string)
  | KtcPerHa => (true,  1000%Q,    "KtC/ha/yr"%string)
  | MtcPerHa => (true,  1000000%Q, "MtC/ha/yr"%string)
  end.

Definition Units_eq_dec (a b : Units) : {a = b} + {a <> b}.
Proof. decide equality. Defined.

(** ** Raster files and the world *)

(** A path is a source file or one handed out by [TempFileManager.mktmp]. *)
Inductive Path : Type :=
  | Src (name : string)
  | Tmp (n : nat) (suffix : string).

Definition Path_eq_dec (a b : Path) : {a = b} + {a <> b}.
Proof. decide equality; first [apply string_dec | apply Nat.eq_dec]. Defined.

(** [(origin_x, pixel_size_x, _, origin_y, _, pixel_size_y)]. *)
Record GeoTransform := mkGeo {
  origin_x : Q; pixel_size_x : Q; origin_y : Q; pixel_size_y : Q }.

(** What the code reads of a raster file: band 1 as an array, the band's
    nodata value, the coordinate system's WKT and the geotransform. *)
Record Raster := mkRaster {
  data : Grid;
  noDataValue : Q;
  wkt : string;
  geoTransform : GeoTransform }.

Record World := mkWorld {
  files : Path -> Raster;
  next_tmp : nat }.

Definition write_file (p : Path) (r : Raster) (w : World) : World :=
  {| files := fun q => if Path_eq_dec q p then r else files w q;
     next_tmp := next_tmp w |}.

(** Computations that read and write files and may raise. *)
Definition M (A : Type) : Type := World -> Result (A * World).

Definition ret {A} (a : A) : M A := fun w => Ok (a, w).
Definition raise {A} (e : Exc) : M A := fun _ => Raise e.
Definition bind {A B} (m : M A) (f : A -> M B) : M B :=
  fun w => match m w with
           | Ok (a, w') => f a w'
           | Raise e => Raise e
           end.
Definition lift {A} (r : Result A) : M A :=
  fun w => match r with Ok a => Ok (a, w) | Raise e => Raise e end.

Declare Scope py_scope.
Delimit Scope py_scope with py.
Notation "x <- m ;; k" := (bind m (fun x => k))
  (at level 61, m at next level, right associativity) : py_scope.
Notation "m ;;; k" := (bind m (fun _ => k))
  (at level 61, right associativity) : py_scope.
Open Scope py_scope.

(** [[f(x) for x in xs]] for an effectful [f], left to right. *)
Fixpoint mapM {A B} (f : A -> M B) (xs : list A) : M (list B) :=
  match xs with
  | [] => ret []
  | x :: rest => y <- f x ;; ys <- mapM f rest ;; ret (y :: ys)
  end.

(** Modelled from the spec: [TempFileManager.mktmp(suffix=...)], whose module
    is not among the sources: "allocation of a fresh scoped path for a given
    file suffix", a path never handed out before. *)
Definition mktmp (suffix : string) : M Path :=
  fun w => Ok (Tmp (next_tmp w) suffix, {| files := files w; next_tmp := S (next_tmp w) |}).

Definition gdal_Open (p : Path) : M Raster := fun w => Ok (files w p, w).
Definition put_file (p : Path) (r : Raster) : M unit := fun w => Ok (tt, write_file p r w).

(** ["metre" in s]. *)
Fixpoint is_prefix (p s : string) : bool :=
  match p, s with
  | EmptyString, _ => true
  | String a p', String b s' => if Ascii.eqb a b then is_prefix p' s' else false
  | String _ _, EmptyString => false
  end.

Fixpoint contains (p s : string) : bool :=
  if is_prefix p s then true
  else match s with
       | EmptyString => false
       | String _ s' => contains p s'
       end.

(** ** The raster engine's collaborators

    The resampler ([gdal.Warp]), the geodesic distance of geopy and the
    legend policy (Colorizer) are outside the repository; they are taken as
    an interface. *)

Record WarpOptions := mkWarp {
  dstSRS : option string;
  size : option (nat * nat);                 (* width, height *)
  outputBounds : option (Q * Q * Q * Q);
  outputBoundsSRS : option string }.

Definition plain_warp : WarpOptions :=
  {| dstSRS := None; size := None; outputBounds := None; outputBoundsSRS := None |}.

(** Legend keys: a pixel value or a [(min, max)] range with optional ends. *)
Inductive LegendKey : Type :=
  | KValue (v : Q)
  | KRange (lo hi : option Q).

Definition Color := (Z * Z * Z)%type.
Record LegendEntry := mkEntry { color : Color; label : string }.
Definition Legend := list (LegendKey * LegendEntry).

(** ** gdal_calc.Calc *)

(** The expressions the code hands to the calculator. Comparisons give 1 or
    0, as numpy booleans do under arithmetic. *)
Inductive CalcExpr : Type :=
  | CBand (k : nat)                (* 0 is A, 1 is B, ... *)
  | CNum (q : Q)
  | CAdd (a b : CalcExpr)
  | CSub (a b : CalcExpr)
  | CMul (a b : CalcExpr)
  | CDiv (a b : CalcExpr)
  | CNe (a b : CalcExpr)
  | CEq (a b : CalcExpr).

Definition of_bool (b : bool) : Q := if b then 1%Q else 0%Q.

Fixpoint eval_calc (e : CalcExpr) (env : list Q) : Q :=
  match e with
  | CBand k => nth k env 0%Q
  | CNum q => q
  | CAdd a b => (eval_calc a env + eval_calc b env)%Q
  | CSub a b => (eval_calc a env - eval_calc b env)%Q
  | CMul a b => (eval_calc a env * eval_calc b env)%Q
  | CDiv a b => (eval_calc a env / eval_calc b env)%Q
  | CNe a b => of_bool (ne (eval_calc a env) (eval_calc b env))
  | CEq a b => of_bool (eqn (eval_calc a env) (eval_calc b env))
  end.

Fixpoint mapi_from {A B} (f : nat -> A -> B) (i : nat) (l : list A) : list B :=
  match l with
  | [] => []
  | x :: rest => f i x :: mapi_from f (S i) rest
  end.

Definition mapi {A B} (f : nat -> A -> B) (l : list A) : list B := mapi_from f 0 l.

(** The pixel of a grid at row [r], column [c]. *)
Definition pixel (g : Grid) (r c : nat) : Q := nth c (nth r g []) 0%Q.

Definition shape (g : Grid) : list nat := map (@List.length Pixel) g.

Definition same_shape (g h : Grid) : bool :=
  if list_eq_dec Nat.eq_dec (shape g) (shape h) then true else false.

(** The grid written by the calculator for inputs [A, B, ...]: the expression
    evaluated pixel by pixel.  With [propagate], a pixel that is nodata in
    some input becomes the output's nodata value, as gdal_calc does unless
    told to hide nodata. *)
Definition calc_grid (propagate : bool) (e : CalcExpr) (out_nodata : Q)
    (inputs : list Raster) : Grid :=
  match inputs with
  | [] => []
  | a :: _ =>
      mapi (fun r row =>
              mapi (fun c (_ : Pixel) =>
                      if propagate
                         && existsb (fun i => eqn (pixel (data i) r c) (noDataValue i)) inputs
                      then out_nodata
                      else eval_calc e (map (fun i => pixel (data i) r c) inputs))
                   row)
           (data a)
  end.

(** Modelled from the spec: [gdal_calc.Calc(calc, outfile, NoDataValue,
    A=..., B=..., ...)], the raster engine's "masked-expression algebraic
    evaluation over one or more input rasters producing a new raster".  The
    inputs must share their dimensions; the output keeps the georeferencing
    of input A. *)
Definition Calc (propagate : bool) (calc : CalcExpr) (outfile : Path) (NoDataValue : Q)
    (inputs : list Path) : M unit :=
  fun w =>
    match map (files w) inputs with
    | [] => Raise CalcError
    | a :: others =>
        if forallb (fun r => same_shape (data r) (data a)) others
        then Ok (tt, write_file outfile
                       {| data := calc_grid propagate calc NoDataValue (a :: others);
                          noDataValue := NoDataValue;
                          wkt := wkt a;
                          geoTransform := geoTransform a |} w)
        else Raise CalcError
    end.

(** ** Layer (layer.py) *)

(** A dict of pixel value to label, in insertion order. *)
Definition Interp := list (Z * string).

Record Layer := mkLayer {
  path : Path;
  year : Z;
  interpretation : option Interp;
  units : Units }.

Inductive BlendMode : Type := Add | Subtract.

Record Colorizer := mkColorizer {
  create_legend : (Path -> Raster) -> list Layer -> Legend }.

(** [set_order] is the order in which Python iterates over the set built by
    inserting the given years one after the other. *)
Record Engine := mkEngine {
  Warp : WarpOptions -> list Raster -> Raster;
  distance_m : (Q * Q) -> (Q * Q) -> Q;
  calc_propagates_nodata : bool;
  set_order : list Z -> list Z }.

Record LayerCollection := mkCollection {
  _layers : list Layer;
  _background_color : Color;
  _colorizer : Colorizer }.

(** The values that reach the variadic [blend] methods. *)
Inductive PyVal : Type :=
  | VLayer (l : Layer)
  | VMode (m : BlendMode)
  | VCollection (c : LayerCollection).

(** [xs[::2]] and [xs[1::2]]. *)
Fixpoint evens {A} (xs : list A) : list A :=
  match xs with
  | [] => []
  | x :: rest => x :: match rest with [] => [] | _ :: rest' => evens rest' end
  end.

Definition odds {A} (xs : list A) : list A :=
  match xs with [] => [] | _ :: rest => evens rest end.

(** [zip(xs[::2], xs[1::2])]. *)
Definition zip_pairs {A} (xs : list A) : list (A * A) := combine (evens xs) (odds xs).

(** What a method hands back: the receiver itself ([return self]) or a newly
    constructed Layer. *)
Inductive Returned : Type :=
  | ReturnsSelf
  | ReturnsNew (l : Layer).

(** A call's outcome on the object level: the receiver after the call and
    what was returned. *)
Definition Outcome := (Layer * Returned)%type.

Definition result_layer (o : Outcome) : Layer :=
  match snd o with
  | ReturnsSelf => fst o
  | ReturnsNew l => l
  end.

Module LayerM.

Definition has_interpretation (self : Layer) : bool :=
  match interpretation self with Some _ => true | None => false end.

Definition nodata_value (self : Layer) : M Q :=
  r <- gdal_Open (path self) ;; ret (noDataValue r).

Definition scale (E : Engine) (self : Layer) : M Q :=
  r <- gdal_Open (path self) ;;
  let g := geoTransform r in
  if contains "metre" (wkt r) then ret (Qabs (pixel_size_x g))
  else ret (distance_m E (origin_y g, origin_x g)
                         (origin_y g, (origin_x g + pixel_size_x g)%Q)).

(** [_save_as]: a copy of this layer's raster with new data and nodata. *)
Definition _save_as (self : Layer) (new_data : Grid) (nodata : Q) (output_path : Path) : M unit :=
  original <- gdal_Open (path self) ;;
  put_file output_path
    {| data := new_data; noDataValue := nodata;
       wkt := wkt original; geoTransform := geoTransform original |}.

(** [(A * k [op m]) * (A != nd) + ((A == nd) * nd)]. *)
Definition conversion_calc (scaled : CalcExpr) (nd : Q) : CalcExpr :=
  CAdd (CMul scaled (CNe (CBand 0) (CNum nd)))
       (CMul (CEq (CBand 0) (CNum nd)) (CNum nd)).

Definition one_hectare : Q := 10000%Q.

(** The per-pixel loop of [convert_units] for projections not in metres. *)
Definition geodetic_convert (E : Engine) (g : GeoTransform) (nd unit_conversion : Q)
    (current_per_ha : bool) (raster_data : Grid) : Grid :=
  mapi (fun row line =>
    mapi (fun col pixel_value =>
      let lat := (origin_y g - pixel_size_y g * inject_Z (Z.of_nat row))%Q in
      let lon := (origin_x g + pixel_size_x g * inject_Z (Z.of_nat col))%Q in
      let lat_size_m := distance_m E (lat, lon) ((lat - pixel_size_y g)%Q, lon) in
      let lon_size_m := distance_m E (lat, lon) (lat, (lon + pixel_size_x g)%Q) in
      let pixel_size_ha := (lat_size_m * lon_size_m / one_hectare)%Q in
      if ne pixel_value nd
      then (unit_conversion *
            (if current_per_ha then pixel_value * pixel_size_ha
             else pixel_value / pixel_size_ha))%Q
      else pixel_value) line) raster_data.

Definition convert_units (E : Engine) (self : Layer) (target : Units) : M Outcome :=
  if Units_eq_dec (units self) Blank then ret (self, ReturnsSelf)
  else
    let '(current_per_ha, current_units_tc, _) := Units_value (units self) in
    let '(new_per_ha, new_units_tc, _) := Units_value target in
    let unit_conversion := (current_units_tc / new_units_tc)%Q in
    if Bool.eqb current_per_ha new_per_ha && eqn unit_conversion 1%Q
    then (* self._units = units; return self *)
      ret ({| path := path self; year := year self;
              interpretation := interpretation self; units := target |}, ReturnsSelf)
    else
      output_path <- mktmp ".tif" ;;
      nd <- nodata_value self ;;
      raster <- gdal_Open (path self) ;;
      let converted := {| path := output_path; year := year self;
                          interpretation := interpretation self; units := target |} in
      if Bool.eqb current_per_ha new_per_ha then
        Calc (calc_propagates_nodata E)
             (conversion_calc (CMul (CBand 0) (CNum unit_conversion)) nd)
             output_path nd [path self] ;;;
        ret (self, ReturnsNew converted)
      else if contains "metre" (wkt raster) then
        let pixel_size := pixel_size_x (geoTransform raster) in
        let pixel_size_m2 := (pixel_size * pixel_size)%Q in
        let per_ha_modifier := (pixel_size_m2 / one_hectare)%Q in
        let scaled :=
          if current_per_ha
          then CMul (CMul (CBand 0) (CNum unit_conversion)) (CNum per_ha_modifier)
          else CDiv (CMul (CBand 0) (CNum unit_conversion)) (CNum per_ha_modifier) in
        Calc (calc_propagates_nodata E) (conversion_calc scaled nd)
             output_path nd [path self] ;;;
        ret (self, ReturnsNew converted)
      else
        _save_as self
          (geodetic_convert E (geoTransform raster) nd unit_conversion current_per_ha
                            (data raster))
          nd output_path ;;;
        ret (self, ReturnsNew converted).

(** [np.isin(v, keys)]. *)
Definition isin (v : Q) (keys : list Z) : bool :=
  existsb (fun k => eqn v (inject_Z k)) keys.

(** [max(iterable)] of integers. *)
Definition py_max (l : list Z) : Result Z :=
  match l with
  | [] => Raise ValueError
  | x :: rest => Ok (fold_left Z.max rest x)
  end.

Definition keys (d : Interp) : list Z := map fst d.
Definition values (d : Interp) : list string := map snd d.

(** [{v: k for k, v in new_interpretation.items()}[label]]: a later item
    overrides an earlier one with the same label. *)
Definition inverse_lookup (new_interpretation : Interp) (label : string) : option Z :=
  fold_left (fun acc kv => if String.eqb (snd kv) label then Some (fst kv) else acc)
            new_interpretation None.

Definition map_grid (f : Pixel -> Pixel) (g : Grid) : Grid := map (map f) g.

(** The array computation of [reclassify]. *)
Definition reclassify_data (interp new_interpretation : Interp) (nodata : Q)
    (raster_data : Grid) : Result Grid :=
  (* raster_data[uninterpreted_values] = nodata_value *)
  let g1 := map_grid (fun v => if isin v (keys interp) then v else nodata) raster_data in
  match py_max (keys interp ++ keys new_interpretation) with
  | Raise e => Raise e
  | Ok m =>
      let collision_offset := inject_Z (m + 1) in
      (* raster_data[raster_data != nodata_value] += collision_offset *)
      let g2 := map_grid (fun v => if ne v nodata then (v + collision_offset)%Q else v) g1 in
      Ok (fold_left
            (fun g kv =>
               let new_pixel_value :=
                 match inverse_lookup new_interpretation (snd kv) with
                 | Some k => inject_Z k
                 | None => nodata
                 end in
               map_grid (fun v => if eqn v (inject_Z (fst kv) + collision_offset)%Q
                                  then new_pixel_value else v) g)
            interp g2)
  end.

Definition reclassify (self : Layer) (new_interpretation : Interp) (nodata : Q) : M Outcome :=
  raster <- gdal_Open (path self) ;;
  match interpretation self with
  | None => raise AttributeError      (* None has no keys() *)
  | Some interp =>
      raster_data <- lift (reclassify_data interp new_interpretation nodata (data raster)) ;;
      output_path <- mktmp ".tif" ;;
      _save_as self raster_data nodata output_path ;;;
      ret (self, ReturnsNew {| path := output_path; year := year self;
                               interpretation := Some new_interpretation;
                               units := units self |})
  end.

Definition flatten (self : Layer) (flattened_value : Q) (preserve_units : bool) : M Outcome :=
  raster <- gdal_Open (path self) ;;
  nd <- nodata_value self ;;
  let raster_data := map_grid (fun v => if ne v nd then flattened_value else v) (data raster) in
  output_path <- mktmp ".tif" ;;
  _save_as self raster_data nd output_path ;;;
  ret (self, ReturnsNew {| path := output_path; year := year self;
                           interpretation := None;
                           units := if preserve_units then units self else Blank |}).

Definition reproject (E : Engine) (self : Layer) (projection : string) : M Outcome :=
  output_path <- mktmp ".tif" ;;
  source <- gdal_Open (path self) ;;
  put_file output_path
    (Warp E {| dstSRS := Some projection; size := None;
               outputBounds := None; outputBoundsSRS := None |} [source]) ;;;
  ret (self, ReturnsNew {| path := output_path; year := year self;
                           interpretation := interpretation self;
                           units := units self |}).

(** The dict comprehension of [blend]: operand [i] (from 1) is stored under
    [ascii_uppercase[i]] after conversion to the receiver's units. *)
Fixpoint blend_layers (E : Engine) (self_units : Units) (i : nat)
    (pairs : list (PyVal * PyVal)) : M (list (Layer * PyVal)) :=
  match pairs with
  | [] => ret []
  | (layer, blend_mode) :: rest =>
      if (25 <? i)%nat then raise IndexError       (* ascii_uppercase[i] *)
      else match layer with
           | VLayer l =>
               o <- convert_units E l self_units ;;
               more <- blend_layers E self_units (S i) rest ;;
               ret ((result_layer o, blend_mode) :: more)
           | _ => raise AttributeError             (* no convert_units *)
           end
  end.

(** ["(A " + " ".join(f"{blend_mode.value} {layer_key}" ...)]: the signed
    sum, operands numbered from [i]. *)
Fixpoint blend_sum (acc : CalcExpr) (i : nat) (operands : list (Layer * PyVal))
    : Result CalcExpr :=
  match operands with
  | [] => Ok acc
  | (_, VMode Add) :: rest => blend_sum (CAdd acc (CBand i)) (S i) rest
  | (_, VMode Subtract) :: rest => blend_sum (CSub acc (CBand i)) (S i) rest
  | _ => Raise AttributeError                      (* no .value *)
  end.

(** [" * ".join(f"({layer_key} != {layer.nodata_value})" ...)] appended to
    the expression so far. *)
Fixpoint blend_mask (acc : CalcExpr) (i : nat) (operands : list (Layer * PyVal))
    : M CalcExpr :=
  match operands with
  | [] => ret acc
  | (layer, _) :: rest =>
      nd <- nodata_value layer ;;
      blend_mask (CMul acc (CNe (CBand i) (CNum nd))) (S i) rest
  end.

Definition blend (E : Engine) (self : Layer) (layers : list PyVal) : M Outcome :=
  operands <- blend_layers E (units self) 1 (zip_pairs layers) ;;
  sum <- lift (blend_sum (CBand 0) 1 operands) ;;
  nd <- nodata_value self ;;
  calc <- blend_mask (CMul sum (CNe (CBand 0) (CNum nd))) 1 operands ;;
  output_path <- mktmp ".tif" ;;
  match operands with
  | [] => raise SyntaxError       (* "(A ) * (A != nd) * " does not parse *)
  | _ =>
      Calc (calc_propagates_nodata E) calc output_path nd
           (path self :: map (fun o => path (fst o)) operands) ;;;
      ret (self, ReturnsNew {| path := output_path; year := year self;
                               interpretation := interpretation self;
                               units := units self |})
  end.

End LayerM.

(** ** Frame (animator/frame.py) *)

Record Frame := mkFrame {
  frame_year : Z;
  frame_path : Path;
  frame_scale : Q }.

(** Modelled from the spec: [Frame.composite(other, preserveAlpha)], whose
    module is not among the sources: "layers one image over another",
    giving a new image artifact; the composed Frame keeps the receiver's
    year and scale. *)
Definition composite (self other : Frame) (send_to_bottom : bool) : M Frame :=
  out_path <- mktmp ".png" ;;
  ret {| frame_year := frame_year self; frame_path := out_path;
         frame_scale := frame_scale self |}.

(** ** BoundingBox (boundingbox.py) *)

Record BoundingBox := mkBoundingBox {
  as_layer : Layer;
  _initialized : bool;
  _projection : option string }.

Module BoundingBoxM.
Import LayerM.

(** [BoundingBox(path, projection)]: [super().__init__(path, 0)]. *)
Definition new (p : Path) (projection : option string) : BoundingBox :=
  {| as_layer := {| path := p; year := 0; interpretation := None; units := TcPerHa |};
     _initialized := false;
     _projection := projection |}.

Definition _get_srs (self : BoundingBox) : M string :=
  layer_data <- gdal_Open (path (as_layer self)) ;; ret (wkt layer_data).

Definition min_pixel_bounds (self : BoundingBox) : M (list Z) :=
  raster <- gdal_Open (path (as_layer self)) ;;
  nd <- nodata_value (as_layer self) ;;
  ret (BoundingBoxScan.min_pixel_bounds (data raster) nd).

Definition min_geographic_bounds (self : BoundingBox) : M (Q * Q * Q * Q) :=
  bounds <- min_pixel_bounds self ;;
  raster <- gdal_Open (path (as_layer self)) ;;
  let g := geoTransform raster in
  match bounds with
  | [x_min; x_max; y_min; y_max] =>
      let x_min_proj := (origin_x g + inject_Z x_min * pixel_size_x g)%Q in
      let x_max_proj := (origin_x g + inject_Z x_max * pixel_size_x g)%Q in
      let y_min_proj := (origin_y g + inject_Z y_min * pixel_size_y g)%Q in
      let y_max_proj := (origin_y g + inject_Z y_max * pixel_size_y g)%Q in
      ret (x_min_proj, y_min_proj, x_max_proj, y_max_proj)
  | _ => raise ValueError
  end.

Definition with_path (self : BoundingBox) (p : Path) : BoundingBox :=
  {| as_layer := {| path := p; year := year (as_layer self);
                    interpretation := interpretation (as_layer self);
                    units := units (as_layer self) |};
     _initialized := true;
     _projection := _projection self |}.

Definition _init (E : Engine) (self : BoundingBox) : M BoundingBox :=
  bbox_path <- mktmp ".tif" ;;
  bounds <- min_geographic_bounds self ;;
  srs <- _get_srs self ;;
  source <- gdal_Open (path (as_layer self)) ;;
  let projection := match _projection self with
                    | Some s => if String.eqb s "" then srs else s
                    | None => srs
                    end in
  put_file bbox_path
    (Warp E {| dstSRS := Some projection; size := None;
               outputBounds := Some bounds; outputBoundsSRS := Some srs |} [source]) ;;;
  final_bbox_path <- mktmp ".tif" ;;
  warped <- gdal_Open bbox_path ;;
  put_file final_bbox_path (Warp E plain_warp [warped]) ;;;
  ret (with_path self final_bbox_path).

(** [crop] on a bounding box that is initialised: clip to the box's grid,
    then to its nodata mask. *)
Definition crop_initialized (E : Engine) (self : BoundingBox) (layer : Layer)
    : M (BoundingBox * Layer) :=
  tmp_path <- mktmp ".tif" ;;
  box <- gdal_Open (path (as_layer self)) ;;
  let width := BoundingBoxScan.shape1 (data box) in
  let height := List.length (data box) in
  let g := geoTransform box in
  let upper_left := (origin_x g, origin_y g) in
  let lower_right := ((origin_x g + inject_Z (Z.of_nat width) * pixel_size_x g)%Q,
                      (origin_y g + inject_Z (Z.of_nat height) * pixel_size_y g)%Q) in
  srs <- _get_srs self ;;
  source <- gdal_Open (path layer) ;;
  put_file tmp_path
    (Warp E {| dstSRS := Some srs; size := Some (width, height);
               outputBounds := Some (fst upper_left, snd lower_right,
                                     fst lower_right, snd upper_left);
               outputBoundsSRS := None |} [source]) ;;;
  box_nodata <- nodata_value (as_layer self) ;;
  layer_nodata <- nodata_value layer ;;
  (* "A * (B != {0}) + ((B == {0}) * {1})" *)
  let calc := CAdd (CMul (CBand 0) (CNe (CBand 1) (CNum box_nodata)))
                   (CMul (CEq (CBand 1) (CNum box_nodata)) (CNum layer_nodata)) in
  output_path <- mktmp ".tif" ;;
  Calc (calc_propagates_nodata E) calc output_path layer_nodata
       [tmp_path; path (as_layer self)] ;;;
  ret (self, {| path := output_path; year := year layer;
                interpretation := interpretation layer; units := units layer |}).

(** [crop]: the bounding box as it is after the call (it initialises itself
    on first use) and the cropped Layer. *)
Definition crop (E : Engine) (self : BoundingBox) (layer : Layer) : M (BoundingBox * Layer) :=
  self <- (if _initialized self then ret self else _init E self) ;;
  crop_initialized E self layer.

End BoundingBoxM.

(** ** Layer.render (layer.py) *)

Module LayerRender.
Import LayerM.

Inductive RowKey : Type := RNodata | RValue (v : Q).

(** A row of the color table: key, color (None is Python's [None] printed
    into the row), alpha. *)
Definition ColorRow := (RowKey * option Color * Z)%type.

Definition lt_opt (v : Q) (bound : option Q) : bool :=
  match bound with
  | None => true
  | Some b => if Qlt_le_dec v b then true else false
  end.

Definition qltb (a b : Q) : bool := if Qlt_le_dec a b then true else false.

(** The loop over [legend.items()]: rows written so far and the entry
    closest to zero. *)
Fixpoint legend_rows (legend : Legend) (rows : list ColorRow)
    (near_zero_value : option Q) (near_zero_color : option Color)
    : Result (list ColorRow * option Color) :=
  match legend with
  | [] => Ok (rows, near_zero_color)
  | (KRange range_min range_max, entry) :: rest =>
      let c := Some (color entry) in
      let rows1 := match range_min with
                   | Some lo => rows ++ [(RValue lo, c, 255)]
                   | None => rows
                   end in
      let rows2 := match range_max with
                   | Some hi => rows1 ++ [(RValue hi, c, 255)]
                   | None => rows1
                   end in
      match range_min, range_max with
      | Some lo, Some hi =>
          if qltb lo 0%Q && qltb 0%Q hi
          then legend_rows rest rows2 (Some 0%Q) c
          else
            let min_val := Qmin (Qabs lo) (Qabs hi) in
            if lt_opt min_val near_zero_value
            then legend_rows rest rows2 (Some min_val) c
            else legend_rows rest rows2 near_zero_value near_zero_color
      | _, _ => Raise TypeError          (* abs(None) *)
      end
  | (KValue value, entry) :: rest =>
      let c := Some (color entry) in
      let rows1 := rows ++ [(RValue value, c, 255)] in
      if lt_opt (Qabs value) near_zero_value
      then legend_rows rest rows1 (Some (Qabs value)) c
      else legend_rows rest rows1 near_zero_value near_zero_color
  end.

Definition color_table (legend : Legend) (transparent : bool) : Result (list ColorRow) :=
  let alpha := if transparent then 0 else 255 in
  match legend_rows legend
          [(RNodata, Some (255, 255, 255), alpha); (RValue 0%Q, Some (255, 255, 255), alpha)]
          None None with
  | Raise e => Raise e
  | Ok (rows, near_zero_color) =>
      (* Guard the color entry closest to 0 against the 0/nodata color. *)
      Ok (rows ++ [(RValue (-1 # 1000)%Q, near_zero_color, 255);
                   (RValue (1 # 1000)%Q, near_zero_color, 255)])
  end.

(** [render]: the bounding box after the call and the rendered Frame.  The
    image written by [gdaldem color-relief] is not represented beyond its
    path. *)
Definition render (E : Engine) (self : Layer) (legend : Legend)
    (bounding_box : option BoundingBox) (transparent : bool)
    : M (option BoundingBox * Frame) :=
  color_table_path <- mktmp ".txt" ;;
  rows <- lift (color_table legend transparent) ;;
  cropped <- match bounding_box with
             | None => ret (None, self)
             | Some box => r <- BoundingBoxM.crop E box self ;; ret (Some (fst r), snd r)
             end ;;
  rendered_layer_path <- mktmp ".png" ;;
  sc <- scale E self ;;
  ret (fst cropped,
       {| frame_year := year self; frame_path := rendered_layer_path; frame_scale := sc |}).

End LayerRender.

(** ** LayerCollection (layercollection.py) *)

Module LayerCollectionM.
Import LayerM.

Definition mem (y : Z) (s : list Z) : bool := existsb (Z.eqb y) s.

(** [range(a, b)]. *)
Definition py_range (a b : Z) : list Z :=
  map (fun k => a + Z.of_nat k) (seq 0 (Z.to_nat (b - a))).

(** Truth value of an optional int: None and 0 are false. *)
Definition truthy (v : option Z) : bool :=
  match v with
  | None => false
  | Some n => negb (n =? 0)
  end.

Fixpoint insert_sorted (x : string) (l : list string) : list string :=
  match l with
  | [] => [x]
  | y :: rest => if String.leb x y then x :: l else y :: insert_sorted x rest
  end.

(** [sorted(set(labels))]. *)
Definition sorted_set (labels : list string) : list string :=
  fold_right insert_sorted [] (nodup string_dec labels).

(** [enumerate(xs, 1)] as a dict. *)
Definition enumerate_from_1 (xs : list string) : Interp :=
  combine (map (fun k => Z.of_nat (S k)) (seq 0 (List.length xs))) xs.

(** [layers_by_year[layer.year].append(layer)] on an insertion-ordered dict. *)
Fixpoint add_to_year (l : Layer) (groups : list (Z * list Layer)) : list (Z * list Layer) :=
  match groups with
  | [] => [(year l, [l])]
  | (y, ls) :: rest =>
      if y =? year l then (y, ls ++ [l]) :: rest
      else (y, ls) :: add_to_year l rest
  end.

Definition group_by_year (layers : list Layer) : list (Z * list Layer) :=
  fold_left (fun groups l => add_to_year l groups) layers [].

Definition empty (self : LayerCollection) : bool :=
  match _layers self with [] => true | _ => false end.

Definition layers (self : LayerCollection) : list Layer := _layers self.

Definition with_layers (self : LayerCollection) (ls : list Layer) : LayerCollection :=
  {| _layers := ls; _background_color := _background_color self;
     _colorizer := _colorizer self |}.

Definition append (self : LayerCollection) (layer : Layer) : LayerCollection :=
  with_layers self (_layers self ++ [layer]).

Definition merge (self other : LayerCollection) : LayerCollection :=
  with_layers self (_layers self ++ _layers other).

Definition _merge_layers (E : Engine) (layers : list Layer) : M Layer :=
  match layers with
  | [] => raise IndexError
  | [l] => ret l
  | first :: _ =>
      output_path <- mktmp ".tif" ;;
      sources <- mapM (fun l => gdal_Open (path l)) layers ;;
      put_file output_path (Warp E plain_warp sources) ;;;
      ret {| path := output_path; year := year first;
             interpretation := interpretation first; units := units first |}
  end.

(** [collection._layers] on whatever stands in the collection position. *)
Definition layers_of (v : PyVal) : Result (list Layer) :=
  match v with
  | VCollection c => Ok (_layers c)
  | _ => Raise AttributeError
  end.

Fixpoint all_layers_of (blend_collections : list (PyVal * PyVal))
    : Result (list (list Layer * PyVal)) :=
  match blend_collections with
  | [] => Ok []
  | (collection, blend_mode) :: rest =>
      match layers_of collection with
      | Raise e => Raise e
      | Ok ls => match all_layers_of rest with
                 | Raise e => Raise e
                 | Ok more => Ok ((ls, blend_mode) :: more)
                 end
      end
  end.

Definition of_year (y : Z) (layers : list Layer) : list Layer :=
  filter (fun layer => year layer =? y) layers.

(** The body of [for year in years] in [blend]. *)
Definition blend_year (E : Engine) (self : LayerCollection)
    (blend_collections : list (list Layer * PyVal)) (y : Z) : M Layer :=
  let local_layers := of_year y (_layers self) in
  if (1 <? List.length local_layers)%nat then raise RuntimeError
  else
    local_layer <-
      match local_layers with
      | l :: _ => ret l
      | [] =>
          template <-
            match _layers self with
            | l :: _ => ret l
            | [] => match flat_map fst blend_collections with
                    | l :: _ => ret l
                    | [] => raise StopIteration
                    end
            end ;;
          o <- flatten template 0%Q true ;;
          let placeholder := result_layer o in
          ret {| path := path placeholder; year := y;
                 interpretation := interpretation placeholder;
                 units := units placeholder |}
      end ;;
    let other_layers :=
      flat_map (fun cm => flat_map (fun layer => [VLayer layer; snd cm])
                                   (of_year y (fst cm)))
               blend_collections in
    match other_layers with
    | [] => ret local_layer
    | _ => o <- LayerM.blend E local_layer other_layers ;; ret (result_layer o)
    end.

Fixpoint blend_years (E : Engine) (self : LayerCollection)
    (blend_collections : list (list Layer * PyVal)) (years : list Z)
    (blended : list Layer) : M (list Layer) :=
  match years with
  | [] => ret blended
  | y :: rest =>
      l <- blend_year E self blend_collections y ;;
      blend_years E self blend_collections rest (blended ++ [l])
  end.

Definition blend (E : Engine) (self : LayerCollection) (collections : list PyVal)
    : M LayerCollection :=
  blend_collections <- lift (all_layers_of (zip_pairs collections)) ;;
  let years := set_order E (map year (_layers self)
                            ++ flat_map (fun cm => map year (fst cm)) blend_collections) in
  blended <- blend_years E self blend_collections years [] ;;
  ret (with_layers self blended).

(** [set(range(start_year, end_year + 1)) if start_year and end_year else
    layer_years], as the sequence of insertions into the set. *)
Definition render_years (self : LayerCollection) (start_year end_year : option Z) : list Z :=
  match start_year, end_year with
  | Some a, Some b => if truthy start_year && truthy end_year
                      then py_range a (b + 1)
                      else map year (_layers self)
  | _, _ => map year (_layers self)
  end.

(** [layer.interpretation.values()]. *)
Definition read_labels (l : Layer) : M (list string) :=
  match interpretation l with
  | Some d => ret (values d)
  | None => raise AttributeError      (* None has no values() *)
  end.

(** The [if interpreted:] block of [render]: one interpretation for the
    whole collection, every working layer reclassified against it. *)
Definition normalize (working_layers : list Layer) : M (list Layer) :=
  if existsb has_interpretation working_layers then
    (* chain( *(layer.interpretation.values() for layer in working_layers)) *)
    labels <- mapM read_labels working_layers ;;
    let unique_values := sorted_set (List.concat labels) in
    let common_interpretation := enumerate_from_1 unique_values in
    mapM (fun l => o <- reclassify l common_interpretation 0%Q ;; ret (result_layer o))
         working_layers
  else ret working_layers.

(** [[layer for layer in self._layers if layer.year in render_years]]. *)
Definition selected (self : LayerCollection) (start_year end_year : option Z) : list Layer :=
  filter (fun layer => mem (year layer) (render_years self start_year end_year))
         (_layers self).

(** [render_years - layer_years], in the order the set is iterated. *)
Definition missing_years (E : Engine) (self : LayerCollection)
    (start_year end_year : option Z) : list Z :=
  set_order E (filter (fun y => negb (mem y (map year (_layers self))))
                      (set_order E (render_years self start_year end_year))).

(** [Frame(year, background_frame.path, background_frame.scale)]. *)
Definition background_for (background_frame : Frame) (y : Z) : Frame :=
  {| frame_year := y; frame_path := frame_path background_frame;
     frame_scale := frame_scale background_frame |}.

(** [render] up to the background Frame: the working layers, cropped,
    converted and normalized, and the Frame rendered from the flattened
    background layer. *)
Definition render_working (E : Engine) (self : LayerCollection)
    (bounding_box : option BoundingBox) (start_year end_year : option Z) (units : Units)
    : M (list Layer * Frame) :=
  let working_layers := selected self start_year end_year in
  working_layers <-
    match bounding_box with
    | Some box => mapM (fun l => r <- BoundingBoxM.crop E box l ;; ret (snd r)) working_layers
    | None => ret working_layers
    end ;;
  working_layers <-
    mapM (fun l => o <- convert_units E l units ;; ret (result_layer o)) working_layers ;;
  working_layers <- normalize working_layers ;;
  background_layer <-
    match bounding_box with
    | Some box => ret (as_layer box)
    | None => match working_layers with
              | l :: _ => ret l
              | [] => raise IndexError
              end
    end ;;
  flat <- flatten background_layer 1%Q false ;;
  background <-
    LayerRender.render E (result_layer flat)
      [(KValue 1%Q, {| color := _background_color self; label := "" |})]
      bounding_box false ;;
  ret (working_layers, snd background).

(** The rest of [render]: merge by year, one legend, render, composite on
    the background, and a bare background Frame for every missing year. *)
Definition render_frames (E : Engine) (self : LayerCollection)
    (start_year end_year : option Z) (working_layers : list Layer)
    (background_frame : Frame) : M (list Frame * Legend) :=
  let layers_by_year := group_by_year working_layers in
  working_layers <- mapM (fun g => _merge_layers E (snd g)) layers_by_year ;;
  legend <- (fun w => Ok (create_legend (_colorizer self) (files w) working_layers, w)) ;;
  rendered_layers <-
    mapM (fun l => r <- LayerRender.render E l legend None true ;; ret (snd r))
         working_layers ;;
  rendered_layers <- mapM (fun f => composite f background_frame true) rendered_layers ;;
  ret (rendered_layers
       ++ map (background_for background_frame) (missing_years E self start_year end_year),
       legend).

Definition render (E : Engine) (self : LayerCollection) (bounding_box : option BoundingBox)
    (start_year end_year : option Z) (units : Units) : M (list Frame * Legend) :=
  r <- render_working E self bounding_box start_year end_year units ;;
  render_frames E self start_year end_year (fst r) (snd r).

End LayerCollectionM.

(** ** Indicator (indicator.py) *)

Module IndicatorM.

(** Keyword arguments at a constructor call. *)
Inductive KwVal : Type :=
  | KwLayers (ls : list Layer)
  | KwColor (c : Color)
  | KwColorizer (c : Colorizer)
  | KwString (s : string).

(** What the interpreter and the file system provide: [glob.glob], [int] on
    a string, and the Colorizer built by [Colorizer()]. *)
Record Builtins := mkBuiltins {
  glob : string -> list string;
  py_int : string -> Result Z;
  default_colorizer : Colorizer }.

(** The call [LayerCollection(name=value, ...)] against the signature
    [__init__(self, layers=None, background_color=(224, 224, 224),
    colorizer=None)]: a keyword the signature does not name is a TypeError. *)
Fixpoint LayerCollection_init (fallback : Colorizer) (kwargs : list (string * KwVal))
    (acc : LayerCollection) : Result LayerCollection :=
  match kwargs with
  | [] => Ok acc
  | (name, v) :: rest =>
      if String.eqb name "layers" then
        match v with
        | KwLayers ls =>
            LayerCollection_init fallback rest
              {| _layers := ls; _background_color := _background_color acc;
                 _colorizer := _colorizer acc |}
        | _ => LayerCollection_init fallback rest acc
        end
      else if String.eqb name "background_color" then
        match v with
        | KwColor c =>
            LayerCollection_init fallback rest
              {| _layers := _layers acc; _background_color := c;
                 _colorizer := _colorizer acc |}
        | _ => LayerCollection_init fallback rest acc
        end
      else if String.eqb name "colorizer" then
        match v with
        | KwColorizer c =>
            LayerCollection_init fallback rest
              {| _layers := _layers acc; _background_color := _background_color acc;
                 _colorizer := c |}
        | _ => LayerCollection_init fallback rest acc
        end
      else Raise TypeError       (* unexpected keyword argument *)
  end.

Definition LayerCollection_new (fallback : Colorizer) (kwargs : list (string * KwVal))
    : Result LayerCollection :=
  LayerCollection_init fallback kwargs
    {| _layers := []; _background_color := (224, 224, 224); _colorizer := fallback |}.

(** [bool(layers)] for a LayerCollection: the class defines neither
    [__bool__] nor [__len__], so every instance is true. *)
Definition truth_value (c : LayerCollection) : bool := true.

Record Indicator := mkIndicator {
  _indicator : string;
  _layer_pattern : string;
  _palette : string;
  _indicator_background_color : Color;
  simulation_years : option Z * option Z }.

(** [s[-4:]]. *)
Definition last4 (s : string) : string :=
  let n := String.length s in substring (n - 4) 4 s.

(** [os.path.splitext(p)[0]] (posix): the path without the extension of its
    last component; a component made of leading dots has no extension. *)
Fixpoint split_at_dot (reversed : list ascii) : option (list ascii) :=
  match reversed with
  | [] => None
  | c :: rest =>
      if Ascii.eqb c "/" then None
      else if Ascii.eqb c "." then Some rest
      else split_at_dot rest
  end.

Fixpoint component (reversed : list ascii) : list ascii :=
  match reversed with
  | [] => []
  | c :: rest => if Ascii.eqb c "/" then [] else c :: component rest
  end.

Definition splitext0 (p : string) : string :=
  match split_at_dot (rev (list_ascii_of_string p)) with
  | Some before_dot =>
      if existsb (fun c => negb (Ascii.eqb c ".")) (component before_dot)
      then string_of_list_ascii (rev before_dot)
      else p
  | None => p
  end.

(** The loop and the emptiness check of [_find_layers], on the collection
    built by the constructor. *)
Fixpoint collect_layers (B : Builtins) (layers : LayerCollection) (paths : list string)
    : Result LayerCollection :=
  match paths with
  | [] => Ok layers
  | layer_path :: rest =>
      match py_int B (last4 (splitext0 layer_path)) with
      | Raise e => Raise e
      | Ok y =>
          collect_layers B
            (LayerCollectionM.append layers
               {| path := Src layer_path; year := y; interpretation := None;
                  units := TcPerHa |})
            rest
      end
  end.

Definition find_in (B : Builtins) (self : Indicator) (layers : LayerCollection)
    : Result LayerCollection :=
  match collect_layers B layers (glob B (_layer_pattern self)) with
  | Raise e => Raise e
  | Ok layers =>
      if negb (truth_value layers) then Raise IOError   (* No spatial output found *)
      else Ok layers
  end.

Definition _find_layers (B : Builtins) (self : Indicator) : Result LayerCollection :=
  match LayerCollection_new (default_colorizer B)
          [("palette"%string, KwString (_palette self));
           ("background_color"%string, KwColor (_indicator_background_color self))] with
  | Raise e => Raise e
  | Ok layers => find_in B self layers
  end.

Definition render_map_frames (E : Engine) (B : Builtins) (self : Indicator)
    (bounding_box : option BoundingBox) : M (list Frame * Legend) :=
  let '(start_year, end_year) := simulation_years self in
  layers <- lift (_find_layers B self) ;;
  LayerCollectionM.render E layers bounding_box start_year end_year TcPerHa.

End IndicatorM.

(** * Specification vocabulary and examples *)

(** ** Rasters used at the examples of min_pixel_bounds *)

Module BoundingBoxExamples.
Import BoundingBoxScan.

(** A 12 x 10 raster, nodata 0, with data in rows 5..10 and columns 2..8. *)
Definition bbox_raster_5_10_2_8 : Grid :=
  repeat (repeat 0%Q 10) 5
  ++ repeat (repeat 0%Q 2 ++ repeat 1%Q 7 ++ [0%Q]) 6
  ++ [repeat 0%Q 10].

(** A 3 x 3 raster, nodata 0, with data in rows 0 and 1 and in column 0. *)
Definition bbox_raster_top_left : Grid :=
  [[1%Q; 1%Q; 0%Q]; [1%Q; 0%Q; 0%Q]; [0%Q; 0%Q; 0%Q]].

(** A 2 x 4 raster, nodata 0, without data. *)
Definition bbox_raster_blank : Grid := repeat (repeat 0%Q 4) 2.

End BoundingBoxExamples.

(** ** Vocabulary of the statements about Layer, and the worlds of the examples *)

Module LayerSpec.
Import LayerM.

(** A path in use: a source file or a temporary path already handed out. *)
Definition allocated (w : World) (p : Path) : Prop :=
  match p with
  | Src _ => True
  | Tmp n _ => (n < next_tmp w)%nat
  end.

(** [w'] extends [w]: no path in use in [w] was rewritten. *)
Definition extends (w w' : World) : Prop :=
  (next_tmp w <= next_tmp w')%nat /\
  forall p, allocated w p -> files w' p = files w p.

(** The outcome of a transformation that builds a new Layer on a new raster
    artifact: the receiver is as before, the returned Layer sits on the path
    just handed out, and no file in use was rewritten. *)
Definition new_artifact (self : Layer) (w : World) (o : Outcome) (w' : World) : Prop :=
  exists l, o = (self, ReturnsNew l) /\
            ~ allocated w (path l) /\ allocated w' (path l) /\
            year l = year self /\
            extends w w'.

(** [convert_units] has nothing to compute: same per-hectare flag and a
    scale ratio of 1. *)
Definition same_scale (current target : Units) : bool :=
  let '(current_per_ha, current_units_tc, _) := Units_value current in
  let '(new_per_ha, new_units_tc, _) := Units_value target in
  Bool.eqb current_per_ha new_per_ha && eqn (current_units_tc / new_units_tc)%Q 1%Q.

Definition with_units (l : Layer) (u : Units) : Layer :=
  {| path := path l; year := year l; interpretation := interpretation l; units := u |}.

(** The arguments of a well-formed call: [layer_1, mode_1, layer_2, ...]. *)
Definition blend_args (ops : list (Layer * BlendMode)) : list PyVal :=
  flat_map (fun lm => [VLayer (fst lm); VMode (snd lm)]) ops.

Definition typed (cms : list (Layer * BlendMode)) : list (Layer * PyVal) :=
  map (fun lm => (fst lm, VMode (snd lm))) cms.

(** The signed sum [a +/- b_1 +/- b_2 ...]. *)
Fixpoint signed_sum (acc : Q) (terms : list (BlendMode * Q)) : Q :=
  match terms with
  | [] => acc
  | (Add, b) :: rest => signed_sum (acc + b)%Q rest
  | (Subtract, b) :: rest => signed_sum (acc - b)%Q rest
  end.

(** The product of the validity masks [(b_i != nodata_i)]. *)
Fixpoint masked (acc : Q) (pixels : list (Q * Q)) : Q :=
  match pixels with
  | [] => acc
  | (b, nd) :: rest => masked (acc * of_bool (ne b nd))%Q rest
  end.

(** A pixel is valid when it differs from its raster's nodata value. *)
Definition all_valid (pixels : list (Q * Q)) : bool :=
  forallb (fun bn => ne (fst bn) (snd bn)) pixels.

Definition as_args (ops : list (Layer * BlendMode)) : list (PyVal * PyVal) :=
  map (fun lm => (VLayer (fst lm), VMode (snd lm))) ops.

(** The value [blend] writes at one pixel, from the base pixel [a] with
    nodata [nd] and the converted operands' pixels [bs] with nodata [nds]. *)
Definition blend_pixel (propagate : bool) (a nd : Q) (modes : list BlendMode)
    (bs nds : list Q) : Q :=
  if ne a nd && all_valid (combine bs nds)
  then signed_sum a (combine modes bs)
  else if propagate then nd else 0%Q.



Definition geo0 : GeoTransform :=
  {| origin_x := 0%Q; pixel_size_x := 100%Q; origin_y := 0%Q; pixel_size_y := (-100)%Q |}.

Definition raster_of (g : Grid) (nd : Q) : Raster :=
  {| data := g; noDataValue := nd; wkt := "PROJCS[UNIT[metre,1]]"; geoTransform := geo0 |}.

(** Nearest-pixel resampling onto a [width] x [height] grid. *)
Definition resample (r : Raster) (width height : nat) : Raster :=
  {| data := map (fun i => map (fun j => pixel (data r) i j) (seq 0 width)) (seq 0 height);
     noDataValue := noDataValue r; wkt := wkt r; geoTransform := geoTransform r |}.

Definition toy_engine (propagate : bool) : Engine :=
  {| Warp := fun opts rs =>
       let source := hd (raster_of [] 0%Q) rs in
       match size opts with
       | Some (width, height) => resample source width height
       | None => resample source (BoundingBoxScan.shape1 (data source))
                          (List.length (data source))
       end;
     distance_m := fun _ _ => 100%Q;
     calc_propagates_nodata := propagate;
     set_order := nodup Z.eq_dec |}.

(** A world holding the given source files; any other path reads as a 1 x 1
    nodata raster. *)
Definition world_of (sources : list (string * Raster)) : World :=
  {| files := fun p =>
       match p with
       | Src name =>
           match find (fun kv => String.eqb (fst kv) name) sources with
           | Some kv => snd kv
           | None => raster_of [[0%Q]] 0%Q
           end
       | Tmp _ _ => raster_of [[0%Q]] 0%Q
       end;
     next_tmp := 0 |}.

Definition blend_world : World :=
  world_of [("base.tif"%string, raster_of [[5%Q; 0%Q]] 0%Q);
            ("gain.tif"%string, raster_of [[5%Q; 2%Q]] 0%Q);
            ("loss.tif"%string, raster_of [[1%Q; 1%Q]] 0%Q)].

Definition base_layer : Layer :=
  {| path := Src "base.tif"; year := 2000; interpretation := None; units := TcPerHa |}.
Definition gain_layer : Layer :=
  {| path := Src "gain.tif"; year := 2000; interpretation := None; units := TcPerHa |}.
Definition loss_layer : Layer :=
  {| path := Src "loss.tif"; year := 2000; interpretation := None; units := TcPerHa |}.

(** A categorical raster with the classes 1 and 3 and an unclassified pixel. *)
Definition classes_world : World :=
  world_of [("classes.tif"%string, raster_of [[1%Q; 3%Q; 7%Q]] 0%Q)].

Definition classes_layer : Layer :=
  {| path := Src "classes.tif"; year := 2000;
     interpretation := Some [(1, "A"%string); (3, "B"%string)];
     units := Blank |}.

End LayerSpec.

(** ** Vocabulary of the statements about LayerCollection *)

Module CollectionSpec.
Import LayerM LayerCollectionM LayerSpec.

(** Iterating over a set visits each of its elements once, in some order. *)
Definition set_order_ok (E : Engine) : Prop :=
  forall l, Permutation (set_order E l) (nodup Z.eq_dec l).

(** A group is not empty and holds layers of its year only. *)
Definition good_group (g : Z * list Layer) : Prop :=
  snd g <> [] /\ Forall (fun l => year l = fst g) (snd g).

(** The arguments of a well-formed call: [collection_1, mode_1, ...]. *)
Definition collection_args (ops : list (LayerCollection * BlendMode)) : list PyVal :=
  flat_map (fun cm => [VCollection (fst cm); VMode (snd cm)]) ops.

Definition typed_collections (ops : list (LayerCollection * BlendMode))
    : list (list Layer * PyVal) :=
  map (fun cm => (_layers (fst cm), VMode (snd cm))) ops.

(** The operands [blend] gathers for one year, each with its collection's
    mode. *)
Definition operands_of_year (y : Z) (ops : list (LayerCollection * BlendMode))
    : list (Layer * BlendMode) :=
  flat_map (fun cm => map (fun l => (l, snd cm)) (of_year y (_layers (fst cm)))) ops.

(** Every layer is a file in use with a raster of shape [dims]. *)
Definition uniform (w : World) (dims : list nat) (ls : list Layer) : Prop :=
  Forall (fun l => allocated w (path l) /\ shape (data (files w (path l))) = dims) ls.

Definition basic_colorizer : Colorizer :=
  {| create_legend := fun _ _ => [(KRange (Some 0%Q) (Some 10%Q),
                                   {| color := (0, 128, 0); label := "0 - 10" |})] |}.

(** Two fragments tagged 2005 and one layer for 2006. *)
Definition fragmented_collection : LayerCollection :=
  {| _layers := [ {| path := Src "base.tif"; year := 2005; interpretation := None;
                     units := TcPerHa |};
                  {| path := Src "gain.tif"; year := 2005; interpretation := None;
                     units := TcPerHa |};
                  {| path := Src "loss.tif"; year := 2006; interpretation := None;
                     units := TcPerHa |} ];
     _background_color := (224, 224, 224);
     _colorizer := basic_colorizer |}.

Definition label_le (a b : string) : Prop := String.leb a b = true.

(** The labels of a layer's interpretation; none for a layer without one. *)
Definition labels_of (l : Layer) : list string :=
  match interpretation l with
  | Some d => values d
  | None => []
  end.

(** The interpretation [render] shares across the working layers. *)
Definition common_interpretation (working_layers : list Layer) : Interp :=
  enumerate_from_1 (sorted_set (List.concat (map labels_of working_layers))).

(** What one reclassified layer keeps and gets. *)
Definition reclassified_to (common : Interp) (l l' : Layer) : Prop :=
  year l' = year l /\ units l' = units l /\ interpretation l' = Some common.

Definition interpreted_world : World :=
  world_of [("fire.tif"%string, raster_of [[3%Q; 0%Q]] 0%Q);
            ("harvest.tif"%string, raster_of [[0%Q; 7%Q]] 0%Q);
            ("npp.tif"%string, raster_of [[4%Q; 2%Q]] 0%Q)].

Definition fire_layer : Layer :=
  {| path := Src "fire.tif"; year := 2000;
     interpretation := Some [(3, "Wildfire"%string)]; units := Blank |}.
Definition harvest_layer : Layer :=
  {| path := Src "harvest.tif"; year := 2001;
     interpretation := Some [(7, "Clearcut"%string)]; units := Blank |}.
Definition npp_layer : Layer :=
  {| path := Src "npp.tif"; year := 2001; interpretation := None; units := TcPerHa |}.

Definition collection_of (ls : list Layer) : LayerCollection :=
  {| _layers := ls; _background_color := (224, 224, 224); _colorizer := basic_colorizer |}.

(** A rectangular grid: every row as long as the first. *)
Definition rect (g : Grid) : Prop :=
  shape g = repeat (BoundingBoxScan.shape1 g) (List.length g).

(** What the pipeline needs of the resampler: its output is rectangular and
    has the requested size when one is requested. *)
Definition warp_ok (E : Engine) : Prop :=
  forall opts rs,
    rect (data (Warp E opts rs)) /\
    forall width height, size opts = Some (width, height) ->
      shape (data (Warp E opts rs)) = repeat width height.

(** A bounding box that was initialised earlier sits on a rectangular raster
    in use. *)
Definition box_ok (w : World) (box : BoundingBox) : Prop :=
  _initialized box = true ->
  allocated w (path (as_layer box)) /\ rect (data (files w (path (as_layer box)))).

Definition renderable (legend : Legend) (transparent : bool) : Prop :=
  exists rows, LayerRender.color_table legend transparent = Ok rows.

(** A layer that went through crop or unit conversion keeps its year and
    its interpretation. *)
Definition same_tags (l l' : Layer) : Prop :=
  year l' = year l /\ interpretation l' = interpretation l.

(** The working layers are all interpreted, with at least one label among
    them, or none is interpreted. *)
Definition homogeneous (ls : list Layer) : Prop :=
  existsb has_interpretation ls = false \/
  (forallb has_interpretation ls = true /\ List.concat (map labels_of ls) <> []).

(** Every legend the collection's colorizer builds can be written as a
    color table. *)
Definition colorizer_ok (self : LayerCollection) : Prop :=
  forall fs layers, renderable (create_legend (_colorizer self) fs layers) true.

End CollectionSpec.

(** ** Vocabulary of the further statements *)

Module MoreSpec.
Import LayerM LayerCollectionM LayerSpec CollectionSpec.

(** A pixel location of the grid. *)
Definition in_grid (g : Grid) (r c : nat) : Prop :=
  (r < List.length g)%nat /\ (c < List.length (nth r g []))%nat.

(** [(current_per_ha, current_units_tc)] of a unit. *)
Definition per_ha (u : Units) : bool := fst (fst (Units_value u)).
Definition units_tc (u : Units) : Q := snd (fst (Units_value u)).

(** The area of the pixel at row [r], column [c] in hectares, as
    [convert_units] takes it: the square of the pixel size in a projection
    in metres, the product of the two geodesic side lengths otherwise. *)
Definition pixel_area_ha (E : Engine) (raster : Raster) (r c : nat) : Q :=
  let g := geoTransform raster in
  if contains "metre" (wkt raster)
  then (pixel_size_x g * pixel_size_x g / one_hectare)%Q
  else
    let lat := (origin_y g - pixel_size_y g * inject_Z (Z.of_nat r))%Q in
    let lon := (origin_x g + pixel_size_x g * inject_Z (Z.of_nat c))%Q in
    (distance_m E (lat, lon) ((lat - pixel_size_y g)%Q, lon)
     * distance_m E (lat, lon) (lat, (lon + pixel_size_x g)%Q) / one_hectare)%Q.

(** The factor between a value in [current] units and the same quantity in
    [target] units at that pixel: the ratio of the scales, times the pixel
    area when going from per-hectare to absolute, divided by it the other
    way round. *)
Definition conversion_factor (E : Engine) (raster : Raster) (current target : Units)
    (r c : nat) : Q :=
  let ratio := (units_tc current / units_tc target)%Q in
  if Bool.eqb (per_ha current) (per_ha target) then ratio
  else if per_ha current then (ratio * pixel_area_ha E raster r c)%Q
  else (ratio / pixel_area_ha E raster r c)%Q.

(** The converted value of the pixel at [r], [c]: data is scaled, nodata
    stays nodata. *)
Definition converted (E : Engine) (raster : Raster) (current target : Units)
    (r c : nat) : Q :=
  let v := pixel (data raster) r c in
  if ne v (noDataValue raster)
  then (v * conversion_factor E raster current target r c)%Q
  else noDataValue raster.



(** The window [crop] asks the resampler for: the grid of the bounding
    box's raster, in the box's coordinate system. *)
Definition crop_window (box_raster : Raster) : WarpOptions :=
  let width := BoundingBoxScan.shape1 (data box_raster) in
  let height := List.length (data box_raster) in
  let g := geoTransform box_raster in
  {| dstSRS := Some (wkt box_raster);
     size := Some (width, height);
     outputBounds :=
       Some (origin_x g,
             (origin_y g + inject_Z (Z.of_nat height) * pixel_size_y g)%Q,
             (origin_x g + inject_Z (Z.of_nat width) * pixel_size_x g)%Q,
             origin_y g);
     outputBoundsSRS := None |}.

(** The pixel [crop] writes: the layer's nodata value where the box has
    nodata (and, when the calculator propagates nodata, where the resampled
    layer has), the resampled layer's pixel elsewhere. *)
Definition cropped_pixel (propagate : bool) (box_raster resampled : Raster)
    (layer_nodata : Q) (r c : nat) : Q :=
  if eqn (pixel (data box_raster) r c) (noDataValue box_raster) then layer_nodata
  else if propagate && eqn (pixel (data resampled) r c) (noDataValue resampled)
       then layer_nodata
       else pixel (data resampled) r c.

(** A raster in tC/ha with 100 m pixels. *)
Definition stock_world : World :=
  world_of [("stock.tif"%string, raster_of [[4%Q; 0%Q]; [0%Q; 3%Q]] 0%Q)].

Definition stock_layer : Layer :=
  {| path := Src "stock.tif"; year := 2010; interpretation := None; units := TcPerHa |}.


Definition fresh_stock_box : BoundingBox := BoundingBoxM.new (Src "stock.tif") None.

(** A range key with a missing end. *)
Definition open_ended (k : LegendKey) : bool :=
  match k with
  | KRange (Some _) (Some _) => false
  | KRange _ _ => true
  | KValue _ => false
  end.

(** How far a legend key is from zero: the absolute value of a pixel value,
    zero for a range around zero, the nearer end of any other range. *)
Definition distance_to_zero (k : LegendKey) : Q :=
  match k with
  | KValue v => Qabs v
  | KRange (Some lo) (Some hi) =>
      if LayerRender.qltb lo 0%Q && LayerRender.qltb 0%Q hi then 0%Q
      else Qmin (Qabs lo) (Qabs hi)
  | KRange _ _ => 0%Q
  end.

(** The two rows that guard the legend entry closest to zero. *)
Definition guard_rows (c : option Color) : list LayerRender.ColorRow :=
  [(LayerRender.RValue (-1 # 1000)%Q, c, 255); (LayerRender.RValue (1 # 1000)%Q, c, 255)].

(** A legend with a class at 3, a range around zero and a range above. *)
Definition sample_legend : Legend :=
  [(KValue 3%Q, {| color := (200, 0, 0); label := "Fire" |});
   (KRange (Some (-5)%Q) (Some 5%Q), {| color := (0, 0, 200); label := "-5 to 5" |});
   (KRange (Some 5%Q) (Some 10%Q), {| color := (0, 200, 0); label := "5 to 10" |})].

(** What the merge step of [render] leaves for a year: the year's only
    layer itself, or a new raster that mosaics the year's layers in the
    order of the collection. *)
Definition merged_from (E : Engine) (w w' : World) (fragments : list Layer) (m : Layer)
    : Prop :=
  fragments = [m] \/
  ((2 <= List.length fragments)%nat /\
   ~ allocated w (path m) /\
   files w' (path m) = Warp E plain_warp (map (fun l => files w (path l)) fragments)).

(** The pixel value [reclassify] gives to a label, and one round of its
    remapping loop at one pixel. *)
Definition new_pixel_value (new_interpretation : Interp) (nodata : Q) (label : string) : Q :=
  match inverse_lookup new_interpretation label with
  | Some k => inject_Z k
  | None => nodata
  end.


(** The state of the color table loop after the entries [seen]: nothing yet, or the
    color of an entry of [seen] that is nearest to zero. *)
Definition nearest (seen : Legend) (nzv : option Q) (nzc : option Color) : Prop :=
  match nzv with
  | None => seen = [] /\ nzc = None
  | Some d =>
      exists key entry,
        In (key, entry) seen /\ nzc = Some (color entry) /\ distance_to_zero key = d /\
        forall key' entry', In (key', entry') seen ->
          (d <= distance_to_zero key')%Q
  end.



End MoreSpec.

(** * Proofs *)

(** ** Facts about BoundingBox.min_pixel_bounds *)

Module BoundingBoxFacts.
Import BoundingBoxScan BoundingBoxExamples.

Lemma where_ne_In nodata row : forall c0 c,
  In c (where_ne nodata row c0) <->
  exists v, (c0 <= c)%nat /\ nth_error row (c - c0) = Some v /\ ne v nodata = true.
Proof.
  induction row as [|x rest IH]; intros c0 c; simpl.
  - split; [tauto|]. intros (v & _ & H & _). destruct (c - c0)%nat; discriminate.
  - destruct (ne x nodata) eqn:Hx; simpl; rewrite ?IH; split.
    + intros [<-|(v & Hle & Hn & Hv)].
      * exists x. rewrite Nat.sub_diag. auto.
      * exists v. split; [lia|]. split; [|exact Hv].
        replace (c - c0)%nat with (S (c - S c0)) by lia. exact Hn.
    + intros (v & Hle & Hn & Hv).
      destruct (Nat.eq_dec c0 c) as [->|Hne]; [now left|right].
      exists v. split; [lia|]. split; [|exact Hv].
      replace (c - c0)%nat with (S (c - S c0)) in Hn by lia. exact Hn.
    + intros (v & Hle & Hn & Hv). exists v. split; [lia|]. split; [|exact Hv].
      replace (c - c0)%nat with (S (c - S c0)) by lia. exact Hn.
    + intros (v & Hle & Hn & Hv).
      destruct (Nat.eq_dec c0 c) as [->|Hne].
      * rewrite Nat.sub_diag in Hn. simpl in Hn. congruence.
      * exists v. split; [lia|]. split; [|exact Hv].
        replace (c - c0)%nat with (S (c - S c0)) in Hn by lia. exact Hn.
Qed.

Lemma data_at_where nodata data r c :
  data_at nodata data r c <->
  exists row, nth_error data r = Some row /\ In c (where_ne nodata row 0).
Proof.
  unfold data_at. split.
  - intros (row & v & Hr & Hc & Hv). exists row. split; [exact Hr|].
    apply where_ne_In. exists v. rewrite Nat.sub_0_r. split; [lia|auto].
  - intros (row & Hr & Hin). apply where_ne_In in Hin.
    destruct Hin as (v & _ & Hc & Hv). rewrite Nat.sub_0_r in Hc.
    exists row, v. auto.
Qed.

Lemma np_min_spec l : l <> [] ->
  In (np_min l) l /\ forall x, In x l -> (np_min l <= x)%nat.
Proof.
  unfold np_min. destruct l as [|a l]; [congruence|intros _]. simpl hd.
  assert (G : forall d m, In (fold_right Nat.min d m) (d :: m) /\
                          (fold_right Nat.min d m <= d)%nat /\
                          forall x, In x m -> (fold_right Nat.min d m <= x)%nat).
  { intros d m. induction m as [|y m IH]; simpl.
    - split; [now left|]. split; [lia|tauto].
    - destruct IH as (Hin & Hle & Hall).
      split.
      + destruct (Nat.min_spec y (fold_right Nat.min d m)) as [[_ ->]|[_ ->]].
        * right; now left.
        * simpl in Hin. destruct Hin as [Hd|Hm]; [now left|right; now right].
      + split; [lia|]. intros x [<-|Hx]; [lia|]. specialize (Hall x Hx). lia. }
  destruct (G a (a :: l)) as (Hin & Hle & Hall). split.
  - destruct Hin as [Hd|Hm]; [rewrite <- Hd; now left|exact Hm].
  - exact Hall.
Qed.

Lemma np_max_spec l : l <> [] ->
  In (np_max l) l /\ forall x, In x l -> (x <= np_max l)%nat.
Proof.
  unfold np_max. destruct l as [|a l]; [congruence|intros _]. simpl hd.
  assert (G : forall d m, In (fold_right Nat.max d m) (d :: m) /\
                          (d <= fold_right Nat.max d m)%nat /\
                          forall x, In x m -> (x <= fold_right Nat.max d m)%nat).
  { intros d m. induction m as [|y m IH]; simpl.
    - split; [now left|]. split; [lia|tauto].
    - destruct IH as (Hin & Hle & Hall).
      split.
      + destruct (Nat.max_spec y (fold_right Nat.max d m)) as [[_ ->]|[_ ->]].
        * simpl in Hin. destruct Hin as [Hd|Hm]; [now left|right; now right].
        * right; now left.
      + split; [lia|]. intros x [<-|Hx]; [lia|]. specialize (Hall x Hx). lia. }
  destruct (G a (a :: l)) as (Hin & Hle & Hall). split.
  - destruct Hin as [Hd|Hm]; [rewrite <- Hd; now left|exact Hm].
  - exact Hall.
Qed.

(** What one iteration does to each loop variable. *)
Lemma scan_row_empty nodata b i row :
  where_ne nodata row 0 = [] -> scan_row nodata b i row = b.
Proof. unfold scan_row. now intros ->. Qed.

Lemma scan_row_x nodata b i row :
  where_ne nodata row 0 <> [] ->
  let b' := scan_row nodata b i row in
  (forall c, In c (where_ne nodata row 0) ->
             x_min b' <= Z.of_nat c /\ Z.of_nat c <= x_max b') /\
  x_min b' <= x_min b /\ x_max b <= x_max b' /\
  (x_min b' = x_min b \/ exists c, In c (where_ne nodata row 0) /\ x_min b' = Z.of_nat c) /\
  (x_max b' = x_max b \/ exists c, In c (where_ne nodata row 0) /\ x_max b' = Z.of_nat c).
Proof.
  intros Hne. unfold scan_row.
  destruct (np_min_spec _ Hne) as (Hmin_in & Hmin).
  destruct (np_max_spec _ Hne) as (Hmax_in & Hmax).
  destruct (where_ne nodata row 0) as [|a l] eqn:E; [congruence|].
  cbv zeta. simpl x_min. simpl x_max.
  destruct (Z.ltb_spec (Z.of_nat (np_min (a :: l))) (x_min b));
  destruct (Z.gtb_spec (Z.of_nat (np_max (a :: l))) (x_max b));
  (split; [intros c Hc; specialize (Hmin c Hc); specialize (Hmax c Hc); lia|]);
  (split; [lia|]); (split; [lia|]); split;
  try (now left); right; eauto.
Qed.

Lemma scan_row_y nodata b i row :
  where_ne nodata row 0 <> [] ->
  y_max (scan_row nodata b i row) = Z.of_nat i /\
  y_min (scan_row nodata b i row) = (if y_min b =? 0 then Z.of_nat i else y_min b).
Proof.
  intros Hne. unfold scan_row.
  destruct (where_ne nodata row 0); [congruence|]. now simpl.
Qed.

Lemma scan_x nodata rows : forall i b,
  let b' := scan nodata rows i b in
  (forall k row c, nth_error rows k = Some row -> In c (where_ne nodata row 0) ->
                   x_min b' <= Z.of_nat c /\ Z.of_nat c <= x_max b') /\
  x_min b' <= x_min b /\ x_max b <= x_max b' /\
  (x_min b' = x_min b \/
   exists k row c, nth_error rows k = Some row /\ In c (where_ne nodata row 0) /\
                   x_min b' = Z.of_nat c) /\
  (x_max b' = x_max b \/
   exists k row c, nth_error rows k = Some row /\ In c (where_ne nodata row 0) /\
                   x_max b' = Z.of_nat c).
Proof.
  induction rows as [|row rest IH]; intros i b; simpl.
  - split; [intros [|k] ? ? H; discriminate H|]. repeat split; try lia; now left.
  - specialize (IH (S i) (scan_row nodata b i row)). cbv zeta in IH.
    destruct IH as (Hall & Hlo & Hhi & Hmin & Hmax).
    destruct (where_ne nodata row 0) as [|a l] eqn:E.
    + rewrite (scan_row_empty _ b i row E) in *.
      split.
      { intros [|k] r c Hk Hc; simpl in Hk.
        - injection Hk as <-. rewrite E in Hc. destruct Hc.
        - eapply Hall; eauto. }
      split; [lia|]. split; [lia|]. split.
      * destruct Hmin as [->|(k & r & c & Hk & Hc & Heq)]; [now left|].
        right. exists (S k), r, c. auto.
      * destruct Hmax as [->|(k & r & c & Hk & Hc & Heq)]; [now left|].
        right. exists (S k), r, c. auto.
    + assert (Hne : where_ne nodata row 0 <> []) by (rewrite E; discriminate).
      destruct (scan_row_x nodata b i row Hne) as (Rall & Rlo & Rhi & Rmin & Rmax).
      split.
      { intros [|k] r c Hk Hc; simpl in Hk.
        - injection Hk as <-. specialize (Rall c Hc). lia.
        - eapply Hall; eauto. }
      split; [lia|]. split; [lia|]. split.
      * destruct Hmin as [Heq|(k & r & c & Hk & Hc & Heq)].
        -- rewrite Heq. destruct Rmin as [->|(c & Hc & Hceq)]; [now left|].
           right. exists 0%nat, row, c. auto.
        -- right. exists (S k), r, c. auto.
      * destruct Hmax as [Heq|(k & r & c & Hk & Hc & Heq)].
        -- rewrite Heq. destruct Rmax as [->|(c & Hc & Hceq)]; [now left|].
           right. exists 0%nat, row, c. auto.
        -- right. exists (S k), r, c. auto.
Qed.

(** [y_max] ends as the index of the last row holding data. *)
Lemma scan_y_max nodata rows : forall i b,
  ((forall row, In row rows -> where_ne nodata row 0 = []) /\
   y_max (scan nodata rows i b) = y_max b) \/
  (exists k row, nth_error rows k = Some row /\ where_ne nodata row 0 <> [] /\
     y_max (scan nodata rows i b) = Z.of_nat (i + k) /\
     forall k' row', (k < k')%nat -> nth_error rows k' = Some row' ->
                     where_ne nodata row' 0 = []).
Proof.
  induction rows as [|row rest IH]; intros i b; simpl.
  - left. split; [tauto|reflexivity].
  - destruct (IH (S i) (scan_row nodata b i row)) as [(Hnone & Heq)|(k & r & Hk & Hr & Heq & Hlast)].
    + destruct (where_ne nodata row 0) as [|a l] eqn:E.
      * left. rewrite (scan_row_empty _ b i row E) in Heq. split; [|].
        2:{ rewrite (scan_row_empty _ b i row E). exact Heq. }
        intros r [<-|Hin]; auto.
      * right. exists 0%nat, row. simpl. split; [reflexivity|].
        assert (Hne : where_ne nodata row 0 <> []) by (rewrite E; discriminate).
        split; [exact Hne|]. rewrite Heq.
        destruct (scan_row_y nodata b i row Hne) as (-> & _).
        split; [f_equal; lia|].
        intros [|k'] r' Hlt Hk'; [lia|]. simpl in Hk'.
        apply Hnone. eapply nth_error_In; eauto.
    + right. exists (S k), r. simpl. split; [exact Hk|]. split; [exact Hr|].
      split; [rewrite Heq; f_equal; lia|].
      intros [|k'] r' Hlt Hk'; [lia|]. simpl in Hk'. eapply Hlast; [|eauto]. lia.
Qed.

(** Once [y_min] is non-zero it is never assigned again. *)
Lemma scan_y_min_set nodata rows : forall i b,
  y_min b <> 0 -> y_min (scan nodata rows i b) = y_min b.
Proof.
  induction rows as [|row rest IH]; intros i b Hb; simpl; [reflexivity|].
  destruct (where_ne nodata row 0) as [|a l] eqn:E.
  - rewrite (scan_row_empty _ b i row E). now apply IH.
  - assert (Hne : where_ne nodata row 0 <> []) by (rewrite E; discriminate).
    destruct (scan_row_y nodata b i row Hne) as (_ & Hy).
    destruct (Z.eqb_spec (y_min b) 0); [contradiction|].
    rewrite IH; congruence.
Qed.

(** While [y_min] is 0 it is taken from the first row holding data whose
    index is not 0. *)
Lemma scan_y_min_unset nodata rows : forall i b,
  y_min b = 0 ->
  ((forall k row, nth_error rows k = Some row -> where_ne nodata row 0 <> [] ->
                  (i + k = 0)%nat) /\
   y_min (scan nodata rows i b) = 0) \/
  (exists k row, nth_error rows k = Some row /\ where_ne nodata row 0 <> [] /\
     (i + k <> 0)%nat /\
     y_min (scan nodata rows i b) = Z.of_nat (i + k) /\
     forall k' row', (k' < k)%nat -> nth_error rows k' = Some row' ->
                     where_ne nodata row' 0 <> [] -> (i + k' = 0)%nat).
Proof.
  induction rows as [|row rest IH]; intros i b Hb; simpl.
  - left. split; [intros [|k] ? H; discriminate H|exact Hb].
  - destruct (where_ne nodata row 0) as [|a l] eqn:E.
    + rewrite (scan_row_empty _ b i row E).
      destruct (IH (S i) b Hb) as [(Hnone & Heq)|(k & r & Hk & Hr & Hnz & Heq & Hfirst)].
      * left. split; [|exact Heq].
        intros [|k] r Hk Hr; simpl in Hk.
        -- injection Hk as <-. congruence.
        -- specialize (Hnone k r Hk Hr). lia.
      * right. exists (S k), r. simpl. split; [exact Hk|]. split; [exact Hr|].
        split; [lia|]. split; [rewrite Heq; f_equal; lia|].
        intros [|k'] r' Hlt Hk' Hr'; simpl in Hk'.
        -- injection Hk' as <-. congruence.
        -- specialize (Hfirst k' r' ltac:(lia) Hk' Hr'). lia.
    + assert (Hne : where_ne nodata row 0 <> []) by (rewrite E; discriminate).
      destruct (scan_row_y nodata b i row Hne) as (_ & Hy).
      rewrite Hb in Hy. simpl in Hy.
      destruct i as [|i].
      * (* row 0 holds data: y_min stays 0 *)
        destruct (IH 1%nat (scan_row nodata b 0 row) Hy)
          as [(Hnone & Heq)|(k & r & Hk & Hr & Hnz & Heq & Hfirst)].
        -- left. split; [|exact Heq].
           intros [|k] r Hk Hr; [reflexivity|]. simpl in Hk.
           specialize (Hnone k r Hk Hr). lia.
        -- right. exists (S k), r. simpl. split; [exact Hk|]. split; [exact Hr|].
           split; [lia|]. split; [rewrite Heq; f_equal; lia|].
           intros [|k'] r' Hlt Hk' Hr'; [reflexivity|]. simpl in Hk'.
           specialize (Hfirst k' r' ltac:(lia) Hk' Hr'). lia.
      * right. exists 0%nat, row. simpl. split; [reflexivity|]. split; [exact Hne|].
        split; [lia|]. split.
        -- rewrite scan_y_min_set; rewrite Hy; [f_equal; lia|lia].
        -- intros k' r' Hlt. lia.
Qed.

Lemma data_row_nonempty nodata data r c row :
  nth_error data r = Some row -> data_at nodata data r c -> where_ne nodata row 0 <> [].
Proof.
  intros Hr Hd. apply data_at_where in Hd. destruct Hd as (row' & Hr' & Hin).
  assert (row' = row) by congruence. subst. intros E. rewrite E in Hin. destruct Hin.
Qed.

Lemma nonempty_data_row nodata data r row :
  nth_error data r = Some row -> where_ne nodata row 0 <> [] ->
  exists c, data_at nodata data r c.
Proof.
  intros Hr Hne. destruct (where_ne nodata row 0) as [|c l] eqn:E; [congruence|].
  exists c. apply data_at_where. exists row. split; [exact Hr|]. rewrite E. now left.
Qed.

(** C9. A bounding-box raster whose data pixels lie in rows 5..10 and columns
    2..8, touching each of those four extremes, has
    [min_pixel_bounds = [1; 9; 4; 11]]: the enclosing rectangle with one pixel
    of padding on every side. *)
Theorem min_pixel_bounds_rows_5_10_cols_2_8 (data : Grid) (nodata : Q) :
  rectangular data ->
  (forall r c, data_at nodata data r c -> (5 <= r <= 10)%nat /\ (2 <= c <= 8)%nat) ->
  (exists c, data_at nodata data 5 c) ->
  (exists c, data_at nodata data 10 c) ->
  (exists r, data_at nodata data r 2) ->
  (exists r, data_at nodata data r 8) ->
  min_pixel_bounds data nodata = [1; 9; 4; 11].
Proof.
  intros Hrect Hin (c5 & H5) (c10 & H10) (r2 & H2) (r8 & H8).
  unfold min_pixel_bounds.
  set (b0 := {| x_min := Z.of_nat (shape1 data); x_max := 0; y_min := 0; y_max := 0 |}).
  pose proof (scan_x nodata data 0 b0) as Hx. cbv zeta in Hx.
  destruct Hx as (Hall & _ & _ & Hmin & Hmax).
  assert (Hw : (8 < shape1 data)%nat).
  { destruct H8 as (row & v & Hr & Hc & _).
    rewrite <- (Hrect row (nth_error_In _ _ Hr)).
    apply nth_error_Some. congruence. }
  assert (Exmin : x_min (scan nodata data 0 b0) = 2).
  { apply data_at_where in H2. destruct H2 as (row & Hr & Hc).
    destruct (Hall _ _ _ Hr Hc) as (Hle & _).
    destruct Hmin as [Heq|(k & r & c & Hk & Hc' & Heq)].
    - rewrite Heq in Hle. simpl in Hle. lia.
    - assert (D : data_at nodata data k c) by (apply data_at_where; eauto).
      apply Hin in D. lia. }
  assert (Exmax : x_max (scan nodata data 0 b0) = 8).
  { apply data_at_where in H8. destruct H8 as (row & Hr & Hc).
    destruct (Hall _ _ _ Hr Hc) as (_ & Hge).
    destruct Hmax as [Heq|(k & r & c & Hk & Hc' & Heq)].
    - rewrite Heq in Hge. simpl in Hge. lia.
    - assert (D : data_at nodata data k c) by (apply data_at_where; eauto).
      apply Hin in D. lia. }
  assert (Eymax : y_max (scan nodata data 0 b0) = 10).
  { destruct H10 as (row10 & v & Hr10 & Hd10).
    assert (N10 : where_ne nodata row10 0 <> []).
    { eapply data_row_nonempty; [exact Hr10|]. exists row10, v. split; [exact Hr10|exact Hd10]. }
    destruct (scan_y_max nodata data 0 b0) as [(Hnone & _)|(k & r & Hk & Hr & Heq & Hlast)].
    - exfalso. apply N10, Hnone. eapply nth_error_In; eauto.
    - rewrite Heq. simpl.
      destruct (nonempty_data_row _ _ _ _ Hk Hr) as (c & D). apply Hin in D.
      destruct (Nat.eq_dec k 10) as [->|Hne]; [reflexivity|].
      exfalso. apply N10. eapply Hlast; [|exact Hr10]. lia. }
  assert (Eymin : y_min (scan nodata data 0 b0) = 5).
  { destruct H5 as (row5 & v & Hr5 & Hd5).
    assert (N5 : where_ne nodata row5 0 <> []).
    { eapply data_row_nonempty; [exact Hr5|]. exists row5, v. split; [exact Hr5|exact Hd5]. }
    destruct (scan_y_min_unset nodata data 0 b0 eq_refl)
      as [(Hnone & _)|(k & r & Hk & Hr & Hnz & Heq & Hfirst)].
    - specialize (Hnone _ _ Hr5 N5). lia.
    - rewrite Heq. simpl.
      destruct (nonempty_data_row _ _ _ _ Hk Hr) as (c & D). apply Hin in D.
      destruct (Nat.eq_dec k 5) as [->|Hne]; [reflexivity|].
      specialize (Hfirst 5%nat row5 ltac:(lia) Hr5 N5). lia. }
  rewrite Exmin, Exmax, Eymax, Eymin. reflexivity.
Qed.

(** C10. Row index 0 doubles as the "unset" marker of [y_min]: when row 0
    holds data and [j >= 1] is the next row holding data, the y lower bound
    is [j - 1] (so 0, not -1, when rows 0 and 1 both hold data), while the x
    lower bound is padded unconditionally: data in column 0 gives -1. *)
Theorem min_pixel_bounds_row0_is_unset_marker (data : Grid) (nodata : Q) (j : nat) :
  (1 <= j)%nat ->
  (exists c, data_at nodata data 0 c) ->
  (exists c, data_at nodata data j c) ->
  (forall r c, (1 <= r < j)%nat -> ~ data_at nodata data r c) ->
  exists xlo xhi yhi,
    min_pixel_bounds data nodata = [xlo; xhi; Z.of_nat j - 1; yhi] /\
    (j = 1%nat -> nth 2 (min_pixel_bounds data nodata) 0 = 0) /\
    ((exists r, data_at nodata data r 0) -> xlo = -1).
Proof.
  intros Hj (c0 & H0) (cj & Hdj) Hgap.
  unfold min_pixel_bounds.
  set (b0 := {| x_min := Z.of_nat (shape1 data); x_max := 0; y_min := 0; y_max := 0 |}).
  assert (Eymin : y_min (scan nodata data 0 b0) = Z.of_nat j).
  { destruct Hdj as (rowj & v & Hrj & Hdj).
    assert (Nj : where_ne nodata rowj 0 <> []).
    { eapply data_row_nonempty; [exact Hrj|]. exists rowj, v. split; [exact Hrj|exact Hdj]. }
    destruct (scan_y_min_unset nodata data 0 b0 eq_refl)
      as [(Hnone & _)|(k & r & Hk & Hr & Hnz & Heq & Hfirst)].
    - specialize (Hnone _ _ Hrj Nj). lia.
    - rewrite Heq. simpl. f_equal.
      destruct (nonempty_data_row _ _ _ _ Hk Hr) as (c & D).
      destruct (Nat.lt_trichotomy k j) as [Hlt|[->|Hgt]]; [|reflexivity|].
      + exfalso. apply (Hgap k c); [simpl in Hnz; lia|exact D].
      + specialize (Hfirst j rowj Hgt Hrj Nj). lia. }
  eexists _, _, _. split; [rewrite Eymin; reflexivity|]. split.
  - intros ->. simpl. rewrite Eymin. reflexivity.
  - intros (r & Hr0).
    pose proof (scan_x nodata data 0 b0) as Hx. cbv zeta in Hx.
    destruct Hx as (Hall & _ & _ & Hmin & _).
    apply data_at_where in Hr0. destruct Hr0 as (row & Hr & Hc).
    destruct (Hall _ _ _ Hr Hc) as (Hle & _).
    destruct Hmin as [Heq|(k & r' & c & Hk & Hc' & Heq)].
    + rewrite Heq in *. simpl in *. lia.
    + lia.
Qed.

Ltac concrete_data :=
  match goal with
  | |- data_at _ _ _ _ => eexists _, _; repeat split; reflexivity
  | |- exists _, data_at _ _ _ _ => eexists; eexists _, _; repeat split; reflexivity
  end.

Lemma min_pixel_bounds_rows_5_10_cols_2_8_witness :
  min_pixel_bounds bbox_raster_5_10_2_8 0%Q = [1; 9; 4; 11].
Proof.
  apply min_pixel_bounds_rows_5_10_cols_2_8.
  - intros row Hin. simpl in Hin.
    repeat (destruct Hin as [<-|Hin]; [reflexivity|]). destruct Hin.
  - intros r c (row & v & Hr & Hc & Hv).
    do 12 (destruct r as [|r];
           [simpl in Hr; injection Hr as <-;
            do 10 (destruct c as [|c];
                   [simpl in Hc; injection Hc as <-;
                    first [discriminate Hv | lia]|]);
            simpl in Hc; destruct c; discriminate Hc|]).
    simpl in Hr. destruct r; discriminate Hr.
  - exists 2%nat. concrete_data.
  - exists 2%nat. concrete_data.
  - exists 5%nat. concrete_data.
  - exists 5%nat. concrete_data.
Defined.

Lemma min_pixel_bounds_row0_is_unset_marker_witness :
  exists xlo xhi yhi,
    min_pixel_bounds bbox_raster_top_left 0%Q = [xlo; xhi; Z.of_nat 1 - 1; yhi] /\
    (1%nat = 1%nat -> nth 2 (min_pixel_bounds bbox_raster_top_left 0%Q) 0 = 0) /\
    ((exists r, data_at 0%Q bbox_raster_top_left r 0) -> xlo = -1).
Proof.
  apply (min_pixel_bounds_row0_is_unset_marker bbox_raster_top_left 0%Q 1).
  - lia.
  - exists 0%nat. concrete_data.
  - exists 0%nat. concrete_data.
  - intros r c Hr. lia.
Defined.


End BoundingBoxFacts.

(** ** Facts about Layer *)

Module LayerFacts.
Import LayerM LayerSpec.

Lemma extends_refl w : extends w w.
Proof. split; auto. Qed.

Lemma extends_trans w1 w2 w3 : extends w1 w2 -> extends w2 w3 -> extends w1 w3.
Proof.
  intros (H1 & F1) (H2 & F2). split; [lia|].
  intros p Hp. rewrite F2, F1; auto.
  destruct p; simpl in *; auto; lia.
Qed.

Lemma allocated_mono w w' p : extends w w' -> allocated w p -> allocated w' p.
Proof. intros (H & _). destruct p; simpl; auto; lia. Qed.

Lemma fresh_not_allocated w sfx : ~ allocated w (Tmp (next_tmp w) sfx).
Proof. simpl. lia. Qed.

#[global] Arguments write_file : simpl never.
#[global] Arguments same_shape : simpl never.
#[global] Arguments BoundingBoxScan.min_pixel_bounds : simpl never.
#[global] Arguments calc_grid : simpl never.
#[global] Arguments geodetic_convert : simpl never.
#[global] Arguments map_grid : simpl never.
#[global] Arguments reclassify_data : simpl never.

Ltac run_m :=
  unfold bind, ret, raise, lift, mktmp, gdal_Open, put_file, nodata_value, _save_as, Calc;
  simpl.

Lemma write_fresh_extends w sfx r :
  extends w (write_file (Tmp (next_tmp w) sfx) r
               {| files := files w; next_tmp := S (next_tmp w) |}).
Proof.
  split; simpl; [lia|].
  intros p Hp. destruct (Path_eq_dec p (Tmp (next_tmp w) sfx)) as [->|]; [|reflexivity].
  simpl in Hp. lia.
Qed.

Lemma write_file_same p r w : files (write_file p r w) p = r.
Proof. simpl. destruct (Path_eq_dec p p); congruence. Qed.

Lemma shape_mapi_from {B} (f : nat -> list Pixel -> list B) i (g : Grid) :
  (forall r row, List.length (f r row) = List.length row) ->
  map (@List.length B) (mapi_from f i g) = shape g.
Proof.
  intros Hf. revert i. induction g as [|row g IH]; intros i; simpl; [reflexivity|].
  rewrite Hf, IH. reflexivity.
Qed.

Lemma length_mapi_from {A B} (f : nat -> A -> B) i l :
  List.length (mapi_from f i l) = List.length l.
Proof. revert i. induction l; intros i; simpl; auto. Qed.

Lemma shape_calc_grid propagate e nd a others :
  shape (calc_grid propagate e nd (a :: others)) = shape (data a).
Proof.
  unfold calc_grid, mapi. apply shape_mapi_from. intros. apply length_mapi_from.
Qed.

Lemma shape_geodetic E g nd k ph grid :
  shape (geodetic_convert E g nd k ph grid) = shape grid.
Proof.
  unfold geodetic_convert, mapi. apply shape_mapi_from. intros. apply length_mapi_from.
Qed.

Lemma shape_map_grid f g : shape (map_grid f g) = shape g.
Proof.
  unfold shape, map_grid. rewrite map_map. apply map_ext. intros. apply length_map.
Qed.

Lemma convert_units_blank E self target w :
  units self = Blank -> convert_units E self target w = Ok ((self, ReturnsSelf), w).
Proof.
  intros H. unfold convert_units. destruct (Units_eq_dec (units self) Blank); [reflexivity|contradiction].
Qed.

Lemma convert_units_same_scale E self target w :
  units self <> Blank -> same_scale (units self) target = true ->
  convert_units E self target w = Ok ((with_units self target, ReturnsSelf), w).
Proof.
  intros H Hs. unfold convert_units, same_scale in *.
  destruct (Units_eq_dec (units self) Blank); [contradiction|].
  destruct (Units_value (units self)) as [[cp ct] cn].
  destruct (Units_value target) as [[np nt] nn].
  rewrite Hs. reflexivity.
Qed.

Lemma convert_units_converts E self target w :
  units self <> Blank -> same_scale (units self) target = false ->
  exists l w', convert_units E self target w = Ok ((self, ReturnsNew l), w') /\
    l = {| path := Tmp (next_tmp w) ".tif"; year := year self;
           interpretation := interpretation self; units := target |} /\
    extends w w' /\ next_tmp w' = S (next_tmp w) /\
    shape (data (files w' (path l))) = shape (data (files w (path self))) /\
    noDataValue (files w' (path l)) = noDataValue (files w (path self)).
Proof.
  intros H Hs. unfold convert_units, same_scale in *.
  destruct (Units_eq_dec (units self) Blank); [contradiction|].
  destruct (Units_value (units self)) as [[cp ct] cn].
  destruct (Units_value target) as [[np nt] nn].
  rewrite Hs. run_m.
  destruct (Bool.eqb cp np); [|destruct (contains "metre" (wkt (files w (path self))))];
    run_m; eexists _, _; (split; [reflexivity|]); (split; [reflexivity|]);
    (split; [apply write_fresh_extends|]); (split; [reflexivity|]);
    simpl path; rewrite write_file_same; simpl;
    rewrite ?shape_calc_grid, ?shape_geodetic; split; reflexivity.
Qed.

(** Every call of [convert_units] returns, in one of three ways. *)
Lemma convert_units_outcome E self target w :
  exists o w', convert_units E self target w = Ok (o, w') /\
    extends w w' /\
    year (result_layer o) = year self /\
    interpretation (result_layer o) = interpretation self /\
    (allocated w (path self) -> allocated w' (path (result_layer o))) /\
    shape (data (files w' (path (result_layer o)))) = shape (data (files w (path self))) /\
    noDataValue (files w' (path (result_layer o))) = noDataValue (files w (path self)).
Proof.
  destruct (Units_eq_dec (units self) Blank) as [Hb|Hb].
  - exists (self, ReturnsSelf), w. rewrite convert_units_blank by exact Hb.
    repeat split; auto using extends_refl.
  - destruct (same_scale (units self) target) eqn:Hs.
    + exists (with_units self target, ReturnsSelf), w.
      rewrite convert_units_same_scale by assumption.
      repeat split; auto using extends_refl.
    + destruct (convert_units_converts E self target w Hb Hs)
        as (l & w' & -> & -> & Hext & Hn & Hsh & Hnd).
      eexists _, _. split; [reflexivity|]. unfold result_layer. simpl.
      repeat split; auto; try apply Hext.
      intros _. rewrite Hn. lia.
Qed.

Lemma fresh_artifact self w sfx r l :
  path l = Tmp (next_tmp w) sfx -> year l = year self ->
  new_artifact self w (self, ReturnsNew l)
    (write_file (Tmp (next_tmp w) sfx) r {| files := files w; next_tmp := S (next_tmp w) |}).
Proof.
  intros Hp Hy. exists l. split; [reflexivity|]. rewrite Hp.
  split; [apply fresh_not_allocated|]. split; [simpl; lia|].
  split; [exact Hy|apply write_fresh_extends].
Qed.

Lemma flatten_new self v keep w :
  exists o w', flatten self v keep w = Ok (o, w') /\ new_artifact self w o w'.
Proof.
  unfold flatten. run_m. eexists _, _. split; [reflexivity|].
  now apply fresh_artifact.
Qed.

Lemma reproject_new E self projection w :
  exists o w', reproject E self projection w = Ok (o, w') /\ new_artifact self w o w'.
Proof.
  unfold reproject. run_m. eexists _, _. split; [reflexivity|].
  now apply fresh_artifact.
Qed.

Lemma reclassify_new self interp new_interpretation nodata w :
  interpretation self = Some interp ->
  keys interp ++ keys new_interpretation <> [] ->
  exists o w', reclassify self new_interpretation nodata w = Ok (o, w') /\
               new_artifact self w o w'.
Proof.
  intros Hi Hk. unfold reclassify. run_m. rewrite Hi.
  unfold reclassify_data.
  destruct (keys interp ++ keys new_interpretation) as [|k ks] eqn:Ek; [congruence|].
  run_m. eexists _, _. split; [reflexivity|]. now apply fresh_artifact.
Qed.

Lemma convert_units_new E self target w :
  units self <> Blank -> same_scale (units self) target = false ->
  exists o w', convert_units E self target w = Ok (o, w') /\ new_artifact self w o w'.
Proof.
  intros Hb Hs.
  destruct (convert_units_converts E self target w Hb Hs)
    as (l & w' & Heq & -> & Hext & Hn & _).
  eexists _, _. split; [exact Heq|]. eexists. split; [reflexivity|]. simpl.
  repeat split; try apply Hext; rewrite ?Hn; lia.
Qed.

Lemma blend_layers_extends E u pairs : forall i w ops w1,
  blend_layers E u i pairs w = Ok (ops, w1) -> extends w w1.
Proof.
  induction pairs as [|[layer mode] rest IH]; intros i w ops w1; simpl.
  - unfold ret. intros [= <- <-]. apply extends_refl.
  - destruct (25 <? i)%nat; [discriminate|].
    destruct layer as [l| |]; try discriminate.
    unfold bind at 1.
    destruct (convert_units_outcome E l u w) as (o & w0 & -> & Hext & _).
    unfold bind at 1.
    destruct (blend_layers E u (S i) rest w0) as [[more w2]|] eqn:Hrest; [|discriminate].
    unfold ret. intros [= <- <-].
    eapply extends_trans; [exact Hext|]. eapply IH; eauto.
Qed.

Lemma blend_mask_pure operands : forall acc i w,
  exists calc, blend_mask acc i operands w = Ok (calc, w).
Proof.
  induction operands as [|[l m] rest IH]; intros acc i w; simpl.
  - eexists; reflexivity.
  - run_m. apply IH.
Qed.

(** Whenever [blend] returns, it returns a new Layer on a new artifact and
    the receiver is as it was. *)
Lemma blend_new E self layers w o w' :
  blend E self layers w = Ok (o, w') -> new_artifact self w o w'.
Proof.
  unfold blend. unfold bind at 1.
  destruct (blend_layers E (units self) 1 (zip_pairs layers) w) as [[ops w1]|] eqn:Hops;
    [|discriminate].
  apply blend_layers_extends in Hops.
  unfold bind at 1. unfold lift.
  destruct (blend_sum (CBand 0) 1 ops) as [sum|]; [|discriminate].
  run_m.
  destruct (blend_mask_pure ops
              (CMul sum (CNe (CBand 0) (CNum (noDataValue (files w1 (path self)))))) 1 w1)
    as (calc & ->).
  run_m. destruct ops as [|op ops]; [discriminate|].
  match goal with |- context [if ?c then _ else _] => destruct c end; [|discriminate].
  intros [= <- <-].
  eexists. split; [reflexivity|]. simpl.
  destruct Hops as (Hle & Hfiles).
  split; [lia|]. split; [lia|]. split; [reflexivity|].
  eapply extends_trans; [split; eassumption|]. apply write_fresh_extends.
Qed.

(** *** The blend expression, pixel by pixel *)

Lemma zip_pairs_blend_args ops :
  zip_pairs (blend_args ops) = map (fun lm => (VLayer (fst lm), VMode (snd lm))) ops.
Proof.
  unfold zip_pairs. induction ops as [|[l m] ops IH]; [reflexivity|].
  simpl. simpl in IH. unfold odds in IH.
  destruct (blend_args ops) as [|x xs] eqn:E.
  - destruct ops as [|[? ?] ?]; [reflexivity|discriminate].
  - simpl. f_equal. exact IH.
Qed.

Lemma nth_app_at {A} (pre : list A) x post d : nth (List.length pre) (pre ++ x :: post) d = x.
Proof. rewrite app_nth2, Nat.sub_diag by lia. reflexivity. Qed.

Lemma eval_blend_sum cms : forall acc i,
  exists e, blend_sum acc i (typed cms) = Ok e /\
    forall pre bs, List.length pre = i -> List.length bs = List.length cms ->
      eval_calc e (pre ++ bs) =
      signed_sum (eval_calc acc (pre ++ bs)) (combine (map snd cms) bs).
Proof.
  induction cms as [|[l m] cms IH]; intros acc i.
  - exists acc. split; [reflexivity|]. intros pre [|] _ Hb; [reflexivity|discriminate].
  - destruct (IH (match m with Add => CAdd acc (CBand i) | Subtract => CSub acc (CBand i) end)
                 (S i)) as (e & He & Hev).
    exists e. split; [destruct m; exact He|].
    intros pre [|b bs] Hpre Hbs; [discriminate|]. simpl in Hbs.
    specialize (Hev (pre ++ [b]) bs).
    rewrite length_app, Nat.add_1_r, <- app_assoc in Hev. simpl app in Hev.
    rewrite Hev by lia. simpl.
    pose proof (nth_app_at pre b bs 0%Q) as Hn. rewrite Hpre in Hn.
    destruct m; simpl eval_calc; rewrite Hn; reflexivity.
Qed.

Lemma eval_blend_mask w cms : forall acc i,
  exists e, blend_mask acc i (typed cms) w = Ok (e, w) /\
    forall pre bs, List.length pre = i -> List.length bs = List.length cms ->
      eval_calc e (pre ++ bs) =
      masked (eval_calc acc (pre ++ bs))
             (combine bs (map (fun lm => noDataValue (files w (path (fst lm)))) cms)).
Proof.
  induction cms as [|[l m] cms IH]; intros acc i.
  - exists acc. split; [reflexivity|]. intros pre [|] _ Hb; [reflexivity|discriminate].
  - simpl. run_m.
    destruct (IH (CMul acc (CNe (CBand i) (CNum (noDataValue (files w (path l)))))) (S i))
      as (e & He & Hev).
    exists e. split; [exact He|].
    intros pre [|b bs] Hpre Hbs; [discriminate|]. simpl in Hbs.
    specialize (Hev (pre ++ [b]) bs).
    rewrite length_app, Nat.add_1_r, <- app_assoc in Hev. simpl app in Hev.
    rewrite Hev by lia. simpl.
    pose proof (nth_app_at pre b bs 0%Q) as Hn. rewrite Hpre in Hn.
    rewrite Hn. reflexivity.
Qed.

Lemma masked_valid pixels : forall acc,
  all_valid pixels = true -> (masked acc pixels == acc)%Q.
Proof.
  induction pixels as [|[b nd] rest IH]; intros acc; simpl; [reflexivity|].
  intros H. apply andb_prop in H. destruct H as (Hb & Hrest).
  simpl in Hb. rewrite IH by exact Hrest. rewrite Hb. simpl. ring.
Qed.

Lemma masked_zero pixels : forall acc, (acc == 0)%Q -> (masked acc pixels == 0)%Q.
Proof.
  induction pixels as [|[b nd] rest IH]; intros acc H; simpl; [exact H|].
  apply IH. rewrite H. ring.
Qed.

Lemma masked_invalid pixels : forall acc,
  all_valid pixels = false -> (masked acc pixels == 0)%Q.
Proof.
  induction pixels as [|[b nd] rest IH]; intros acc; simpl; [discriminate|].
  intros H. apply andb_false_iff in H. destruct H as [Hb|Hrest].
  - simpl in Hb. rewrite Hb. simpl. apply masked_zero. ring.
  - apply IH, Hrest.
Qed.

Lemma nth_mapi_from {A B} (f : nat -> A -> B) l : forall i n d d',
  (n < List.length l)%nat -> nth n (mapi_from f i l) d' = f (i + n)%nat (nth n l d).
Proof.
  induction l as [|x l IH]; intros i n d d' Hn; simpl in Hn; [lia|].
  destruct n as [|n]; simpl.
  - now rewrite Nat.add_0_r.
  - rewrite (IH (S i) n d d') by lia. f_equal. lia.
Qed.

Lemma pixel_calc_grid propagate e nd a others r c :
  (r < List.length (data a))%nat -> (c < List.length (nth r (data a) []))%nat ->
  pixel (calc_grid propagate e nd (a :: others)) r c =
  if propagate && existsb (fun i => eqn (pixel (data i) r c) (noDataValue i)) (a :: others)
  then nd
  else eval_calc e (map (fun i => pixel (data i) r c) (a :: others)).
Proof.
  intros Hr Hc. unfold pixel at 1, calc_grid, mapi.
  rewrite (nth_mapi_from _ _ 0 r [] []) by exact Hr.
  rewrite (nth_mapi_from _ _ 0 c 0%Q 0%Q) by exact Hc.
  reflexivity.
Qed.

(** The operands of a well-formed call are all converted, in order; each
    converted raster keeps the shape and the nodata value of its source. *)
Lemma blend_layers_typed E u ops : forall i w,
  (i + List.length ops <= 26)%nat ->
  Forall (fun lm => allocated w (path (fst lm))) ops ->
  exists conv w1,
    blend_layers E u i (as_args ops) w = Ok (typed (combine conv (map snd ops)), w1) /\
    List.length conv = List.length ops /\
    extends w w1 /\
    Forall2 (fun c lm =>
               allocated w1 (path c) /\
               year c = year (fst lm) /\
               shape (data (files w1 (path c))) = shape (data (files w (path (fst lm)))) /\
               noDataValue (files w1 (path c)) = noDataValue (files w (path (fst lm))))
            conv ops.
Proof.
  induction ops as [|[l m] ops IH]; intros i w Hi Hall.
  - exists [], w. simpl. repeat split; auto using extends_refl.
  - simpl in Hi. simpl.
    destruct (Nat.ltb_spec 25 i); [lia|].
    inversion Hall as [|? ? Hl Hrest]; subst. simpl in Hl.
    destruct (convert_units_outcome E l u w) as (o & w0 & Ho & Hext & Hy & _ & Halloc & Hsh & Hnd).
    unfold bind at 1. rewrite Ho.
    destruct (IH (S i) w0 ltac:(lia)) as (conv & w1 & Hb & Hlen & Hext1 & Hconv).
    { eapply Forall_impl; [|exact Hrest]. intros lm. apply allocated_mono, Hext. }
    unfold bind at 1. rewrite Hb. unfold ret.
    exists (result_layer o :: conv), w1. simpl.
    split; [reflexivity|]. split; [lia|].
    split; [eapply extends_trans; eauto|].
    constructor.
    + specialize (Halloc Hl).
      split; [eapply allocated_mono; eauto|]. split; [exact Hy|].
      destruct Hext1 as (_ & Hf). rewrite (Hf _ Halloc). auto.
    + clear - Hconv Hext Hrest.
      induction Hconv as [|c lm conv ops Hc Hconv IHc]; [constructor|].
      inversion Hrest as [|? ? Hlm Hrest']; subst.
      constructor; [|apply IHc; exact Hrest'].
      destruct Hc as (Ha & Hy & Hs & Hn). destruct Hext as (_ & Hf).
      rewrite (Hf _ Hlm) in Hs, Hn. auto.
Qed.

Lemma map_fst_typed_combine (conv : list Layer) (ms : list BlendMode) :
  List.length conv = List.length ms ->
  map fst (typed (combine conv ms)) = conv.
Proof.
  revert ms. induction conv as [|c conv IH]; intros [|m ms] H; try discriminate; [reflexivity|].
  simpl. f_equal. apply IH. simpl in H. lia.
Qed.

Lemma map_snd_combine {A B} (xs : list A) (ys : list B) :
  List.length xs = List.length ys -> map snd (combine xs ys) = ys.
Proof.
  revert ys. induction xs as [|x xs IH]; intros [|y ys] H; try discriminate; [reflexivity|].
  simpl. f_equal. apply IH. simpl in H. lia.
Qed.

Lemma map_fst_combine {A B} (xs : list A) (ys : list B) :
  List.length xs = List.length ys -> map fst (combine xs ys) = xs.
Proof.
  revert ys. induction xs as [|x xs IH]; intros [|y ys] H; try discriminate; [reflexivity|].
  simpl. f_equal. apply IH. simpl in H. lia.
Qed.

Lemma existsb_nodata_all_valid (f : Raster -> Q) (rs : list Raster) :
  existsb (fun i => eqn (f i) (noDataValue i)) rs =
  negb (all_valid (combine (map f rs) (map noDataValue rs))).
Proof.
  induction rs as [|x rs IH]; [reflexivity|]. simpl. rewrite IH. unfold ne.
  rewrite negb_andb, negb_involutive. reflexivity.
Qed.

Lemma blend_expr_pixel propagate e_sum e a nd modes bs nds :
  eval_calc e_sum (a :: bs) = signed_sum a (combine modes bs) ->
  eval_calc e (a :: bs) =
    masked (eval_calc (CMul e_sum (CNe (CBand 0) (CNum nd))) (a :: bs)) (combine bs nds) ->
  ((if propagate && negb (all_valid ((a, nd) :: combine bs nds))
    then nd else eval_calc e (a :: bs))
   == blend_pixel propagate a nd modes bs nds)%Q.
Proof.
  intros Hsum He. rewrite He. simpl eval_calc. rewrite Hsum.
  unfold blend_pixel. simpl all_valid.
  destruct (ne a nd) eqn:Ha; simpl andb.
  - destruct (all_valid (combine bs nds)) eqn:Hv; simpl.
    + rewrite andb_false_r. rewrite masked_valid by exact Hv. simpl. ring.
    + rewrite andb_true_r. destruct propagate; [reflexivity|].
      apply masked_invalid, Hv.
  - rewrite andb_true_r. destruct propagate; [reflexivity|].
    apply masked_zero. simpl. ring.
Qed.

(** A well-formed call of [blend] returns, and the raster it writes holds
    [blend_pixel] at every pixel of the base grid. *)
Lemma blend_typed E self ops w :
  ops <> [] -> (List.length ops <= 25)%nat ->
  allocated w (path self) ->
  Forall (fun lm => allocated w (path (fst lm))) ops ->
  Forall (fun lm => shape (data (files w (path (fst lm)))) =
                    shape (data (files w (path self)))) ops ->
  exists conv w1 out w',
    blend_layers E (units self) 1 (zip_pairs (blend_args ops)) w
      = Ok (typed (combine conv (map snd ops)), w1) /\
    List.length conv = List.length ops /\
    blend E self (blend_args ops) w = Ok ((self, ReturnsNew out), w') /\
    extends w w1 /\ extends w1 w' /\
    Forall (fun c => allocated w1 (path c)) conv /\
    noDataValue (files w' (path out)) = noDataValue (files w (path self)) /\
    forall r c,
      (r < List.length (data (files w (path self))))%nat ->
      (c < List.length (nth r (data (files w (path self))) []))%nat ->
      (pixel (data (files w' (path out))) r c ==
       blend_pixel (calc_propagates_nodata E)
         (pixel (data (files w (path self))) r c)
         (noDataValue (files w (path self)))
         (map snd ops)
         (map (fun cl => pixel (data (files w1 (path cl))) r c) conv)
         (map (fun cl => noDataValue (files w1 (path cl))) conv))%Q.
Proof.
  intros Hne Hlen Hself Halloc Hshape.
  rewrite zip_pairs_blend_args. fold (as_args ops).
  destruct (blend_layers_typed E (units self) ops 1 w ltac:(lia) Halloc)
    as (conv & w1 & Hb & Hcl & Hext & Hconv).
  assert (Hlen2 : List.length conv = List.length (map snd ops)) by (rewrite length_map; exact Hcl).
  set (cms := combine conv (map snd ops)) in *.
  assert (Hcms : List.length cms = List.length ops).
  { unfold cms. rewrite length_combine, length_map. lia. }
  destruct (eval_blend_sum cms (CBand 0) 1) as (e_sum & Hsum & Hsum_ev).
  assert (Hbase : files w1 (path self) = files w (path self)) by (apply Hext, Hself).
  destruct (eval_blend_mask w1 cms
              (CMul e_sum (CNe (CBand 0) (CNum (noDataValue (files w (path self)))))) 1)
    as (e & He & He_ev).
  exists conv, w1.
  unfold blend. rewrite zip_pairs_blend_args. fold (as_args ops).
  unfold bind at 1. rewrite Hb.
  unfold bind at 1. rewrite Hsum. unfold lift.
  unfold bind at 1, nodata_value at 1. run_m. rewrite Hbase.
  rewrite He.
  assert (Hpaths : map (fun o : Layer * PyVal => path (fst o)) (typed cms) = map path conv).
  { rewrite <- (map_map fst path). unfold cms. now rewrite map_fst_typed_combine. }
  rewrite Hpaths.
  assert (Hnonempty : typed cms <> []).
  { intros Habs. apply (f_equal (@List.length _)) in Habs. unfold typed in Habs.
    rewrite length_map, Hcms in Habs. destruct ops; [congruence|discriminate]. }
  destruct (typed cms) as [|op0 rest0] eqn:Etyped; [congruence|]. clear Hnonempty.
  simpl files. rewrite Hbase.
  assert (Hshapes : forallb (fun r => same_shape (data r) (data (files w (path self))))
                      (map (files w1) (map path conv)) = true).
  { apply forallb_forall. intros r Hr. apply in_map_iff in Hr.
    destruct Hr as (p & <- & Hp). apply in_map_iff in Hp. destruct Hp as (cl & <- & Hin).
    clear - Hconv Hshape Hin. unfold same_shape.
    induction Hconv as [|c0 lm conv ops Hc Hconv IH]; [destruct Hin|].
    inversion Hshape as [|? ? Hs Hshape']; subst.
    destruct Hin as [->|Hin]; [|apply IH; assumption].
    destruct Hc as (_ & _ & Hs' & _). rewrite Hs', Hs.
    match goal with |- context [list_eq_dec ?a ?b ?c] => destruct (list_eq_dec a b c) end;
      congruence. }
  rewrite Hshapes.
  eexists _, _. split; [rewrite <- Etyped; reflexivity|]. split; [exact Hcl|].
  split; [reflexivity|].
  split; [exact Hext|]. split; [apply write_fresh_extends|].
  split.
  { clear - Hconv. induction Hconv as [|? ? ? ? Hc]; constructor; [apply Hc|assumption]. }
  simpl path. rewrite write_file_same. simpl noDataValue. split; [reflexivity|].
  intros r c Hr Hc. simpl data.
  rewrite pixel_calc_grid by assumption.
  rewrite existsb_nodata_all_valid. simpl map. rewrite !map_map.
  specialize (Hsum_ev [pixel (data (files w (path self))) r c]
                (map (fun cl => pixel (data (files w1 (path cl))) r c) conv) eq_refl).
  specialize (He_ev [pixel (data (files w (path self))) r c]
                (map (fun cl => pixel (data (files w1 (path cl))) r c) conv) eq_refl).
  rewrite length_map in Hsum_ev, He_ev.
  specialize (Hsum_ev ltac:(lia)). specialize (He_ev ltac:(lia)).
  simpl app in Hsum_ev, He_ev. simpl eval_calc in Hsum_ev at 2.
  assert (Hmodes : map snd cms = map snd ops).
  { unfold cms. apply map_snd_combine. exact Hlen2. }
  rewrite Hmodes in Hsum_ev.
  assert (Hnds : map (fun lm : Layer * BlendMode => noDataValue (files w1 (path (fst lm)))) cms
                 = map (fun cl => noDataValue (files w1 (path cl))) conv).
  { rewrite <- (map_map fst (fun cl => noDataValue (files w1 (path cl)))).
    unfold cms. now rewrite map_fst_combine. }
  rewrite Hnds in He_ev.
  apply (blend_expr_pixel _ e_sum); assumption.
Qed.

Lemma zip_pairs_trailing {A} (xs : list A) (extra : A) :
  Nat.even (List.length xs) = true -> zip_pairs (xs ++ [extra]) = zip_pairs xs.
Proof.
  unfold zip_pairs.
  assert (G : forall n (ys : list A), (List.length ys <= n)%nat ->
                Nat.even (List.length ys) = true ->
                evens (ys ++ [extra]) = evens ys ++ [extra] /\
                odds (ys ++ [extra]) = odds ys).
  { induction n as [|n IH]; intros ys Hn He.
    - destruct ys; [split; reflexivity|simpl in Hn; lia].
    - destruct ys as [|a [|b ys]]; [split; reflexivity|discriminate|].
      simpl in Hn. destruct (IH ys ltac:(lia) He) as (He1 & Ho1).
      split.
      + change (a :: evens (ys ++ [extra]) = a :: evens ys ++ [extra]). now rewrite He1.
      + change (b :: odds (ys ++ [extra]) = b :: odds ys).
        now rewrite Ho1. }
  intros He. destruct (G _ xs (Nat.le_refl _) He) as (-> & ->).
  assert (L : forall ys : list A, Nat.even (List.length ys) = true ->
                List.length (evens ys) = List.length (odds ys)).
  { intros ys. remember (List.length ys) as n eqn:Hn. revert ys Hn.
    induction n as [n IH] using lt_wf_ind. intros ys Hn Hev.
    destruct ys as [|a [|b ys]]; [reflexivity|subst; discriminate|].
    change (S (List.length (evens ys)) = S (List.length (odds ys))).
    f_equal. apply (IH (List.length ys)); subst; simpl; auto; lia. }
  specialize (L xs He). revert L. generalize (evens xs) (odds xs).
  induction l as [|a l IHl]; intros [|b l'] Hl; try discriminate; [reflexivity|].
  simpl. f_equal. apply IHl. simpl in Hl. lia.
Qed.

(** *** The claims about Layer *)




(** C8 (counterexample). A call with three arguments, the last an unpaired
    layer, does not fail: it returns a blended Layer. *)
Lemma blend_unpaired_argument_accepted :
  exists out w',
    blend (toy_engine false) base_layer
          [VLayer gain_layer; VMode Add; VLayer loss_layer] blend_world
      = Ok ((base_layer, ReturnsNew out), w').
Proof. eexists _, _. vm_compute. reflexivity. Qed.

(** C8 (amended). [blend] pairs its arguments by position and silently drops
    an unpaired trailing argument: a call with an odd number of arguments
    behaves exactly as the call without the last one. *)
Theorem blend_ignores_unpaired_trailing_argument (E : Engine) (self : Layer)
    (layers : list PyVal) (extra : PyVal) (w : World) :
  Nat.even (List.length layers) = true ->
  blend E self (layers ++ [extra]) w = blend E self layers w.
Proof.
  intros He. unfold blend. rewrite (zip_pairs_trailing layers extra He). reflexivity.
Qed.

Lemma blend_ignores_unpaired_trailing_argument_witness :
  blend (toy_engine false) base_layer
        ([VLayer gain_layer; VMode Add] ++ [VLayer loss_layer]) blend_world
  = blend (toy_engine false) base_layer [VLayer gain_layer; VMode Add] blend_world.
Proof.
  apply (blend_ignores_unpaired_trailing_argument (toy_engine false) base_layer
           [VLayer gain_layer; VMode Add] (VLayer loss_layer) blend_world).
  reflexivity.
Defined.

(** C4 (counterexample). [convert_units] hands back the receiver itself,
    with no new artifact, when there is nothing to convert (tC/ha to tC/ha);
    and converting a tC layer to Blank returns the receiver with its units
    overwritten. *)
Lemma convert_units_returns_receiver :
  convert_units (toy_engine false) base_layer TcPerHa blend_world
    = Ok ((base_layer, ReturnsSelf), blend_world) /\
  convert_units (toy_engine false) (with_units base_layer Tc) Blank blend_world
    = Ok ((with_units base_layer Blank, ReturnsSelf), blend_world).
Proof. split; reflexivity. Qed.

(** C4 (amended). [flatten], [reproject], [reclassify] and [blend], and
    [convert_units] when there is something to convert, return a new Layer
    on a newly allocated raster path; the receiver's path, year,
    interpretation and units are as before and no raster file in use is
    rewritten.  [convert_units] on a Blank layer, or between units of equal
    per-hectare flag and scale, returns the receiver itself and writes
    nothing. *)
Theorem transformations_return_new_layers (E : Engine) (self : Layer) (w : World) :
  (forall v keep, exists o w', flatten self v keep w = Ok (o, w') /\ new_artifact self w o w') /\
  (forall projection,
     exists o w', reproject E self projection w = Ok (o, w') /\ new_artifact self w o w') /\
  (forall interp new_interpretation nodata,
     interpretation self = Some interp ->
     keys interp ++ keys new_interpretation <> [] ->
     exists o w', reclassify self new_interpretation nodata w = Ok (o, w') /\
                  new_artifact self w o w') /\
  (forall ops,
     ops <> [] -> (List.length ops <= 25)%nat ->
     allocated w (path self) ->
     Forall (fun lm => allocated w (path (fst lm))) ops ->
     Forall (fun lm => shape (data (files w (path (fst lm)))) =
                       shape (data (files w (path self)))) ops ->
     exists o w', blend E self (blend_args ops) w = Ok (o, w') /\ new_artifact self w o w') /\
  (forall layers o w', blend E self layers w = Ok (o, w') -> new_artifact self w o w') /\
  (forall target,
     units self <> Blank -> same_scale (units self) target = false ->
     exists o w', convert_units E self target w = Ok (o, w') /\ new_artifact self w o w') /\
  (forall target,
     units self = Blank \/ same_scale (units self) target = true ->
     exists self', convert_units E self target w = Ok ((self', ReturnsSelf), w) /\
                   path self' = path self /\ year self' = year self /\
                   interpretation self' = interpretation self).
Proof.
  split; [intros; apply flatten_new|].
  split; [intros; apply reproject_new|].
  split; [intros; eapply reclassify_new; eauto|].
  split.
  { intros ops Hne Hlen Hself Halloc Hshape.
    destruct (blend_typed E self ops w Hne Hlen Hself Halloc Hshape)
      as (conv & w1 & out & w' & _ & _ & Hb & _).
    eexists _, _. split; [exact Hb|]. eapply blend_new, Hb. }
  split; [intros; eapply blend_new; eauto|].
  split; [intros; apply convert_units_new; assumption|].
  intros target Hcase.
  destruct (Units_eq_dec (units self) Blank) as [Hb|Hb].
  - exists self. rewrite convert_units_blank by exact Hb. auto.
  - destruct Hcase as [Hcase|Hcase]; [contradiction|].
    exists (with_units self target). rewrite convert_units_same_scale by assumption. auto.
Qed.

Lemma transformations_return_new_layers_witness :
  (exists o w', reclassify classes_layer [(1, "A"%string); (2, "B"%string)] 0%Q classes_world
                  = Ok (o, w') /\ new_artifact classes_layer classes_world o w') /\
  (exists o w', blend (toy_engine false) base_layer
                      (blend_args [(gain_layer, Add); (loss_layer, Subtract)]) blend_world
                  = Ok (o, w') /\ new_artifact base_layer blend_world o w') /\
  (exists o w', convert_units (toy_engine false) base_layer Ktc blend_world = Ok (o, w') /\
                new_artifact base_layer blend_world o w') /\
  (exists self', convert_units (toy_engine false) base_layer TcPerHa blend_world
                   = Ok ((self', ReturnsSelf), blend_world) /\
                 path self' = path base_layer /\ year self' = year base_layer /\
                 interpretation self' = interpretation base_layer).
Proof.
  destruct (transformations_return_new_layers (toy_engine false) classes_layer classes_world)
    as (_ & _ & Hreclassify & _).
  destruct (transformations_return_new_layers (toy_engine false) base_layer blend_world)
    as (_ & _ & _ & Hblend & _ & Hconvert & Hself).
  split; [|split; [|split]].
  - apply (Hreclassify [(1, "A"%string); (3, "B"%string)]); [reflexivity|discriminate].
  - apply Hblend.
    + discriminate.
    + simpl. lia.
    + exact I.
    + repeat constructor.
    + repeat constructor.
  - apply Hconvert; [discriminate|reflexivity].
  - apply Hself. right. reflexivity.
Defined.






End LayerFacts.

(** ** Facts about Indicator *)

Module IndicatorFacts.
Import IndicatorM.

(** C5. [_find_layers] never raises the I/O error.  Whatever the pattern
    matches, the constructor call [LayerCollection(palette=...)] raises
    TypeError, because the signature has no [palette]; and on a collection
    that was constructed, a pattern matching no file gives back the empty
    collection, because [not layers] is false for every LayerCollection. *)
Theorem find_layers_never_reports_not_found (B : Builtins) (self : Indicator) :
  _find_layers B self = Raise TypeError /\
  (forall E bounding_box w,
     render_map_frames E B self bounding_box w = Raise TypeError) /\
  (forall layers,
     glob B (_layer_pattern self) = [] -> find_in B self layers = Ok layers).
Proof.
  split; [reflexivity|]. split.
  - intros E bounding_box w. unfold render_map_frames.
    destruct (simulation_years self) as [start_year end_year]. reflexivity.
  - intros layers Hglob. unfold find_in. rewrite Hglob. reflexivity.
Qed.


End IndicatorFacts.

(** ** Facts about LayerCollection *)

Module LayerCollectionFacts.
Import LayerM LayerCollectionM LayerSpec CollectionSpec LayerFacts.

Lemma set_order_In E l y : set_order_ok E -> (In y (set_order E l) <-> In y l).
Proof.
  intros H. split; intros Hin.
  - apply (nodup_In Z.eq_dec). eapply Permutation_in; [apply H|exact Hin].
  - eapply Permutation_in; [symmetry; apply H|]. apply nodup_In, Hin.
Qed.

Lemma set_order_NoDup E l : set_order_ok E -> NoDup (set_order E l).
Proof.
  intros H. eapply Permutation_NoDup; [symmetry; apply H|]. apply NoDup_nodup.
Qed.

(** [mapM] under a world invariant. *)
Lemma mapM_spec {A B} (f : A -> M B) (Q : A -> B -> Prop) (I : World -> Prop) xs :
  (forall x w, In x xs -> I w ->
     exists y w', f x w = Ok (y, w') /\ extends w w' /\ I w' /\ Q x y) ->
  forall w, I w ->
    exists ys w', mapM f xs w = Ok (ys, w') /\ extends w w' /\ I w' /\ Forall2 Q xs ys.
Proof.
  induction xs as [|x xs IH]; intros Hf w Hw.
  - exists [], w. simpl. repeat split; auto using extends_refl.
  - destruct (Hf x w (or_introl eq_refl) Hw) as (y & w1 & Hy & He1 & Hw1 & Hq).
    destruct (IH (fun x' w' Hin => Hf x' w' (or_intror Hin)) w1 Hw1)
      as (ys & w2 & Hys & He2 & Hw2 & Hqs).
    exists (y :: ys), w2. simpl. unfold bind at 1. rewrite Hy.
    unfold bind at 1. rewrite Hys. unfold ret.
    split; [reflexivity|]. split; [eapply extends_trans; eauto|].
    split; [exact Hw2|]. constructor; assumption.
Qed.

(** *** Grouping by year *)

Lemma add_to_year_keys l groups y :
  In y (map fst (add_to_year l groups)) <-> y = year l \/ In y (map fst groups).
Proof.
  induction groups as [|[y0 ls] groups IH]; simpl.
  - intuition.
  - destruct (Z.eqb_spec y0 (year l)); simpl; [intuition congruence|].
    rewrite IH. intuition.
Qed.

Lemma add_to_year_NoDup l groups :
  NoDup (map fst groups) -> NoDup (map fst (add_to_year l groups)).
Proof.
  induction groups as [|[y0 ls] groups IH]; simpl; intros H.
  - constructor; [intros []|constructor].
  - inversion H as [|? ? Hnotin Hrest]; subst.
    destruct (Z.eqb_spec y0 (year l)); simpl; [constructor; assumption|].
    constructor; [|apply IH, Hrest].
    rewrite add_to_year_keys. intros [Heq|Hin]; [congruence|contradiction].
Qed.

Lemma add_to_year_good l groups :
  Forall good_group groups -> Forall good_group (add_to_year l groups).
Proof.
  induction groups as [|[y0 ls] groups IH]; simpl; intros H.
  - constructor; [|constructor]. split; simpl; [discriminate|]. constructor; auto.
  - inversion H as [|? ? (Hne & Hall) Hrest]; subst. simpl in *.
    destruct (Z.eqb_spec y0 (year l)).
    + constructor; [|exact Hrest]. split; simpl.
      * destruct ls; discriminate.
      * apply Forall_app. split; [exact Hall|]. constructor; auto.
    + constructor; [split; assumption|]. apply IH, Hrest.
Qed.

Lemma group_by_year_spec layers :
  NoDup (map fst (group_by_year layers)) /\
  Forall good_group (group_by_year layers) /\
  forall y, In y (map fst (group_by_year layers)) <-> In y (map year layers).
Proof.
  unfold group_by_year.
  assert (G : forall ls groups,
            NoDup (map fst groups) -> Forall good_group groups ->
            let r := fold_left (fun groups l => add_to_year l groups) ls groups in
            NoDup (map fst r) /\ Forall good_group r /\
            forall y, In y (map fst r) <-> In y (map year ls) \/ In y (map fst groups)).
  { induction ls as [|l ls IH]; intros groups Hnd Hgood; simpl.
    - repeat split; auto. tauto.
    - destruct (IH (add_to_year l groups) (add_to_year_NoDup _ _ Hnd)
                   (add_to_year_good _ _ Hgood)) as (H1 & H2 & H3).
      repeat split; auto; rewrite H3, add_to_year_keys; intuition. }
  destruct (G layers [] (NoDup_nil _) (Forall_nil _)) as (H1 & H2 & H3).
  repeat split; auto; rewrite H3; simpl; intuition.
Qed.

(** *** Merging a year's fragments *)

Lemma mapM_gdal_Open paths w :
  mapM (fun l : Layer => gdal_Open (path l)) paths w
  = Ok (map (fun l => files w (path l)) paths, w).
Proof.
  induction paths as [|l ls IH]; [reflexivity|].
  simpl. unfold bind at 1, gdal_Open at 1. unfold bind at 1. rewrite IH. reflexivity.
Qed.

(** A non-empty group merges without raising, into one Layer of the group's
    year; two or more fragments are mosaicked into a new raster. *)
Lemma _merge_layers_ok E layers w :
  layers <> [] ->
  exists merged w',
    _merge_layers E layers w = Ok (merged, w') /\ extends w w' /\
    year merged = year (hd merged layers) /\
    ((2 <= List.length layers)%nat ->
     path merged = Tmp (next_tmp w) ".tif" /\
     files w' (path merged) = Warp E plain_warp (map (fun l => files w (path l)) layers)).
Proof.
  destruct layers as [|l1 [|l2 rest]]; [congruence|intros _..].
  - exists l1, w. simpl. split; [reflexivity|]. split; [apply extends_refl|].
    split; [reflexivity|]. intros; lia.
  - unfold _merge_layers, bind, mktmp, put_file, ret. cbv beta iota.
    rewrite (mapM_gdal_Open (l1 :: l2 :: rest)). simpl.
    eexists _, _. split; [reflexivity|]. split; [apply write_fresh_extends|].
    split; [reflexivity|]. intros _. simpl path. split; [reflexivity|].
    apply write_file_same.
Qed.

(** *** blend on a collection with more than one layer for a year *)

Lemma zip_pairs_flat {A B} (f g : A -> B) (l : list A) :
  zip_pairs (flat_map (fun x => [f x; g x]) l) = map (fun x => (f x, g x)) l.
Proof.
  unfold zip_pairs. induction l as [|x l IH]; [reflexivity|].
  simpl. simpl in IH. unfold odds in IH.
  destruct (flat_map (fun x => [f x; g x]) l) as [|y ys] eqn:El.
  - destruct l; [reflexivity|discriminate].
  - simpl. f_equal. exact IH.
Qed.

Lemma blend_year_duplicate E self bcs y w :
  (1 < List.length (of_year y (_layers self)))%nat ->
  blend_year E self bcs y w = Raise RuntimeError.
Proof.
  intros H. unfold blend_year. apply Nat.ltb_lt in H. rewrite H. reflexivity.
Qed.

(** Once the loop reaches a year with two local layers it raises; it cannot
    get past that year. *)
Lemma blend_years_never_returns E self bcs y years :
  In y years -> (1 < List.length (of_year y (_layers self)))%nat ->
  forall blended w, exists e, blend_years E self bcs years blended w = Raise e.
Proof.
  intros Hin Hdup. induction years as [|y0 years IH]; [destruct Hin|].
  intros blended w. simpl. unfold bind at 1.
  destruct (blend_year E self bcs y0 w) as [[l w']|e] eqn:Hy; [|eauto].
  destruct Hin as [->|Hin].
  - rewrite blend_year_duplicate in Hy by exact Hdup. discriminate.
  - apply IH, Hin.
Qed.

Lemma uniform_extends w w' dims ls : extends w w' -> uniform w dims ls -> uniform w' dims ls.
Proof.
  intros Hext. apply Forall_impl. intros l (Ha & Hs).
  split; [eapply allocated_mono; eauto|]. destruct Hext as (_ & Hf). now rewrite Hf.
Qed.

Lemma all_layers_of_typed ops :
  all_layers_of (zip_pairs (collection_args ops)) = Ok (typed_collections ops).
Proof.
  unfold collection_args. rewrite zip_pairs_flat.
  induction ops as [|[c m] ops IH]; [reflexivity|]. simpl. rewrite IH. reflexivity.
Qed.

Lemma other_layers_typed y ops :
  flat_map (fun cm : list Layer * PyVal =>
              flat_map (fun layer => [VLayer layer; snd cm]) (of_year y (fst cm)))
           (typed_collections ops)
  = blend_args (operands_of_year y ops).
Proof.
  unfold blend_args, operands_of_year, typed_collections.
  induction ops as [|[c m] ops IH]; [reflexivity|].
  simpl. rewrite IH, flat_map_app. f_equal.
  induction (of_year y (_layers c)) as [|l ls IHl]; [reflexivity|].
  simpl. now rewrite IHl.
Qed.

Lemma flatten_eq self v keep w :
  flatten self v keep w =
  Ok ((self, ReturnsNew {| path := Tmp (next_tmp w) ".tif"; year := year self;
                           interpretation := None;
                           units := if keep then units self else Blank |}),
      write_file (Tmp (next_tmp w) ".tif")
        {| data := map_grid (fun p => if ne p (noDataValue (files w (path self)))
                                      then v else p)
                            (data (files w (path self)));
           noDataValue := noDataValue (files w (path self));
           wkt := wkt (files w (path self));
           geoTransform := geoTransform (files w (path self)) |}
        {| files := files w; next_tmp := S (next_tmp w) |}).
Proof. reflexivity. Qed.

Lemma of_year_In y ls l : In l (of_year y ls) -> In l ls /\ year l = y.
Proof.
  unfold of_year. rewrite filter_In. intros (H & Hy). split; [exact H|]. lia.
Qed.

Lemma operands_of_year_uniform w dims y ops :
  Forall (fun cm => uniform w dims (_layers (fst cm))) ops ->
  Forall (fun lm => allocated w (path (fst lm)) /\
                    shape (data (files w (path (fst lm)))) = dims)
         (operands_of_year y ops).
Proof.
  intros H. apply Forall_forall. intros [l m] Hin.
  unfold operands_of_year in Hin. apply in_flat_map in Hin.
  destruct Hin as ([c m'] & Hc & Hl). apply in_map_iff in Hl.
  destruct Hl as (l' & [= -> ->] & Hl'). apply of_year_In in Hl'.
  rewrite Forall_forall in H. specialize (H _ Hc). simpl in H.
  unfold uniform in H. rewrite Forall_forall in H. apply H, Hl'.
Qed.

(** A year with at most one local layer is blended without raising. *)
Lemma blend_year_ok E self ops dims y w :
  _layers self <> [] ->
  (List.length (of_year y (_layers self)) <= 1)%nat ->
  uniform w dims (_layers self) ->
  Forall (fun cm => uniform w dims (_layers (fst cm))) ops ->
  (List.length (operands_of_year y ops) <= 25)%nat ->
  exists l w', blend_year E self (typed_collections ops) y w = Ok (l, w') /\ extends w w'.
Proof.
  intros Hne Hone Hself Hops Hcount. unfold blend_year.
  destruct (Nat.ltb_spec 1 (List.length (of_year y (_layers self)))); [lia|].
  rewrite other_layers_typed.
  (* the local layer or its placeholder *)
  assert (Hlocal : exists local w0,
            (match of_year y (_layers self) with
             | l :: _ => ret l
             | [] =>
                 template <- match _layers self with
                             | l :: _ => ret l
                             | [] => match flat_map fst (typed_collections ops) with
                                     | l :: _ => ret l
                                     | [] => raise StopIteration
                                     end
                             end ;;
                 o <- flatten template 0%Q true ;;
                 ret {| path := path (result_layer o); year := y;
                        interpretation := interpretation (result_layer o);
                        units := units (result_layer o) |}
             end) w = Ok (local, w0) /\
            extends w w0 /\ allocated w0 (path local) /\
            shape (data (files w0 (path local))) = dims).
  { destruct (of_year y (_layers self)) as [|l ls] eqn:El.
    - destruct (_layers self) as [|t ts] eqn:Et; [congruence|].
      unfold bind at 1, ret at 1. unfold bind at 1. rewrite flatten_eq.
      unfold ret, result_layer. simpl.
      eexists _, _. split; [reflexivity|]. split; [apply write_fresh_extends|].
      split; [simpl; lia|].
      simpl path. rewrite write_file_same. simpl data. rewrite shape_map_grid.
      apply Forall_inv in Hself. apply Hself.
    - assert (Hin : In l (_layers self)).
      { apply (of_year_In y). rewrite El. now left. }
      unfold uniform in Hself. rewrite Forall_forall in Hself.
      destruct (Hself l Hin) as (Ha & Hs).
      exists l, w. repeat split; auto using extends_refl. }
  destruct Hlocal as (local & w0 & Hl & Hext0 & Halloc & Hshape).
  unfold bind at 1. rewrite Hl.
  pose proof (operands_of_year_uniform w0 dims y ops) as Hu.
  destruct (operands_of_year y ops) as [|[l1 m1] rest] eqn:Eops.
  - simpl. exists local, w0. split; [reflexivity|exact Hext0].
  - assert (Hu' : Forall (fun lm : Layer * BlendMode =>
                            allocated w0 (path (fst lm)) /\
                            shape (data (files w0 (path (fst lm)))) = dims)
                         ((l1, m1) :: rest)).
    { apply Hu. eapply Forall_impl; [|exact Hops].
      intros cm. apply uniform_extends, Hext0. }
    destruct (blend_typed E local ((l1, m1) :: rest) w0) as
      (conv & w1 & out & w' & _ & _ & Hb & He1 & He2 & _); auto.
    + discriminate.
    + eapply Forall_impl; [|exact Hu']. intros lm (Ha & _). exact Ha.
    + eapply Forall_impl; [|exact Hu']. intros lm (_ & Hs). congruence.
    + change (blend_args ((l1, m1) :: rest))
        with (VLayer l1 :: VMode m1 :: blend_args rest) in *.
      cbv iota. unfold bind at 1. rewrite Hb. unfold ret.
      eexists _, _. split; [reflexivity|].
      eapply extends_trans; [exact Hext0|]. eapply extends_trans; eauto.
Qed.

(** With well-formed arguments the loop raises exactly the RuntimeError of
    the year holding two local layers. *)
Lemma blend_years_runtime_error E self ops dims y years :
  In y years -> (1 < List.length (of_year y (_layers self)))%nat ->
  (forall y', (List.length (operands_of_year y' ops) <= 25)%nat) ->
  forall blended w,
    uniform w dims (_layers self) ->
    Forall (fun cm => uniform w dims (_layers (fst cm))) ops ->
    blend_years E self (typed_collections ops) years blended w = Raise RuntimeError.
Proof.
  intros Hin Hdup Hcount.
  assert (Hne : _layers self <> []).
  { intros Habs. rewrite Habs in Hdup. simpl in Hdup. lia. }
  induction years as [|y0 years IH]; [destruct Hin|].
  intros blended w Hself Hops. simpl. unfold bind at 1.
  destruct (Nat.lt_ge_cases 1 (List.length (of_year y0 (_layers self)))) as [Hd|Hd].
  - rewrite blend_year_duplicate by exact Hd. reflexivity.
  - destruct (blend_year_ok E self ops dims y0 w Hne Hd Hself Hops (Hcount y0))
      as (l & w' & -> & Hext).
    destruct Hin as [->|Hin]; [lia|].
    apply IH; [exact Hin| |].
    + eapply uniform_extends; eauto.
    + eapply Forall_impl; [|exact Hops]. intros cm. apply uniform_extends, Hext.
Qed.

Lemma operands_of_year_length y ops :
  (List.length (operands_of_year y ops)
   <= List.length (flat_map (fun cm => _layers (fst cm)) ops))%nat.
Proof.
  unfold operands_of_year. induction ops as [|[c m] ops IH]; [simpl; lia|].
  simpl. rewrite !length_app, length_map.
  pose proof (filter_length_le (fun layer => year layer =? y) (_layers c)).
  unfold of_year in *. lia.
Qed.

Lemma toy_set_order_ok propagate : set_order_ok (toy_engine propagate).
Proof. intros l. apply Permutation_refl. Qed.

(** C7. On a collection holding two or more layers for some year, [blend]
    never returns a collection: it raises, and with well-formed arguments
    (collection/mode pairs over rasters of one shape, at most 25 operand
    layers per year) what it raises is the RuntimeError "more than one layer
    per year".  The merge step of [render] takes the same-year fragments
    without raising and mosaics them into one new Layer for that year. *)
Theorem blend_refuses_duplicate_years_merge_accepts
    (E : Engine) (self : LayerCollection) (y : Z) :
  set_order_ok E ->
  (1 < List.length (of_year y (_layers self)))%nat ->
  (forall collections w, exists e, blend E self collections w = Raise e) /\
  (forall ops dims w,
     uniform w dims (_layers self) ->
     Forall (fun cm => uniform w dims (_layers (fst cm))) ops ->
     (forall y', (List.length (operands_of_year y' ops) <= 25)%nat) ->
     blend E self (collection_args ops) w = Raise RuntimeError) /\
  (forall w,
     exists merged w',
       _merge_layers E (of_year y (_layers self)) w = Ok (merged, w') /\
       year merged = y /\
       path merged = Tmp (next_tmp w) ".tif" /\
       files w' (path merged)
         = Warp E plain_warp (map (fun l => files w (path l)) (of_year y (_layers self)))).
Proof.
  intros Hset Hdup.
  assert (Hy : forall more, In y (set_order E (map year (_layers self) ++ more))).
  { intros more. apply set_order_In; [exact Hset|]. apply in_or_app. left.
    destruct (of_year y (_layers self)) as [|l ls] eqn:El; [simpl in Hdup; lia|].
    assert (Hl : In l (of_year y (_layers self))) by (rewrite El; now left).
    apply of_year_In in Hl. destruct Hl as (Hl & <-). now apply in_map. }
  split; [|split].
  - intros collections w. unfold blend. unfold bind at 1, lift.
    destruct (all_layers_of (zip_pairs collections)) as [bcs|e]; [|eauto].
    unfold bind at 1.
    match goal with |- context [blend_years E self bcs ?ys [] w] =>
      destruct (blend_years_never_returns E self bcs y ys (Hy _) Hdup [] w) as (e & ->)
    end.
    eauto.
  - intros ops dims w Hself Hops Hcount. unfold blend.
    rewrite all_layers_of_typed. unfold bind at 1, lift. unfold bind at 1.
    rewrite (blend_years_runtime_error E self ops dims y); auto.
  - intros w.
    destruct (_merge_layers_ok E (of_year y (_layers self)) w) as (m & w' & Hm & _ & Hyear & Hnew).
    { intros Habs. rewrite Habs in Hdup. simpl in Hdup. lia. }
    exists m, w'. split; [exact Hm|].
    destruct (Hnew ltac:(lia)) as (Hp & Hf). repeat split; auto.
    rewrite Hyear.
    destruct (of_year y (_layers self)) as [|l ls] eqn:El; [simpl in Hdup; lia|].
    assert (Hl : In l (of_year y (_layers self))) by (rewrite El; now left).
    apply of_year_In in Hl. apply Hl.
Qed.

Lemma blend_refuses_duplicate_years_merge_accepts_witness :
  blend (toy_engine false) fragmented_collection
        (collection_args [(fragmented_collection, Add)]) blend_world
    = Raise RuntimeError /\
  exists merged w',
    _merge_layers (toy_engine false) (of_year 2005 (_layers fragmented_collection)) blend_world
      = Ok (merged, w') /\
    year merged = 2005.
Proof.
  destruct (blend_refuses_duplicate_years_merge_accepts
              (toy_engine false) fragmented_collection 2005
              (toy_set_order_ok false) ltac:(simpl; lia)) as (_ & Hblend & Hmerge).
  split.
  - apply (Hblend [(fragmented_collection, Add)] [2%nat]).
    + repeat constructor.
    + repeat constructor.
    + intros y'. eapply Nat.le_trans; [apply operands_of_year_length|]. simpl. lia.
  - destruct (Hmerge blend_world) as (m & w' & Hm & Hy & _). exists m, w'. auto.
Defined.

(** *** The shared interpretation of render *)

Lemma insert_sorted_In x y l : In x (insert_sorted y l) <-> x = y \/ In x l.
Proof.
  induction l as [|z l IH]; simpl; [intuition|].
  destruct (String.leb y z); simpl; [intuition|]. rewrite IH. intuition.
Qed.

Lemma insert_sorted_NoDup y l : ~ In y l -> NoDup l -> NoDup (insert_sorted y l).
Proof.
  induction l as [|z l IH]; simpl; intros Hy Hl.
  - constructor; [intros []|constructor].
  - destruct (String.leb y z); [constructor; assumption|].
    inversion Hl as [|? ? Hz Hl']; subst.
    constructor; [|apply IH; tauto].
    rewrite insert_sorted_In. intros [->|Hin]; tauto.
Qed.

Lemma insert_sorted_Sorted y l : Sorted label_le l -> Sorted label_le (insert_sorted y l).
Proof.
  induction l as [|z l IH]; simpl; intros Hl.
  - repeat constructor.
  - destruct (String.leb y z) eqn:Hyz.
    + constructor; [exact Hl|]. constructor. exact Hyz.
    + inversion Hl as [|? ? Hl' Hhd]; subst. constructor; [apply IH, Hl'|].
      assert (Hzy : label_le z y).
      { destruct (String.leb_total y z) as [H|H]; [congruence|exact H]. }
      destruct l as [|u l]; simpl; [constructor; exact Hzy|].
      destruct (String.leb y u); constructor; [exact Hzy|].
      inversion Hhd; assumption.
Qed.

Lemma sorted_set_spec labels :
  NoDup (sorted_set labels) /\ Sorted label_le (sorted_set labels) /\
  forall s, In s (sorted_set labels) <-> In s labels.
Proof.
  unfold sorted_set.
  pose proof (NoDup_nodup string_dec labels) as Hnd.
  assert (Hin : forall s, In s (nodup string_dec labels) <-> In s labels)
    by (intros; apply nodup_In).
  revert Hnd Hin. generalize (nodup string_dec labels) as l. intros l Hnd Hin.
  assert (G : NoDup (fold_right insert_sorted [] l) /\
              Sorted label_le (fold_right insert_sorted [] l) /\
              forall s, In s (fold_right insert_sorted [] l) <-> In s l).
  { clear Hin. induction l as [|x l IH]; simpl.
    - repeat split; auto; constructor.
    - inversion Hnd as [|? ? Hx Hl]; subst. destruct (IH Hl) as (H1 & H2 & H3).
      split; [apply insert_sorted_NoDup; [rewrite H3|]; assumption|].
      split; [apply insert_sorted_Sorted, H2|].
      intros s. rewrite insert_sorted_In, H3. intuition. }
  destruct G as (H1 & H2 & H3). repeat split; auto.
  - intros Hs. apply Hin, H3, Hs.
  - intros Hs. apply H3, Hin, Hs.
Qed.

Lemma enumerate_from_1_spec xs :
  keys (enumerate_from_1 xs) = map (fun k => Z.of_nat (S k)) (seq 0 (List.length xs)) /\
  values (enumerate_from_1 xs) = xs.
Proof.
  unfold enumerate_from_1, keys, values. split.
  - apply map_fst_combine. now rewrite length_map, length_seq.
  - apply map_snd_combine. now rewrite length_map, length_seq.
Qed.

Lemma read_labels_all ls w :
  forallb has_interpretation ls = true ->
  mapM read_labels ls w = Ok (map labels_of ls, w).
Proof.
  induction ls as [|l ls IH]; intros H; [reflexivity|].
  simpl in H. apply andb_prop in H. destruct H as (Hl & Hls).
  simpl. unfold bind at 1, read_labels at 1, labels_of at 1.
  unfold has_interpretation in Hl. destruct (interpretation l); [|discriminate].
  unfold ret at 1. unfold bind at 1. rewrite (IH Hls). reflexivity.
Qed.

Lemma read_labels_some_missing ls w :
  forallb has_interpretation ls = false ->
  mapM read_labels ls w = Raise AttributeError.
Proof.
  induction ls as [|l ls IH]; intros H; [discriminate|].
  simpl in H. simpl. unfold bind at 1, read_labels at 1.
  unfold has_interpretation in H. destruct (interpretation l); [|reflexivity].
  simpl in H. unfold ret at 1. unfold bind at 1. rewrite (IH H). reflexivity.
Qed.

Lemma reclassify_ok self interp new_interpretation nodata w :
  interpretation self = Some interp ->
  keys interp ++ keys new_interpretation <> [] ->
  exists l w', reclassify self new_interpretation nodata w = Ok ((self, ReturnsNew l), w') /\
    l = {| path := Tmp (next_tmp w) ".tif"; year := year self;
           interpretation := Some new_interpretation; units := units self |} /\
    extends w w'.
Proof.
  intros Hi Hk. unfold reclassify. run_m. rewrite Hi.
  unfold reclassify_data.
  destruct (keys interp ++ keys new_interpretation) as [|k ks] eqn:Ek; [congruence|].
  run_m. eexists _, _. split; [reflexivity|]. split; [reflexivity|].
  apply write_fresh_extends.
Qed.

Lemma normalize_uninterpreted ls w :
  existsb has_interpretation ls = false -> normalize ls w = Ok (ls, w).
Proof. intros H. unfold normalize. rewrite H. reflexivity. Qed.

Lemma forallb_existsb_nonempty {A} (f : A -> bool) (l : list A) :
  l <> [] -> forallb f l = true -> existsb f l = true.
Proof.
  destruct l as [|x l]; [congruence|]. simpl. intros _ H.
  apply andb_prop in H. destruct H as (-> & _). reflexivity.
Qed.

Lemma normalize_interpreted ls w :
  ls <> [] -> forallb has_interpretation ls = true ->
  normalize ls w =
  mapM (fun l => o <- reclassify l (common_interpretation ls) 0%Q ;; ret (result_layer o))
       ls w.
Proof.
  intros Hne Hall. unfold normalize.
  rewrite (forallb_existsb_nonempty _ _ Hne Hall).
  unfold bind at 1. change (mapM _ ls w) with (mapM read_labels ls w) at 1.
  rewrite (read_labels_all ls w Hall). reflexivity.
Qed.

Lemma normalize_mixed ls w :
  existsb has_interpretation ls = true -> forallb has_interpretation ls = false ->
  normalize ls w = Raise AttributeError.
Proof.
  intros Hsome Hnot. unfold normalize. rewrite Hsome.
  unfold bind at 1. change (mapM _ ls w) with (mapM read_labels ls w) at 1.
  rewrite (read_labels_some_missing ls w Hnot). reflexivity.
Qed.

Lemma normalize_interpreted_ok ls w :
  ls <> [] -> forallb has_interpretation ls = true ->
  List.concat (map labels_of ls) <> [] ->
  exists ls' w', normalize ls w = Ok (ls', w') /\ extends w w' /\
                 Forall2 (reclassified_to (common_interpretation ls)) ls ls'.
Proof.
  intros Hne Hall Hlabels. rewrite normalize_interpreted by assumption.
  set (common := common_interpretation ls).
  assert (Hk : keys common <> []).
  { unfold common, common_interpretation.
    destruct (enumerate_from_1_spec (sorted_set (List.concat (map labels_of ls)))) as (-> & _).
    destruct (sorted_set_spec (List.concat (map labels_of ls))) as (_ & _ & Hin).
    destruct (List.concat (map labels_of ls)) as [|s0 rest] eqn:Ec; [congruence|].
    destruct (sorted_set (s0 :: rest)) as [|t ts] eqn:Es.
    - exfalso. apply (Hin s0). now left.
    - discriminate. }
  destruct (mapM_spec
              (fun l => o <- reclassify l common 0%Q ;; ret (result_layer o))
              (reclassified_to common) (fun _ => True) ls) with (w := w)
    as (ls' & w' & Hm & Hext & _ & Hq); auto.
  - intros l w0 Hin _.
    rewrite forallb_forall in Hall. specialize (Hall l Hin).
    unfold has_interpretation in Hall.
    destruct (interpretation l) as [interp|] eqn:Hi; [|discriminate].
    destruct (reclassify_ok l interp common 0%Q w0 Hi) as (l' & w1 & Hr & -> & Hext).
    { intros Habs. apply app_eq_nil in Habs. tauto. }
    unfold bind. rewrite Hr. unfold ret, result_layer. simpl.
    eexists _, _. split; [reflexivity|]. split; [exact Hext|]. split; [exact I|].
    unfold reclassified_to. simpl. auto.
  - exists ls', w'. auto.
Qed.

(** C2 (counterexample). With one interpreted and one uninterpreted layer
    selected, [render] does not succeed: reading the labels of the layer
    without an interpretation raises AttributeError. *)
Lemma render_mixed_interpretations_raises :
  render (toy_engine false) (collection_of [fire_layer; npp_layer]) None
         (Some 2000) (Some 2001) TcPerHa interpreted_world
  = Raise AttributeError.
Proof. vm_compute. reflexivity. Qed.

(** C2 (amended). The shared interpretation of [render] numbers the distinct
    labels of the working layers from 1.  With no interpreted working layer
    nothing is reclassified; when every working layer carries an
    interpretation, every one of them is reclassified against the shared
    interpretation, keeping its year and units; when only some do, the step
    raises. *)
Theorem normalize_shares_one_interpretation (ls : list Layer) (w : World) :
  let labels := List.concat (map labels_of ls) in
  let common := common_interpretation ls in
  (keys common = map (fun k => Z.of_nat (S k)) (seq 0 (List.length (values common))) /\
   NoDup (values common) /\
   (forall s, In s (values common) <-> In s labels)) /\
  (existsb has_interpretation ls = false -> normalize ls w = Ok (ls, w)) /\
  (ls <> [] -> forallb has_interpretation ls = true ->
   normalize ls w =
     mapM (fun l => o <- reclassify l common 0%Q ;; ret (result_layer o)) ls w /\
   (labels <> [] ->
    exists ls' w', normalize ls w = Ok (ls', w') /\
                   Forall2 (reclassified_to common) ls ls')) /\
  (existsb has_interpretation ls = true -> forallb has_interpretation ls = false ->
   normalize ls w = Raise AttributeError).
Proof.
  cbv zeta. split; [|split; [|split]].
  - unfold common_interpretation.
    destruct (enumerate_from_1_spec (sorted_set (List.concat (map labels_of ls))))
      as (Hk & Hv).
    destruct (sorted_set_spec (List.concat (map labels_of ls))) as (Hnd & _ & Hin).
    rewrite Hv. repeat split; auto; apply Hin.
  - apply normalize_uninterpreted.
  - intros Hne Hall. split; [apply normalize_interpreted; assumption|].
    intros Hlabels.
    destruct (normalize_interpreted_ok ls w Hne Hall Hlabels) as (ls' & w' & H & _ & Hq).
    eauto.
  - apply normalize_mixed.
Qed.

Lemma normalize_shares_one_interpretation_witness :
  common_interpretation [fire_layer; harvest_layer]
    = [(1, "Clearcut"%string); (2, "Wildfire"%string)] /\
  exists ls' w',
    normalize [fire_layer; harvest_layer] interpreted_world = Ok (ls', w') /\
    Forall2 (reclassified_to (common_interpretation [fire_layer; harvest_layer]))
            [fire_layer; harvest_layer] ls'.
Proof.
  split; [reflexivity|].
  destruct (normalize_shares_one_interpretation [fire_layer; harvest_layer] interpreted_world)
    as (_ & _ & Hall & _).
  destruct (Hall ltac:(discriminate) eq_refl) as (_ & Hok).
  apply Hok. discriminate.
Defined.

(** *** render returns *)

Lemma box_ok_extends w w' box : extends w w' -> box_ok w box -> box_ok w' box.
Proof.
  intros Hext H Hi. destruct (H Hi) as (Ha & Hr).
  split; [eapply allocated_mono; eauto|]. destruct Hext as (_ & Hf). now rewrite Hf.
Qed.

Lemma same_shape_of_eq g h : shape g = shape h -> same_shape g h = true.
Proof.
  intros H. unfold same_shape. destruct (list_eq_dec Nat.eq_dec (shape g) (shape h)); congruence.
Qed.

Lemma min_pixel_bounds_four g nd :
  exists a b c d, BoundingBoxScan.min_pixel_bounds g nd = [a; b; c; d].
Proof. unfold BoundingBoxScan.min_pixel_bounds. eauto. Qed.

Ltac run_c :=
  unfold bind, ret, raise, lift, mktmp, gdal_Open, put_file, nodata_value, _save_as;
  cbn.

Lemma next_tmp_write p r w : next_tmp (write_file p r w) = next_tmp w.
Proof. reflexivity. Qed.

Lemma files_write_other p q r w : q <> p -> files (write_file p r w) q = files w q.
Proof. intros H. unfold write_file. cbn. destruct (Path_eq_dec q p); congruence. Qed.

Lemma write_extends w p r :
  ~ allocated w p -> extends w (write_file p r w).
Proof.
  intros Hp. split; [rewrite next_tmp_write; lia|].
  intros q Hq. apply files_write_other. congruence.
Qed.

Lemma _init_ok E box w :
  warp_ok E ->
  exists w', BoundingBoxM._init E box w
               = Ok (BoundingBoxM.with_path box (Tmp (S (next_tmp w)) ".tif"), w') /\
             extends w w' /\ next_tmp w' = S (S (next_tmp w)) /\
             rect (data (files w' (Tmp (S (next_tmp w)) ".tif"))).
Proof.
  intros Hwarp. unfold BoundingBoxM._init, BoundingBoxM.min_geographic_bounds,
    BoundingBoxM.min_pixel_bounds, BoundingBoxM._get_srs.
  run_c.
  destruct (min_pixel_bounds_four (data (files w (path (as_layer box))))
              (noDataValue (files w (path (as_layer box))))) as (a & b & c & d & ->).
  run_c. rewrite write_file_same.
  eexists. split; [reflexivity|]. split; [|split].
  - eapply extends_trans; [apply write_fresh_extends|].
    match goal with |- extends ?w1 _ => exact (write_fresh_extends w1 ".tif" _) end.
  - reflexivity.
  - rewrite write_file_same. apply (proj1 (Hwarp _ _)).
Qed.

Lemma allocated_not_fresh w p sfx : allocated w p -> p <> Tmp (next_tmp w) sfx.
Proof. intros Hp ->. simpl in Hp. lia. Qed.

Lemma crop_initialized_ok E box l w :
  warp_ok E ->
  allocated w (path (as_layer box)) ->
  rect (data (files w (path (as_layer box)))) ->
  exists l' w',
    BoundingBoxM.crop_initialized E box l w = Ok ((box, l'), w') /\
    extends w w' /\
    year l' = year l /\ interpretation l' = interpretation l /\ units l' = units l.
Proof.
  intros Hwarp Halloc Hrect.
  unfold BoundingBoxM.crop_initialized, BoundingBoxM._get_srs. run_c.
  unfold Calc. cbn.
  rewrite write_file_same.
  rewrite (files_write_other _ (path (as_layer box)))
    by (apply (allocated_not_fresh w); exact Halloc).
  cbn.
  rewrite same_shape_of_eq.
  - cbn. eexists _, _. split; [reflexivity|]. split; [|auto].
    eapply extends_trans; [apply write_fresh_extends|].
    match goal with |- extends ?w1 _ => exact (write_fresh_extends w1 ".tif" _) end.
  - rewrite Hrect. symmetry. apply (proj2 (Hwarp _ _)). reflexivity.
Qed.

Lemma crop_ok E box l w :
  warp_ok E -> box_ok w box ->
  exists box' l' w',
    BoundingBoxM.crop E box l w = Ok ((box', l'), w') /\
    extends w w' /\
    year l' = year l /\ interpretation l' = interpretation l /\ units l' = units l.
Proof.
  intros Hwarp Hbox. unfold BoundingBoxM.crop.
  destruct (_initialized box) eqn:Hi.
  - destruct (Hbox Hi) as (Ha & Hr).
    destruct (crop_initialized_ok E box l w Hwarp Ha Hr) as (l' & w' & Hc & H).
    unfold bind, ret. rewrite Hc. eauto.
  - destruct (_init_ok E box w Hwarp) as (w1 & Hinit & Hext & Hn & Hrect).
    unfold bind. rewrite Hinit.
    destruct (crop_initialized_ok E
                (BoundingBoxM.with_path box (Tmp (S (next_tmp w)) ".tif")) l w1 Hwarp)
      as (l' & w' & Hc & Hext' & H).
    + simpl. lia.
    + exact Hrect.
    + rewrite Hc. eexists _, _, _. split; [reflexivity|].
      split; [eapply extends_trans; eauto|exact H].
Qed.

Lemma layer_render_ok E l legend box transparent w :
  warp_ok E ->
  (forall b, box = Some b -> box_ok w b) ->
  renderable legend transparent ->
  exists box' f w',
    LayerRender.render E l legend box transparent w = Ok ((box', f), w') /\
    extends w w' /\ frame_year f = year l.
Proof.
  intros Hwarp Hbox (rows & Hrows). unfold LayerRender.render.
  unfold bind at 1, mktmp at 1. unfold bind at 1, lift. rewrite Hrows.
  set (w1 := {| files := files w; next_tmp := S (next_tmp w) |}).
  assert (Hext1 : extends w w1).
  { split; [simpl; lia|]. intros; reflexivity. }
  destruct box as [b|].
  - destruct (crop_ok E b l w1 Hwarp) as (b' & l' & w2 & Hc & Hext2 & _).
    { eapply box_ok_extends; [exact Hext1|]. now apply Hbox. }
    unfold bind at 1. unfold bind at 1. rewrite Hc. unfold ret at 1.
    unfold LayerM.scale. run_c.
    destruct (contains "metre" (wkt (files w2 (path l))));
      (eexists _, _, _; split; [reflexivity|]; split; [|reflexivity];
       eapply extends_trans; [exact Hext1|]; eapply extends_trans; [exact Hext2|];
       split; [simpl; lia|intros; reflexivity]).
  - unfold LayerM.scale. run_c.
    destruct (contains "metre" (wkt (files w (path l))));
      (eexists _, _, _; split; [reflexivity|]; split; [|reflexivity];
       split; [simpl; lia|intros; reflexivity]).
Qed.

Lemma same_tags_maps ls ls' :
  Forall2 same_tags ls ls' ->
  map year ls' = map year ls /\ map interpretation ls' = map interpretation ls.
Proof.
  induction 1 as [|l l' ls ls' (Hy & Hi) _ (IHy & IHi)]; [split; reflexivity|].
  simpl. rewrite Hy, Hi, IHy, IHi. split; reflexivity.
Qed.

Lemma Forall2_trans_tags ls1 ls2 ls3 :
  Forall2 same_tags ls1 ls2 -> Forall2 same_tags ls2 ls3 -> Forall2 same_tags ls1 ls3.
Proof.
  intros H. revert ls3. induction H as [|a b ls1 ls2 (Hy & Hi) _ IH]; intros ls3 H3.
  - inversion H3; constructor.
  - inversion H3 as [|? c ? ls3' (Hy' & Hi') H3']; subst. constructor; [|apply IH, H3'].
    split; congruence.
Qed.

Lemma has_interpretation_maps ls ls' :
  map interpretation ls' = map interpretation ls ->
  existsb has_interpretation ls' = existsb has_interpretation ls /\
  forallb has_interpretation ls' = forallb has_interpretation ls /\
  map labels_of ls' = map labels_of ls.
Proof.
  revert ls'. induction ls as [|l ls IH]; intros [|l' ls'] H; try discriminate.
  - repeat split; reflexivity.
  - simpl in H. injection H as Hl Hls. destruct (IH ls' Hls) as (H1 & H2 & H3).
    simpl. unfold has_interpretation, labels_of in *. rewrite Hl, H1, H2, H3.
    repeat split; reflexivity.
Qed.

Lemma crop_all_ok E box ls w :
  warp_ok E -> box_ok w box ->
  exists ls' w',
    mapM (fun l => r <- BoundingBoxM.crop E box l ;; ret (snd r)) ls w = Ok (ls', w') /\
    extends w w' /\ Forall2 same_tags ls ls'.
Proof.
  intros Hwarp Hbox.
  destruct (mapM_spec (fun l => r <- BoundingBoxM.crop E box l ;; ret (snd r))
              same_tags (fun w' => box_ok w' box) ls) with (w := w)
    as (ls' & w' & Hm & Hext & _ & Hq); auto.
  - intros l w0 _ Hb0.
    destruct (crop_ok E box l w0 Hwarp Hb0) as (b' & l' & w1 & Hc & Hext & Hy & Hi & _).
    unfold bind, ret. rewrite Hc. simpl.
    eexists _, _. split; [reflexivity|]. split; [exact Hext|].
    split; [eapply box_ok_extends; eauto|split; assumption].
  - eauto.
Qed.

Lemma convert_all_ok E target ls w :
  exists ls' w',
    mapM (fun l => o <- convert_units E l target ;; ret (result_layer o)) ls w
      = Ok (ls', w') /\
    extends w w' /\ Forall2 same_tags ls ls'.
Proof.
  destruct (mapM_spec (fun l => o <- convert_units E l target ;; ret (result_layer o))
              same_tags (fun _ => True) ls) with (w := w)
    as (ls' & w' & Hm & Hext & _ & Hq); auto.
  - intros l w0 _ _.
    destruct (convert_units_outcome E l target w0) as (o & w1 & Ho & Hext & Hy & Hi & _).
    unfold bind, ret. rewrite Ho.
    eexists _, _. split; [reflexivity|]. split; [exact Hext|].
    split; [exact I|split; assumption].
  - eauto.
Qed.

Lemma normalize_ok ls w :
  homogeneous ls ->
  exists ls' w', normalize ls w = Ok (ls', w') /\ extends w w' /\
                 map year ls' = map year ls.
Proof.
  intros [Hnone|(Hall & Hlabels)].
  - exists ls, w. rewrite normalize_uninterpreted by exact Hnone.
    split; [reflexivity|]. split; [apply extends_refl|reflexivity].
  - assert (Hne : ls <> []) by (intros ->; apply Hlabels; reflexivity).
    destruct (normalize_interpreted_ok ls w Hne Hall Hlabels) as (ls' & w' & Hn & Hext & Hq).
    exists ls', w'. split; [exact Hn|]. split; [exact Hext|].
    clear - Hq. induction Hq as [|l l' ls0 ls0' (Hy & _) _ IH]; [reflexivity|].
    simpl. now rewrite Hy, IH.
Qed.

Lemma background_legend_renderable c :
  renderable [(KValue 1%Q, {| color := c; label := "" |})] false.
Proof. eexists. reflexivity. Qed.

Lemma Forall2_same_tags_refl ls : Forall2 same_tags ls ls.
Proof. induction ls; constructor; [split; reflexivity|assumption]. Qed.

Lemma render_working_ok E self box start_year end_year target w :
  warp_ok E ->
  (forall b, box = Some b -> box_ok w b) ->
  homogeneous (selected self start_year end_year) ->
  (box <> None \/ selected self start_year end_year <> []) ->
  exists ls bg w',
    render_working E self box start_year end_year target w = Ok ((ls, bg), w') /\
    extends w w' /\
    map year ls = map year (selected self start_year end_year).
Proof.
  intros Hwarp Hbox Hhom Hbg. unfold render_working. cbv zeta.
  fold (selected self start_year end_year).
  set (working := selected self start_year end_year) in *.
  assert (H1 : exists ls1 w1,
            (match box with
             | Some b => mapM (fun l => r <- BoundingBoxM.crop E b l ;; ret (snd r)) working
             | None => ret working
             end) w = Ok (ls1, w1) /\ extends w w1 /\ Forall2 same_tags working ls1).
  { destruct box as [b|].
    - apply crop_all_ok; auto.
    - exists working, w. split; [reflexivity|].
      split; [apply extends_refl|apply Forall2_same_tags_refl]. }
  destruct H1 as (ls1 & w1 & Hc & Hext1 & Ht1).
  unfold bind at 1. rewrite Hc.
  destruct (convert_all_ok E target ls1 w1) as (ls2 & w2 & Hcv & Hext2 & Ht2).
  unfold bind at 1. rewrite Hcv.
  pose proof (Forall2_trans_tags _ _ _ Ht1 Ht2) as Ht.
  destruct (same_tags_maps _ _ Ht) as (Hyears & Hinterp).
  destruct (has_interpretation_maps _ _ Hinterp) as (Hex & Hfa & Hlab).
  assert (Hhom2 : homogeneous ls2).
  { unfold homogeneous. rewrite Hex, Hfa, Hlab. exact Hhom. }
  destruct (normalize_ok ls2 w2 Hhom2) as (ls3 & w3 & Hn & Hext3 & Hy3).
  unfold bind at 1. rewrite Hn.
  assert (Hw3 : extends w w3).
  { eapply extends_trans; [exact Hext1|]. eapply extends_trans; eauto. }
  assert (H4 : exists background_layer,
            (match box with
             | Some b => ret (as_layer b)
             | None => match ls3 with
                       | l :: _ => ret l
                       | [] => raise IndexError
                       end
             end) w3 = Ok (background_layer, w3)).
  { destruct box as [b|]; [eexists; reflexivity|].
    destruct Hbg as [Hb|Hb]; [congruence|].
    destruct ls3 as [|l ls3]; [|eexists; reflexivity].
    exfalso. apply Hb. apply (f_equal (@List.length _)) in Hy3, Hyears.
    rewrite !length_map in Hy3, Hyears.
    destruct working; [reflexivity|]. simpl in *. lia. }
  destruct H4 as (background_layer & Hb).
  unfold bind at 1. rewrite Hb.
  unfold bind at 1. rewrite flatten_eq. cbv beta iota.
  unfold bind at 1.
  match goal with |- context [LayerRender.render E ?l ?lg box false ?w4] =>
    destruct (layer_render_ok E l lg box false w4 Hwarp) as (b' & f & w5 & Hr & Hext5 & _);
    [ intros b Hbx; eapply box_ok_extends;
      [eapply extends_trans; [exact Hw3|apply write_fresh_extends]|now apply Hbox]
    | apply background_legend_renderable | ]
  end.
  rewrite Hr. unfold ret. cbn [fst snd].
  eexists _, _, _. split; [reflexivity|]. split.
  - eapply extends_trans; [exact Hw3|].
    eapply extends_trans; [apply write_fresh_extends|exact Hext5].
  - congruence.
Qed.

Lemma Forall2_map_eq {A B C} (f : A -> C) (g : B -> C) l l' :
  Forall2 (fun a b => g b = f a) l l' -> map g l' = map f l.
Proof. induction 1 as [|a b l l' H _ IH]; [reflexivity|]. simpl. now rewrite H, IH. Qed.

Lemma render_frames_ok E self start_year end_year ls bg w :
  warp_ok E -> colorizer_ok self ->
  exists rendered legend w',
    render_frames E self start_year end_year ls bg w
      = Ok ((rendered ++ map (background_for bg) (missing_years E self start_year end_year),
             legend), w') /\
    map frame_year rendered = map fst (group_by_year ls).
Proof.
  intros Hwarp Hcol. unfold render_frames. cbv zeta.
  destruct (group_by_year_spec ls) as (_ & Hgood & _).
  rewrite Forall_forall in Hgood.
  (* merge *)
  destruct (mapM_spec (fun g => _merge_layers E (snd g))
              (fun g m => year m = fst g) (fun _ => True) (group_by_year ls)) with (w := w)
    as (merged & w1 & Hm & _ & _ & Hq1); auto.
  { intros g w0 Hin _. destruct (Hgood g Hin) as (Hne & Hall).
    destruct (_merge_layers_ok E (snd g) w0 Hne) as (m & w0' & Hmerge & Hext & Hy & _).
    exists m, w0'. split; [exact Hmerge|]. split; [exact Hext|]. split; [exact I|].
    rewrite Hy. destruct (snd g) as [|l rest]; [congruence|].
    simpl. now inversion Hall. }
  unfold bind at 1. rewrite Hm. unfold bind at 1.
  set (legend := create_legend (_colorizer self) (files w1) merged).
  (* render *)
  destruct (mapM_spec (fun l => r <- LayerRender.render E l legend None true ;; ret (snd r))
              (fun m f => frame_year f = year m) (fun _ => True) merged) with (w := w1)
    as (frames & w2 & Hr & _ & _ & Hq2); auto.
  { intros m w0 _ _.
    destruct (layer_render_ok E m legend None true w0 Hwarp) as (b' & f & w0' & Hf & Hext & Hy).
    - intros b Hb. discriminate.
    - apply Hcol.
    - unfold bind, ret. rewrite Hf. cbn [snd]. eauto 10. }
  unfold bind at 1. rewrite Hr.
  (* composite *)
  destruct (mapM_spec (fun f => composite f bg true)
              (fun f f' => frame_year f' = frame_year f) (fun _ => True) frames) with (w := w2)
    as (composed & w3 & Hc & _ & _ & Hq3); auto.
  { intros f w0 _ _. unfold composite. run_c.
    eexists _, _. split; [reflexivity|]. split; [|auto].
    split; [simpl; lia|intros; reflexivity]. }
  unfold bind at 1. rewrite Hc. unfold ret.
  exists composed, legend, w3. split; [reflexivity|].
  rewrite (Forall2_map_eq _ _ _ _ Hq3), (Forall2_map_eq _ _ _ _ Hq2).
  apply (Forall2_map_eq _ _ _ _ Hq1).
Qed.

(** *** One Frame per requested year *)

Lemma mem_In y l : mem y l = true <-> In y l.
Proof.
  unfold mem. rewrite existsb_exists. split.
  - intros (x & Hx & Heq). apply Z.eqb_eq in Heq. now subst.
  - intros H. exists y. split; [exact H|apply Z.eqb_refl].
Qed.

Lemma py_range_NoDup a b : NoDup (py_range a b).
Proof.
  unfold py_range. apply NoDup_map_NoDup_ForallPairs; [|apply seq_NoDup].
  intros x y _ _ H. lia.
Qed.

Lemma py_range_In a b y : In y (py_range a b) <-> a <= y < b.
Proof.
  unfold py_range. rewrite in_map_iff. split.
  - intros (k & <- & Hk). apply in_seq in Hk. lia.
  - intros H. exists (Z.to_nat (y - a)). split; [lia|]. apply in_seq. lia.
Qed.

Lemma render_years_explicit self a b :
  a <> 0 -> b <> 0 -> render_years self (Some a) (Some b) = py_range a (b + 1).
Proof.
  intros Ha Hb. unfold render_years, truthy.
  destruct (Z.eqb_spec a 0); [contradiction|].
  destruct (Z.eqb_spec b 0); [contradiction|]. reflexivity.
Qed.

Lemma missing_years_spec E self a b :
  set_order_ok E -> a <> 0 -> b <> 0 ->
  NoDup (missing_years E self (Some a) (Some b)) /\
  forall y, In y (missing_years E self (Some a) (Some b)) <->
            In y (py_range a (b + 1)) /\ ~ In y (map year (_layers self)).
Proof.
  intros Hset Ha Hb. unfold missing_years. rewrite render_years_explicit by assumption.
  split; [apply set_order_NoDup, Hset|].
  intros y. rewrite (set_order_In E _ y Hset), filter_In, (set_order_In E _ y Hset).
  rewrite negb_true_iff, <- not_true_iff_false, mem_In. tauto.
Qed.

Lemma selected_years self a b y :
  a <> 0 -> b <> 0 ->
  (In y (map year (selected self (Some a) (Some b))) <->
   In y (py_range a (b + 1)) /\ In y (map year (_layers self))).
Proof.
  intros Ha Hb. unfold selected. rewrite render_years_explicit by assumption.
  rewrite !in_map_iff. split.
  - intros (l & <- & Hl). apply filter_In in Hl. destruct Hl as (Hl & Hm).
    apply mem_In in Hm. split; [exact Hm|]. exists l. auto.
  - intros (Hr & l & <- & Hl). exists l. split; [reflexivity|].
    apply filter_In. split; [exact Hl|]. apply mem_In, Hr.
Qed.

(** C1 (amended). With an explicit range whose two ends are non-zero, a
    bounding box or at least one layer in the range, and working layers that
    are all interpreted or all uninterpreted, [render] returns exactly one
    Frame per year of the range (in no particular order), and every year of
    the range without a source layer gets the bare background Frame: the
    background Frame's image and scale under that year. *)
Theorem render_one_frame_per_year (E : Engine) (self : LayerCollection)
    (box : option BoundingBox) (a b : Z) (target : Units) (w : World) :
  set_order_ok E -> warp_ok E -> colorizer_ok self ->
  a <> 0 -> b <> 0 ->
  (forall bx, box = Some bx -> box_ok w bx) ->
  homogeneous (selected self (Some a) (Some b)) ->
  (box <> None \/ selected self (Some a) (Some b) <> []) ->
  exists working background_frame w1 frames legend w',
    render_working E self box (Some a) (Some b) target w
      = Ok ((working, background_frame), w1) /\
    render E self box (Some a) (Some b) target w = Ok ((frames, legend), w') /\
    Permutation (map frame_year frames) (py_range a (b + 1)) /\
    forall y, In y (py_range a (b + 1)) -> ~ In y (map year (_layers self)) ->
              In (background_for background_frame y) frames.
Proof.
  intros Hset Hwarp Hcol Ha Hb Hbox Hhom Hbg.
  destruct (render_working_ok E self box (Some a) (Some b) target w Hwarp Hbox Hhom Hbg)
    as (ls & bg & w1 & Hw & _ & Hyears).
  destruct (render_frames_ok E self (Some a) (Some b) ls bg w1 Hwarp Hcol)
    as (rendered & legend & w' & Hf & Hr).
  exists ls, bg, w1. eexists _, legend, w'.
  split; [exact Hw|]. split.
  { unfold render. unfold bind. rewrite Hw. cbn [fst snd]. exact Hf. }
  destruct (missing_years_spec E self a b Hset Ha Hb) as (Hmnd & Hmin).
  destruct (group_by_year_spec ls) as (Hgnd & _ & Hgin).
  split.
  - rewrite map_app, Hr, map_map. cbn [background_for frame_year]. rewrite map_id.
    apply NoDup_Permutation.
    + apply NoDup_app; [exact Hgnd|exact Hmnd|].
      intros y Hy Hm. apply Hgin in Hy. rewrite Hyears in Hy.
      apply selected_years in Hy; [|assumption..]. apply Hmin in Hm. tauto.
    + apply py_range_NoDup.
    + intros y. rewrite in_app_iff, Hgin, Hyears, selected_years, Hmin by assumption.
      destruct (in_dec Z.eq_dec y (map year (_layers self))); tauto.
  - intros y Hy Hno. apply in_or_app. right. apply in_map, Hmin. tauto.
Qed.

Lemma shape_resample r width height :
  shape (data (resample r width height)) = repeat width height.
Proof.
  unfold resample, shape. cbn [data]. rewrite map_map.
  generalize 0%nat at 2. induction height as [|h IH]; intros start; [reflexivity|].
  simpl. rewrite length_map, length_seq. f_equal. apply IH.
Qed.

Lemma rect_resample r width height : rect (data (resample r width height)).
Proof.
  unfold rect. rewrite shape_resample.
  assert (Hl : List.length (data (resample r width height)) = height).
  { unfold resample. cbn [data]. now rewrite length_map, length_seq. }
  rewrite Hl. destruct height as [|h]; [reflexivity|].
  replace (BoundingBoxScan.shape1 (data (resample r width (S h)))) with width; [reflexivity|].
  unfold BoundingBoxScan.shape1, resample. cbn. now rewrite length_map, length_seq.
Qed.

Lemma toy_warp_ok propagate : warp_ok (toy_engine propagate).
Proof.
  intros opts rs. unfold toy_engine. cbn [Warp]. cbv zeta.
  destruct (size opts) as [[width height]|].
  - split; [apply rect_resample|]. intros ? ? [= <- <-]. apply shape_resample.
  - split; [apply rect_resample|]. intros; discriminate.
Qed.

Lemma basic_colorizer_ok ls : colorizer_ok (collection_of ls).
Proof. intros fs layers. eexists. reflexivity. Qed.

(** C1 (counterexample). An explicit range that holds no layer of the
    collection, rendered without a bounding box: there is nothing to flatten
    into a background and [working_layers[0]] raises IndexError.  A range
    starting at year 0 is not taken as explicit: only the collection's own
    years are rendered.  And a range selecting an interpreted and an
    uninterpreted layer, or only layers whose interpretation is the empty
    dict, makes the normalization raise. *)
Lemma render_range_without_layers_raises :
  render (toy_engine false) (collection_of [npp_layer]) None
         (Some 2010) (Some 2012) TcPerHa interpreted_world
    = Raise IndexError /\
  (exists frames legend w',
     render (toy_engine false) (collection_of [npp_layer]) None
            (Some 0) (Some 2001) TcPerHa interpreted_world
       = Ok ((frames, legend), w') /\
     map frame_year frames = [2001]) /\
  render (toy_engine false) (collection_of [fire_layer; npp_layer]) None
         (Some 2000) (Some 2003) TcPerHa interpreted_world
    = Raise AttributeError /\
  render (toy_engine false)
         (collection_of [{| path := Src "fire.tif"; year := 2000;
                            interpretation := Some []; units := Blank |}]) None
         (Some 2000) (Some 2003) TcPerHa interpreted_world
    = Raise ValueError.
Proof.
  split; [vm_compute; reflexivity|]. split.
  - eexists _, _, _. split; vm_compute; reflexivity.
  - split; vm_compute; reflexivity.
Qed.

(** The scenario of the specification: a collection whose only layer is for
    2001, rendered from 2000 to 2003. *)
Lemma render_one_frame_per_year_witness :
  exists working background_frame w1 frames legend w',
    render_working (toy_engine false) (collection_of [npp_layer]) None
                   (Some 2000) (Some 2003) TcPerHa interpreted_world
      = Ok ((working, background_frame), w1) /\
    render (toy_engine false) (collection_of [npp_layer]) None
           (Some 2000) (Some 2003) TcPerHa interpreted_world
      = Ok ((frames, legend), w') /\
    Permutation (map frame_year frames) (py_range 2000 (2003 + 1)) /\
    forall y, In y (py_range 2000 (2003 + 1)) ->
              ~ In y (map year (_layers (collection_of [npp_layer]))) ->
              In (background_for background_frame y) frames.
Proof.
  apply (render_one_frame_per_year (toy_engine false) (collection_of [npp_layer]) None
           2000 2003 TcPerHa interpreted_world).
  - apply toy_set_order_ok.
  - apply toy_warp_ok.
  - apply basic_colorizer_ok.
  - lia.
  - lia.
  - intros bx Hbx. discriminate Hbx.
  - left. reflexivity.
  - right. discriminate.
Defined.

(** The same scenario evaluated: four Frames, tagged 2001, 2000, 2002 and
    2003; the three years without a layer carry the background Frame's
    image. *)
Example render_2001_in_2000_2003 :
  exists background_frame w1 frames legend w',
    render_working (toy_engine false) (collection_of [npp_layer]) None
                   (Some 2000) (Some 2003) TcPerHa interpreted_world
      = Ok (([npp_layer], background_frame), w1) /\
    render (toy_engine false) (collection_of [npp_layer]) None
           (Some 2000) (Some 2003) TcPerHa interpreted_world
      = Ok ((frames, legend), w') /\
    map frame_year frames = [2001; 2000; 2002; 2003] /\
    map frame_path (List.tl frames) = repeat (frame_path background_frame) 3.
Proof.
  eexists _, _, _, _, _. split; [vm_compute; reflexivity|].
  split; [vm_compute; reflexivity|]. split; vm_compute; reflexivity.
Qed.


End LayerCollectionFacts.

(** ** More facts about BoundingBox.min_pixel_bounds *)

Module BoundingBoxMore.
Import BoundingBoxScan BoundingBoxExamples BoundingBoxFacts.

Lemma scan_no_data nodata rows : forall i b,
  (forall row, In row rows -> where_ne nodata row 0 = []) ->
  scan nodata rows i b = b.
Proof.
  induction rows as [|row rows IH]; intros i b H; simpl; [reflexivity|].
  rewrite (scan_row_empty nodata b i row) by (apply H; now left).
  apply IH. intros r Hr. apply H. now right.
Qed.

(** X1. On a raster without a single data pixel the scan never updates its
    variables: the bounds come out as [[width - 1; 1; -1; 1]], a rectangle
    whose left edge lies right of its right edge as soon as the raster is
    more than two columns wide. *)
Theorem min_pixel_bounds_all_nodata (data : Grid) (nodata : Q) :
  (forall r c, ~ data_at nodata data r c) ->
  min_pixel_bounds data nodata = [Z.of_nat (shape1 data) - 1; 1; -1; 1].
Proof.
  intros Hnone. unfold min_pixel_bounds.
  rewrite scan_no_data; [reflexivity|].
  intros row Hrow. destruct (where_ne nodata row 0) as [|c l] eqn:E; [reflexivity|].
  exfalso. apply In_nth_error in Hrow. destruct Hrow as (r & Hr).
  destruct (nonempty_data_row nodata data r row Hr) as (c' & Hd).
  - rewrite E. discriminate.
  - exact (Hnone r c' Hd).
Qed.

Lemma min_pixel_bounds_all_nodata_witness :
  min_pixel_bounds bbox_raster_blank 0%Q = [Z.of_nat (shape1 bbox_raster_blank) - 1; 1; -1; 1].
Proof.
  apply min_pixel_bounds_all_nodata.
  intros r c (row & v & Hr & Hc & Hv).
  do 2 (destruct r as [|r];
        [simpl in Hr; injection Hr as <-;
         do 4 (destruct c as [|c]; [simpl in Hc; injection Hc as <-; discriminate Hv|]);
         simpl in Hc; destruct c; discriminate Hc|]).
  simpl in Hr. destruct r; discriminate Hr.
Defined.

(** X2. On a rectangular raster with data, none of it in row 0, the bounds
    are the extreme data columns and rows padded by one pixel: every data
    pixel lies strictly inside them and each of the four extremes is met by
    a data pixel. *)
Theorem min_pixel_bounds_encloses_data (data : Grid) (nodata : Q) :
  rectangular data ->
  (forall c, ~ data_at nodata data 0 c) ->
  (exists r c, data_at nodata data r c) ->
  exists cmin cmax rmin rmax : nat,
    min_pixel_bounds data nodata
      = [Z.of_nat cmin - 1; Z.of_nat cmax + 1; Z.of_nat rmin - 1; Z.of_nat rmax + 1] /\
    (forall r c, data_at nodata data r c ->
                 (cmin <= c <= cmax)%nat /\ (rmin <= r <= rmax)%nat) /\
    (exists r, data_at nodata data r cmin) /\ (exists r, data_at nodata data r cmax) /\
    (exists c, data_at nodata data rmin c) /\ (exists c, data_at nodata data rmax c).
Proof.
  intros Hrect Hrow0 (r0 & c0 & Hd0).
  unfold min_pixel_bounds.
  set (b0 := {| x_min := Z.of_nat (shape1 data); x_max := 0; y_min := 0; y_max := 0 |}).
  pose proof (scan_x nodata data 0 b0) as Hx. cbv zeta in Hx.
  destruct Hx as (Hall & _ & _ & Hmin & Hmax).
  assert (Hwidth : forall r c, data_at nodata data r c -> (c < shape1 data)%nat).
  { intros r c (row & v & Hr & Hc & _).
    rewrite <- (Hrect row (nth_error_In _ _ Hr)). apply nth_error_Some. congruence. }
  pose proof Hd0 as Hd0'. apply data_at_where in Hd0'. destruct Hd0' as (row0 & Hr0 & Hc0).
  destruct (Hall _ _ _ Hr0 Hc0) as (Hlo0 & Hhi0).
  (* columns *)
  assert (Hcmin : exists k cmin, data_at nodata data k cmin /\
                                 x_min (scan nodata data 0 b0) = Z.of_nat cmin).
  { destruct Hmin as [Heq|(k & r & c & Hk & Hc & Heq)].
    - rewrite Heq in Hlo0. simpl in Hlo0. specialize (Hwidth _ _ Hd0). lia.
    - exists k, c. split; [apply data_at_where; eauto|exact Heq]. }
  assert (Hcmax : exists k cmax, data_at nodata data k cmax /\
                                 x_max (scan nodata data 0 b0) = Z.of_nat cmax).
  { destruct Hmax as [Heq|(k & r & c & Hk & Hc & Heq)].
    - rewrite Heq in Hhi0. simpl in Hhi0. exists r0, c0. split; [exact Hd0|].
      rewrite Heq. simpl. lia.
    - exists k, c. split; [apply data_at_where; eauto|exact Heq]. }
  destruct Hcmin as (kmin & cmin & Hdmin & Exmin).
  destruct Hcmax as (kmax & cmax & Hdmax & Exmax).
  (* rows *)
  assert (N0 : where_ne nodata row0 0 <> []) by (eapply data_row_nonempty; eauto).
  destruct (scan_y_max nodata data 0 b0) as [(Hnone & _)|(rmax & rowmax & Hkmax & Hrmax & Eymax & Hlast)].
  { exfalso. apply N0, Hnone. eapply nth_error_In; eauto. }
  destruct (scan_y_min_unset nodata data 0 b0 eq_refl)
    as [(Hzero & _)|(rmin & rowmin & Hkmin & Hrmin & Hnz & Eymin & Hfirst)].
  { specialize (Hzero _ _ Hr0 N0). simpl in Hzero. subst r0. exfalso. exact (Hrow0 _ Hd0). }
  simpl in Eymax, Eymin, Hnz.
  exists cmin, cmax, rmin, rmax.
  split; [rewrite Exmin, Exmax, Eymin, Eymax; reflexivity|].
  split.
  - intros r c Hd. pose proof Hd as Hd'. apply data_at_where in Hd'.
    destruct Hd' as (row & Hr & Hc). destruct (Hall _ _ _ Hr Hc) as (Hlo & Hhi).
    assert (N : where_ne nodata row 0 <> []) by (eapply data_row_nonempty; eauto).
    split; [lia|]. split.
    + destruct (Nat.le_gt_cases rmin r) as [H|H]; [exact H|].
      specialize (Hfirst r row H Hr N). simpl in Hfirst. subst r.
      exfalso. exact (Hrow0 _ Hd).
    + destruct (Nat.le_gt_cases r rmax) as [H|H]; [exact H|].
      exfalso. apply N. eapply Hlast; eauto.
  - split; [eauto|]. split; [eauto|].
    split; eapply nonempty_data_row; eauto.
Qed.

Lemma min_pixel_bounds_encloses_data_witness :
  exists cmin cmax rmin rmax : nat,
    min_pixel_bounds bbox_raster_5_10_2_8 0%Q
      = [Z.of_nat cmin - 1; Z.of_nat cmax + 1; Z.of_nat rmin - 1; Z.of_nat rmax + 1] /\
    (forall r c, data_at 0%Q bbox_raster_5_10_2_8 r c ->
                 (cmin <= c <= cmax)%nat /\ (rmin <= r <= rmax)%nat) /\
    (exists r, data_at 0%Q bbox_raster_5_10_2_8 r cmin) /\
    (exists r, data_at 0%Q bbox_raster_5_10_2_8 r cmax) /\
    (exists c, data_at 0%Q bbox_raster_5_10_2_8 rmin c) /\
    (exists c, data_at 0%Q bbox_raster_5_10_2_8 rmax c).
Proof.
  apply min_pixel_bounds_encloses_data.
  - intros row Hin. simpl in Hin.
    repeat (destruct Hin as [<-|Hin]; [reflexivity|]). destruct Hin.
  - intros c (row & v & Hr & Hc & Hv). simpl in Hr. injection Hr as <-.
    do 10 (destruct c as [|c]; [simpl in Hc; injection Hc as <-; discriminate Hv|]).
    simpl in Hc. destruct c; discriminate Hc.
  - exists 5%nat, 2%nat. eexists _, _. repeat split; reflexivity.
Defined.

End BoundingBoxMore.

(** ** More facts about Layer *)

Module LayerMore.
Import LayerM LayerCollectionM LayerSpec CollectionSpec MoreSpec LayerFacts LayerCollectionFacts.







(** *** convert_units, pixel by pixel *)

Lemma in_grid_shape g h r c : shape g = shape h -> in_grid g r c -> in_grid h r c.
Proof.
  intros Hs (Hr & Hc). unfold in_grid.
  assert (Hl : List.length h = List.length g).
  { rewrite <- (length_map (@List.length Pixel) h), <- (length_map (@List.length Pixel) g).
    unfold shape in Hs. now rewrite Hs. }
  split; [lia|].
  assert (Hn : nth r (shape h) 0%nat = nth r (shape g) 0%nat) by now rewrite Hs.
  unfold shape in Hn.
  rewrite (nth_indep _ 0%nat (List.length (@nil Pixel))) in Hn by (rewrite length_map; lia).
  rewrite (nth_indep (map _ g) 0%nat (List.length (@nil Pixel))) in Hn
    by (rewrite length_map; lia).
  rewrite !map_nth in Hn. lia.
Qed.












(** *** reclassify, pixel by pixel *)










(** *** blend: the number of operands *)

Lemma blend_layers_too_many E u ops : forall i w,
  (i <= 26)%nat -> (26 < i + List.length ops)%nat ->
  blend_layers E u i (as_args ops) w = Raise IndexError.
Proof.
  induction ops as [|[l m] ops IH]; intros i w Hi Hn; simpl in *; [lia|].
  destruct (Nat.ltb_spec 25 i) as [|Hle]; [reflexivity|].
  unfold bind at 1.
  destruct (convert_units_outcome E l u w) as (o & w0 & -> & _).
  unfold bind at 1. rewrite IH by lia. reflexivity.
Qed.

(** X8. [blend] names its operands B to Z: a call with more than 25
    layer/mode pairs raises IndexError, whatever the layers are. *)
Theorem blend_more_than_25_operands_raises (E : Engine) (self : Layer)
    (ops : list (Layer * BlendMode)) (w : World) :
  (25 < List.length ops)%nat ->
  LayerM.blend E self (blend_args ops) w = Raise IndexError.
Proof.
  intros Hn. unfold LayerM.blend. rewrite zip_pairs_blend_args.
  change (map (fun lm => (VLayer (fst lm), VMode (snd lm))) ops) with (as_args ops).
  unfold bind at 1. rewrite blend_layers_too_many by lia. reflexivity.
Qed.

Lemma blend_more_than_25_operands_raises_witness :
  LayerM.blend (toy_engine true) base_layer (blend_args (repeat (gain_layer, Add) 26)) blend_world
  = Raise IndexError.
Proof.
  apply (blend_more_than_25_operands_raises (toy_engine true) base_layer
           (repeat (gain_layer, Add) 26) blend_world).
  rewrite repeat_length. lia.
Defined.



(** *** crop *)

Lemma crop_initialized_spec E box l w :
  warp_ok E ->
  allocated w (path (as_layer box)) ->
  rect (data (files w (path (as_layer box)))) ->
  allocated w (path l) ->
  exists l' w',
    BoundingBoxM.crop_initialized E box l w = Ok ((box, l'), w') /\
    extends w w' /\ next_tmp w' = S (S (next_tmp w)) /\
    year l' = year l /\ interpretation l' = interpretation l /\ units l' = units l /\
    noDataValue (files w' (path l')) = noDataValue (files w (path l)) /\
    forall r c, in_grid (data (files w (path (as_layer box)))) r c ->
      in_grid (data (files w' (path l'))) r c /\
      (pixel (data (files w' (path l'))) r c ==
       cropped_pixel (calc_propagates_nodata E) (files w (path (as_layer box)))
         (Warp E (crop_window (files w (path (as_layer box)))) [files w (path l)])
         (noDataValue (files w (path l))) r c)%Q.
Proof.
  intros Hwarp Halloc Hrect Hl.
  unfold BoundingBoxM.crop_initialized, BoundingBoxM._get_srs. run_c.
  unfold Calc. cbn.
  rewrite write_file_same.
  rewrite !(files_write_other _ (path (as_layer box)))
    by (apply (allocated_not_fresh w); exact Halloc).
  rewrite !(files_write_other _ (path l)) by (apply (allocated_not_fresh w); exact Hl).
  cbn.
  fold (crop_window (files w (path (as_layer box)))).
  set (B := files w (path (as_layer box))) in *.
  set (A := Warp E (crop_window B) [files w (path l)]).
  assert (Hshape : shape (data A) = shape (data B)).
  { unfold rect in Hrect. rewrite Hrect. apply (proj2 (Hwarp _ _)). reflexivity. }
  rewrite same_shape_of_eq by (symmetry; exact Hshape).
  cbn. eexists _, _. split; [reflexivity|]. split.
  { eapply extends_trans; [apply write_fresh_extends|].
    match goal with |- extends ?w1 _ => exact (write_fresh_extends w1 ".tif" _) end. }
  split; [reflexivity|]. cbn [year interpretation units path].
  rewrite write_file_same. cbn [data noDataValue].
  repeat (split; [reflexivity|]).
  intros r c Hin.
  assert (HinA : in_grid (data A) r c) by (eapply in_grid_shape; [symmetry|]; eassumption).
  split.
  { eapply in_grid_shape; [|exact HinA]. symmetry. apply shape_calc_grid. }
  rewrite pixel_calc_grid by apply HinA.
  unfold cropped_pixel. cbn [existsb map eval_calc nth orb].
  fold B.
  destruct (eqn (pixel (data B) r c) (noDataValue B)) eqn:Hb.
  - rewrite orb_true_r.
    assert (Hne : ne (pixel (data B) r c) (noDataValue B) = false)
      by (unfold ne; unfold eqn in Hb; now rewrite Hb).
    rewrite Hne. cbn [of_bool].
    destruct (calc_propagates_nodata E); cbn [andb]; [reflexivity|ring].
  - rewrite orb_false_r.
    assert (Hne : ne (pixel (data B) r c) (noDataValue B) = true)
      by (unfold ne; unfold eqn in Hb; now rewrite Hb).
    destruct (calc_propagates_nodata E && eqn (pixel (data A) r c) (noDataValue A));
      [reflexivity|].
    rewrite Hne. cbn [of_bool]. ring.
Qed.

Lemma crop_on_initialized E box l w :
  warp_ok E -> _initialized box = true -> box_ok w box -> allocated w (path l) ->
  exists l' w',
    BoundingBoxM.crop E box l w = Ok ((box, l'), w') /\
    extends w w' /\ next_tmp w' = S (S (next_tmp w)) /\
    year l' = year l /\ interpretation l' = interpretation l /\ units l' = units l /\
    noDataValue (files w' (path l')) = noDataValue (files w (path l)) /\
    forall r c, in_grid (data (files w (path (as_layer box)))) r c ->
      in_grid (data (files w' (path l'))) r c /\
      (pixel (data (files w' (path l'))) r c ==
       cropped_pixel (calc_propagates_nodata E) (files w (path (as_layer box)))
         (Warp E (crop_window (files w (path (as_layer box)))) [files w (path l)])
         (noDataValue (files w (path l))) r c)%Q.
Proof.
  intros Hwarp Hi Hbox Hl. destruct (Hbox Hi) as (Ha & Hr).
  unfold BoundingBoxM.crop. rewrite Hi. unfold bind at 1, ret.
  apply crop_initialized_spec; assumption.
Qed.




(** X11. A bounding box initialises itself at its first [crop] and is
    reused as it is from then on: the box handed back by [crop] is
    initialised, it is the receiver itself when that was initialised, and
    every later [crop] with it hands back the same box, writing the two
    rasters of the crop only (a first crop writes the two of the box as
    well). *)
Theorem crop_initialises_box_once (E : Engine) (box : BoundingBox) (l : Layer) (w : World) :
  warp_ok E -> box_ok w box -> allocated w (path l) ->
  exists box' l' w',
    BoundingBoxM.crop E box l w = Ok ((box', l'), w') /\
    _initialized box' = true /\
    (_initialized box = true -> box' = box) /\
    next_tmp w' = (next_tmp w + (if _initialized box then 2 else 4))%nat /\
    extends w w' /\
    forall l2 w2, extends w' w2 -> allocated w2 (path l2) ->
      exists l2' w3,
        BoundingBoxM.crop E box' l2 w2 = Ok ((box', l2'), w3) /\
        next_tmp w3 = (next_tmp w2 + 2)%nat.
Proof.
  intros Hwarp Hbox Hl.
  assert (Hlater : forall b w1, _initialized b = true -> box_ok w1 b ->
            forall l2 w2, extends w1 w2 -> allocated w2 (path l2) ->
              exists l2' w3,
                BoundingBoxM.crop E b l2 w2 = Ok ((b, l2'), w3) /\
                next_tmp w3 = (next_tmp w2 + 2)%nat).
  { intros b w1 Hb Hok l2 w2 Hext Hl2.
    destruct (crop_on_initialized E b l2 w2 Hwarp Hb (box_ok_extends _ _ _ Hext Hok) Hl2)
      as (l2' & w3 & Hc & _ & Hn & _).
    exists l2', w3. split; [exact Hc|lia]. }
  destruct (_initialized box) eqn:Hi.
  - destruct (crop_on_initialized E box l w Hwarp Hi Hbox Hl)
      as (l' & w' & Hc & Hext & Hn & _).
    exists box, l', w'. split; [exact Hc|]. split; [exact Hi|]. split; [reflexivity|].
    split; [lia|]. split; [exact Hext|].
    apply (Hlater box w' Hi). eapply box_ok_extends; eauto.
  - destruct (_init_ok E box w Hwarp) as (w1 & Hinit & Hext1 & Hn1 & Hrect).
    set (box1 := BoundingBoxM.with_path box (Tmp (S (next_tmp w)) ".tif")) in *.
    assert (Hok1 : box_ok w1 box1).
    { intros _. split; [simpl; lia|exact Hrect]. }
    destruct (crop_on_initialized E box1 l w1 Hwarp eq_refl Hok1
                (allocated_mono _ _ _ Hext1 Hl))
      as (l' & w' & Hc & Hext & Hn & _).
    exists box1, l', w'. split.
    { unfold BoundingBoxM.crop in *. rewrite Hi. unfold bind at 1. rewrite Hinit.
      cbn [_initialized box1 BoundingBoxM.with_path] in Hc. exact Hc. }
    split; [reflexivity|]. split; [discriminate|]. split; [lia|].
    split; [eapply extends_trans; eauto|].
    apply (Hlater box1 w' eq_refl). eapply box_ok_extends; eauto.
Qed.

Lemma crop_initialises_box_once_witness :
  exists box' l' w',
    BoundingBoxM.crop (toy_engine true) fresh_stock_box stock_layer stock_world
      = Ok ((box', l'), w') /\
    _initialized box' = true /\
    (_initialized fresh_stock_box = true -> box' = fresh_stock_box) /\
    next_tmp w' = (next_tmp stock_world + (if _initialized fresh_stock_box then 2 else 4))%nat /\
    extends stock_world w' /\
    forall l2 w2, extends w' w2 -> allocated w2 (path l2) ->
      exists l2' w3,
        BoundingBoxM.crop (toy_engine true) box' l2 w2 = Ok ((box', l2'), w3) /\
        next_tmp w3 = (next_tmp w2 + 2)%nat.
Proof.
  apply (crop_initialises_box_once (toy_engine true) fresh_stock_box stock_layer stock_world).
  - apply toy_warp_ok.
  - intros H. discriminate H.
  - exact I.
Defined.

(** *** blend after conversion *)




(** *** Georeferencing *)



End LayerMore.

(** ** Further facts about Layer.render's color table *)

Module RenderMore.
Import LayerRender MoreSpec.

Lemma legend_rows_open legend : forall rows nzv nzc,
  existsb (fun ke => open_ended (fst ke)) legend = true ->
  legend_rows legend rows nzv nzc = Raise TypeError.
Proof.
  induction legend as [|[key entry] legend IH]; intros rows nzv nzc H; [discriminate|].
  cbn [existsb fst] in H. cbn [legend_rows].
  destruct key as [v|[lo|] [hi|]]; cbn [open_ended orb] in H; try reflexivity.
  - destruct (lt_opt (Qabs v) nzv); apply IH, H.
  - destruct (qltb lo 0 && qltb 0 hi); [apply IH, H|].
    destruct (lt_opt (Qmin (Qabs lo) (Qabs hi)) nzv); apply IH, H.
Qed.

Lemma distance_nonneg key : (0 <= distance_to_zero key)%Q.
Proof.
  destruct key as [v|[lo|] [hi|]]; cbn; try apply Qabs_nonneg; try apply Qle_refl.
  destruct (qltb lo 0 && qltb 0 hi); [apply Qle_refl|].
  apply Q.min_glb; apply Qabs_nonneg.
Qed.

Lemma nearest_step seen nzv nzc key entry :
  nearest seen nzv nzc ->
  nearest (seen ++ [(key, entry)])
    (if lt_opt (distance_to_zero key) nzv then Some (distance_to_zero key) else nzv)
    (if lt_opt (distance_to_zero key) nzv then Some (color entry) else nzc).
Proof.
  intros H. destruct nzv as [d|]; cbn [lt_opt].
  - destruct H as (k0 & e0 & Hin & Hc & Hd & Hmin).
    destruct (Qlt_le_dec (distance_to_zero key) d) as [Hlt|Hle]; cbn [nearest].
    + exists key, entry. split; [apply in_or_app; right; now left|].
      split; [reflexivity|]. split; [reflexivity|].
      intros k' e' Hin'. apply in_app_or in Hin'. destruct Hin' as [Hin'|[[= <- <-]|[]]].
      * apply Qlt_le_weak. eapply Qlt_le_trans; [exact Hlt|]. eapply Hmin, Hin'.
      * apply Qle_refl.
    + exists k0, e0. split; [apply in_or_app; now left|].
      split; [exact Hc|]. split; [exact Hd|].
      intros k' e' Hin'. apply in_app_or in Hin'. destruct Hin' as [Hin'|[[= <- <-]|[]]].
      * eapply Hmin, Hin'.
      * exact Hle.
  - destruct H as (-> & ->). cbn [nearest app].
    exists key, entry. split; [now left|]. split; [reflexivity|]. split; [reflexivity|].
    intros k' e' [[= <- <-]|[]]. apply Qle_refl.
Qed.

Lemma nearest_zero seen nzv nzc key entry :
  distance_to_zero key = 0%Q ->
  nearest seen nzv nzc ->
  nearest (seen ++ [(key, entry)]) (Some 0%Q) (Some (color entry)).
Proof.
  intros Hz _. exists key, entry. split; [apply in_or_app; right; now left|].
  split; [reflexivity|]. split; [exact Hz|].
  intros k' e' _. apply distance_nonneg.
Qed.

Lemma legend_rows_closed legend : forall seen rows nzv nzc,
  existsb (fun ke => open_ended (fst ke)) legend = false ->
  nearest seen nzv nzc ->
  exists body nzv' nzc',
    legend_rows legend rows nzv nzc = Ok (rows ++ body, nzc') /\
    nearest (seen ++ legend) nzv' nzc'.
Proof.
  induction legend as [|[key entry] legend IH]; intros seen rows nzv nzc H Hn.
  - exists [], nzv, nzc. rewrite !app_nil_r. split; [reflexivity|exact Hn].
  - cbn [existsb fst] in H. apply orb_false_iff in H. destruct H as (Hk & H).
    replace (seen ++ (key, entry) :: legend) with ((seen ++ [(key, entry)]) ++ legend)
      by (rewrite <- app_assoc; reflexivity).
    cbn [legend_rows].
    destruct key as [v|[lo|] [hi|]]; try discriminate Hk.
    + pose proof (nearest_step seen nzv nzc (KValue v) entry Hn) as Hs.
      cbn [distance_to_zero] in Hs.
      destruct (lt_opt (Qabs v) nzv);
        (edestruct (IH (seen ++ [(KValue v, entry)])) as (body & nzv' & nzc' & -> & Hn');
         [exact H|exact Hs|]);
        exists ((RValue v, Some (color entry), 255) :: body), nzv', nzc';
        (split; [rewrite <- app_assoc; reflexivity|exact Hn']).
    + destruct (qltb lo 0 && qltb 0 hi) eqn:Hz.
      * assert (Hd : distance_to_zero (KRange (Some lo) (Some hi)) = 0%Q)
          by (cbn; now rewrite Hz).
        pose proof (nearest_zero seen nzv nzc _ entry Hd Hn) as Hs.
        edestruct (IH (seen ++ [(KRange (Some lo) (Some hi), entry)]))
          as (body & nzv' & nzc' & -> & Hn'); [exact H|exact Hs|].
        exists ((RValue lo, Some (color entry), 255)
                  :: (RValue hi, Some (color entry), 255) :: body), nzv', nzc'.
        split; [rewrite <- !app_assoc; reflexivity|exact Hn'].
      * pose proof (nearest_step seen nzv nzc (KRange (Some lo) (Some hi)) entry Hn) as Hs.
        cbn [distance_to_zero] in Hs. rewrite Hz in Hs.
        destruct (lt_opt (Qmin (Qabs lo) (Qabs hi)) nzv);
          (edestruct (IH (seen ++ [(KRange (Some lo) (Some hi), entry)]))
             as (body & nzv' & nzc' & -> & Hn'); [exact H|exact Hs|]);
          exists ((RValue lo, Some (color entry), 255)
                    :: (RValue hi, Some (color entry), 255) :: body), nzv', nzc';
          (split; [rewrite <- !app_assoc; reflexivity|exact Hn']).
Qed.

(** X12. The color table cannot be written for a legend with a range that
    lacks an end: [color_table] raises TypeError exactly when some range key
    has a missing minimum or maximum, and gives the rows otherwise. *)
Theorem color_table_refuses_open_ranges (legend : Legend) (transparent : bool) :
  (existsb (fun ke => open_ended (fst ke)) legend = true ->
   color_table legend transparent = Raise TypeError) /\
  (existsb (fun ke => open_ended (fst ke)) legend = false ->
   exists rows, color_table legend transparent = Ok rows).
Proof.
  split; intros H; unfold color_table.
  - now rewrite legend_rows_open.
  - edestruct (legend_rows_closed legend [] ) as (body & nzv' & nzc' & -> & _);
      [exact H|split; reflexivity|]. eauto.
Qed.

(** X13. For a legend whose ranges all have both ends, the color table
    starts with the nodata and zero rows and ends with the two guard rows
    at -0.001 and 0.001.  The guard rows carry the color of a legend entry
    that is nearest to zero (a range around zero counts as zero); for an
    empty legend they carry no color at all. *)
Theorem color_table_guards_entry_nearest_zero (legend : Legend) (transparent : bool) :
  existsb (fun ke => open_ended (fst ke)) legend = false ->
  exists body guard,
    color_table legend transparent
      = Ok ([(RNodata, Some (255, 255, 255), if transparent then 0 else 255);
             (RValue 0%Q, Some (255, 255, 255), if transparent then 0 else 255)]
            ++ body ++ guard_rows guard) /\
    (legend = [] -> guard = None) /\
    (legend <> [] ->
     exists key entry,
       In (key, entry) legend /\ guard = Some (color entry) /\
       forall key' entry', In (key', entry') legend ->
         (distance_to_zero key <= distance_to_zero key')%Q).
Proof.
  intros H. unfold color_table.
  edestruct (legend_rows_closed legend [] ) as (body & nzv' & nzc' & -> & Hn);
    [exact H|split; reflexivity|].
  exists body, nzc'. split; [rewrite <- app_assoc; reflexivity|].
  cbn [app] in Hn. destruct nzv' as [d|]; cbn [nearest] in Hn.
  - destruct Hn as (key & entry & Hin & -> & <- & Hmin). split.
    + intros ->. destruct Hin.
    + intros _. exists key, entry. auto.
  - destruct Hn as (-> & ->). split; [reflexivity|congruence].
Qed.

Lemma color_table_guards_entry_nearest_zero_witness :
  exists body guard,
    color_table sample_legend true
      = Ok ([(RNodata, Some (255, 255, 255), 0); (RValue 0%Q, Some (255, 255, 255), 0)]
            ++ body ++ guard_rows guard) /\
    (sample_legend = [] -> guard = None) /\
    (sample_legend <> [] ->
     exists key entry,
       In (key, entry) sample_legend /\ guard = Some (color entry) /\
       forall key' entry', In (key', entry') sample_legend ->
         (distance_to_zero key <= distance_to_zero key')%Q).
Proof.
  apply (color_table_guards_entry_nearest_zero sample_legend true). reflexivity.
Defined.

End RenderMore.

(** ** Further facts about LayerCollection *)

Module CollectionMore.
Import LayerM LayerCollectionM LayerSpec CollectionSpec MoreSpec LayerFacts LayerCollectionFacts.

Lemma blend_year_year E self bcs y w l w' :
  blend_year E self bcs y w = Ok (l, w') -> year l = y.
Proof.
  unfold blend_year.
  destruct (1 <? List.length (of_year y (_layers self)))%nat; [discriminate|].
  unfold bind at 1.
  destruct (match of_year y (_layers self) with
            | l0 :: _ => ret l0
            | [] => _
            end w) as [[local w0]|e] eqn:Hlocal; [|discriminate].
  assert (Hy : year local = y).
  { destruct (of_year y (_layers self)) as [|l0 rest] eqn:Hof.
    - revert Hlocal. unfold bind at 1.
      destruct (match _layers self with
                | l1 :: _ => ret l1
                | [] => _
                end w) as [[template w1]|e]; [|discriminate].
      unfold bind at 1. rewrite flatten_eq. unfold ret. intros [= <- _]. reflexivity.
    - injection Hlocal as <- _. apply (of_year_In y (_layers self)). rewrite Hof. now left. }
  match goal with
  | |- match ?others with [] => _ | _ :: _ => _ end w0 = _ -> _ =>
      destruct others as [|v vs]
  end.
  - unfold ret. intros [= <- _]. exact Hy.
  - unfold bind at 1.
    destruct (LayerM.blend E local (v :: vs) w0) as [[o w1]|e] eqn:Hb; [|discriminate].
    apply blend_new in Hb. destruct Hb as (out & -> & _ & _ & Hout & _).
    unfold ret. intros [= <- _]. cbn. congruence.
Qed.

Lemma of_year_at_most_one y ls :
  NoDup (map year ls) -> (List.length (of_year y ls) <= 1)%nat.
Proof.
  induction ls as [|l ls IH]; intros Hnd; simpl; [lia|].
  inversion Hnd as [|? ? Hnotin Hnd']; subst.
  destruct (Z.eqb_spec (year l) y) as [Hy|Hy]; [|now apply IH].
  simpl. destruct (of_year y ls) as [|l' rest] eqn:Hof; [simpl; lia|].
  exfalso. apply Hnotin.
  assert (Hl' : In l' (of_year y ls)) by (rewrite Hof; now left).
  apply of_year_In in Hl'. destruct Hl' as (Hin & Hy'). rewrite Hy, <- Hy'. now apply in_map.
Qed.

Lemma blend_years_ok E self ops dims years : forall blended w,
  _layers self <> [] ->
  NoDup (map year (_layers self)) ->
  uniform w dims (_layers self) ->
  Forall (fun cm => uniform w dims (_layers (fst cm))) ops ->
  (forall y, (List.length (operands_of_year y ops) <= 25)%nat) ->
  exists out w',
    blend_years E self (typed_collections ops) years blended w = Ok (blended ++ out, w') /\
    extends w w' /\ map year out = years.
Proof.
  induction years as [|y years IH]; intros blended w Hne Hnd Hself Hops Hcount.
  - exists [], w. rewrite app_nil_r. repeat split; auto using extends_refl.
  - cbn [blend_years]. unfold bind at 1.
    destruct (blend_year_ok E self ops dims y w Hne (of_year_at_most_one y _ Hnd)
                Hself Hops (Hcount y)) as (l & w1 & Hl & Hext).
    rewrite Hl. pose proof (blend_year_year _ _ _ _ _ _ _ Hl) as Hy.
    destruct (IH (blended ++ [l]) w1 Hne Hnd) as (out & w' & Hrest & Hext' & Hyears); auto.
    + eapply uniform_extends; eauto.
    + eapply Forall_impl; [|exact Hops]. intros cm. apply uniform_extends, Hext.
    + exists (l :: out), w'. rewrite Hrest, <- app_assoc. split; [reflexivity|].
      split; [eapply extends_trans; eauto|]. cbn. now rewrite Hy, Hyears.
Qed.

(** X14. On a collection with one layer per year, blended with collections
    of rasters of the same shape (at most 25 operand layers for a year),
    [blend] returns a collection holding exactly one layer for every year
    that has a layer in the receiver or in any of the other collections, and
    rewrites no file in use. *)
Theorem blend_gives_one_layer_per_year (E : Engine) (self : LayerCollection)
    (ops : list (LayerCollection * BlendMode)) (dims : list nat) (w : World) :
  set_order_ok E ->
  _layers self <> [] ->
  NoDup (map year (_layers self)) ->
  uniform w dims (_layers self) ->
  Forall (fun cm => uniform w dims (_layers (fst cm))) ops ->
  (forall y, (List.length (operands_of_year y ops) <= 25)%nat) ->
  exists out w',
    blend E self (collection_args ops) w = Ok (out, w') /\
    extends w w' /\
    NoDup (map year (layers out)) /\
    forall y, In y (map year (layers out)) <->
              In y (map year (_layers self)) \/
              exists cm, In cm ops /\ In y (map year (_layers (fst cm))).
Proof.
  intros Hset Hne Hnd Hself Hops Hcount. unfold blend.
  rewrite all_layers_of_typed. unfold bind at 1, lift. unfold bind at 1.
  match goal with |- context [blend_years E self _ ?ys [] w] => set (years := ys) end.
  destruct (blend_years_ok E self ops dims years [] w Hne Hnd Hself Hops Hcount)
    as (out & w' & -> & Hext & Hyears).
  unfold ret. eexists _, _. split; [reflexivity|]. split; [exact Hext|].
  cbn [app layers with_layers _layers]. rewrite Hyears. split.
  - apply set_order_NoDup, Hset.
  - intros y. unfold years. rewrite set_order_In by exact Hset.
    rewrite in_app_iff, in_flat_map. unfold typed_collections. split.
    + intros [H|(bc & Hbc & Hy)]; [now left|right].
      apply in_map_iff in Hbc. destruct Hbc as (cm & <- & Hcm). now exists cm.
    + intros [H|(cm & Hcm & Hy)]; [now left|right].
      exists (_layers (fst cm), VMode (snd cm)). split; [|exact Hy].
      apply in_map_iff. now exists cm.
Qed.

Lemma toy_blend_uniform :
  uniform blend_world [2%nat] [base_layer] /\
  Forall (fun cm : LayerCollection * BlendMode => uniform blend_world [2%nat] (_layers (fst cm)))
         [(collection_of [gain_layer; {| path := Src "loss.tif"; year := 2001;
                                         interpretation := None; units := TcPerHa |}], Add)].
Proof.
  split; repeat constructor.
Qed.

Lemma blend_gives_one_layer_per_year_witness :
  exists out w',
    blend (toy_engine true) (collection_of [base_layer])
          (collection_args
             [(collection_of [gain_layer; {| path := Src "loss.tif"; year := 2001;
                                             interpretation := None; units := TcPerHa |}],
               Add)])
          blend_world = Ok (out, w') /\
    extends blend_world w' /\
    NoDup (map year (layers out)) /\
    forall y, In y (map year (layers out)) <->
              In y (map year (_layers (collection_of [base_layer]))) \/
              exists cm, In cm [(collection_of
                                   [gain_layer; {| path := Src "loss.tif"; year := 2001;
                                                   interpretation := None;
                                                   units := TcPerHa |}], Add)] /\
                         In y (map year (_layers (fst cm))).
Proof.
  apply (blend_gives_one_layer_per_year (toy_engine true) (collection_of [base_layer])
           _ [2%nat] blend_world).
  - apply toy_set_order_ok.
  - discriminate.
  - repeat constructor. simpl. tauto.
  - apply toy_blend_uniform.
  - apply toy_blend_uniform.
  - intros y. unfold operands_of_year. cbn [flat_map]. rewrite app_nil_r, length_map.
    etransitivity; [apply filter_length_le|]. simpl. lia.
Defined.

Lemma blend_years_alone E self years : forall blended w,
  (forall y, In y years -> exists l, of_year y (_layers self) = [l]) ->
  blend_years E self [] years blended w
  = Ok (blended ++ flat_map (fun y => of_year y (_layers self)) years, w).
Proof.
  induction years as [|y years IH]; intros blended w H.
  - cbn. now rewrite app_nil_r.
  - cbn [blend_years flat_map]. unfold bind at 1.
    destruct (H y (or_introl eq_refl)) as (l & Hl).
    unfold blend_year. rewrite Hl. cbn. rewrite IH by (intros; apply H; now right).
    now rewrite <- app_assoc.
Qed.

(** X15. Blending a collection that has one layer per year with no other
    collection gives back the same layers, in the order the set of years is
    iterated, and writes no file. *)
Theorem blend_with_nothing_keeps_layers (E : Engine) (self : LayerCollection) (w : World) :
  set_order_ok E ->
  NoDup (map year (_layers self)) ->
  exists out,
    blend E self [] w = Ok (out, w) /\
    Permutation (layers out) (_layers self).
Proof.
  intros Hset Hnd. unfold blend. cbn [zip_pairs evens odds combine all_layers_of].
  unfold bind at 1, lift. cbn [flat_map]. rewrite app_nil_r. unfold bind at 1.
  assert (Hone : forall y, In y (set_order E (map year (_layers self))) ->
                           exists l, of_year y (_layers self) = [l]).
  { intros y Hy. apply set_order_In in Hy; [|exact Hset].
    pose proof (of_year_at_most_one y _ Hnd) as Hle.
    apply in_map_iff in Hy. destruct Hy as (l & Hly & Hl).
    assert (Hin : In l (of_year y (_layers self))).
    { unfold of_year. apply filter_In. split; [exact Hl|]. lia. }
    destruct (of_year y (_layers self)) as [|l0 [|l1 rest]]; [destruct Hin| |simpl in Hle; lia].
    now exists l0. }
  rewrite blend_years_alone by exact Hone. unfold ret. eexists. split; [reflexivity|].
  cbn [app layers with_layers _layers].
  assert (HndL : NoDup (_layers self)) by (eapply NoDup_map_inv; exact Hnd).
  apply NoDup_Permutation; [|exact HndL|].
  - assert (Hyears : map year (flat_map (fun y => of_year y (_layers self))
                                        (set_order E (map year (_layers self))))
                     = set_order E (map year (_layers self))).
    { revert Hone. generalize (set_order E (map year (_layers self))) as ys.
      induction ys as [|y ys IH]; intros Hone; [reflexivity|].
      cbn [flat_map]. rewrite map_app, IH by (intros; apply Hone; now right).
      destruct (Hone y (or_introl eq_refl)) as (l & Hl). rewrite Hl. cbn. f_equal.
      apply (of_year_In y (_layers self)). rewrite Hl. now left. }
    eapply NoDup_map_inv. rewrite Hyears. apply set_order_NoDup, Hset.
  - intros l. rewrite in_flat_map. split.
    + intros (y & _ & Hl). apply of_year_In in Hl. apply Hl.
    + intros Hl. exists (year l). split.
      * apply set_order_In; [exact Hset|]. now apply in_map.
      * unfold of_year. apply filter_In. split; [exact Hl|apply Z.eqb_refl].
Qed.

Lemma blend_with_nothing_keeps_layers_witness :
  exists out,
    blend (toy_engine true) (collection_of [harvest_layer; fire_layer]) [] interpreted_world
      = Ok (out, interpreted_world) /\
    Permutation (layers out) (_layers (collection_of [harvest_layer; fire_layer])).
Proof.
  apply (blend_with_nothing_keeps_layers (toy_engine true)
           (collection_of [harvest_layer; fire_layer]) interpreted_world).
  - apply toy_set_order_ok.
  - repeat constructor; simpl; intuition discriminate.
Defined.

Lemma filter_none {A} (f : A -> bool) l :
  (forall x, In x l -> f x = false) -> filter f l = [].
Proof.
  induction l as [|x l IH]; intros H; [reflexivity|].
  simpl. rewrite (H x) by now left. apply IH. intros; apply H; now right.
Qed.

(** X16. Without an explicit range (an end that is missing or zero),
    [render] returns exactly one Frame for every year that has a layer in
    the collection, and no background-only Frame. *)
Theorem render_without_range_one_frame_per_layer_year (E : Engine) (self : LayerCollection)
    (box : option BoundingBox) (start_year end_year : option Z) (target : Units) (w : World) :
  set_order_ok E -> warp_ok E -> colorizer_ok self ->
  truthy start_year && truthy end_year = false ->
  (forall bx, box = Some bx -> box_ok w bx) ->
  homogeneous (_layers self) ->
  (box <> None \/ _layers self <> []) ->
  exists frames legend w',
    render E self box start_year end_year target w = Ok ((frames, legend), w') /\
    Permutation (map frame_year frames) (nodup Z.eq_dec (map year (_layers self))).
Proof.
  intros Hset Hwarp Hcol Hrange Hbox Hhom Hbg.
  assert (Hyears : render_years self start_year end_year = map year (_layers self)).
  { unfold render_years. destruct start_year as [a|], end_year as [b|]; try reflexivity.
    now rewrite Hrange. }
  assert (Hsel : selected self start_year end_year = _layers self).
  { unfold selected. rewrite Hyears. apply forallb_filter_id. apply forallb_forall.
    intros l Hl. apply mem_In. now apply in_map. }
  assert (Hmiss : missing_years E self start_year end_year = []).
  { unfold missing_years. rewrite Hyears.
    assert (Hnone : filter (fun y => negb (mem y (map year (_layers self))))
                           (set_order E (map year (_layers self))) = []).
    { apply filter_none. intros y Hy.
      apply set_order_In in Hy; [|exact Hset]. apply mem_In in Hy. now rewrite Hy. }
    rewrite Hnone. apply Permutation_nil. symmetry. apply (Hset []). }
  rewrite <- Hsel in Hhom, Hbg.
  destruct (render_working_ok E self box start_year end_year target w Hwarp Hbox Hhom Hbg)
    as (ls & bg & w1 & Hw & _ & Hls).
  destruct (render_frames_ok E self start_year end_year ls bg w1 Hwarp Hcol)
    as (rendered & legend & w' & Hf & Hr).
  rewrite Hmiss in Hf. cbn [map] in Hf. rewrite app_nil_r in Hf.
  exists rendered, legend, w'. split.
  { unfold render. unfold bind. rewrite Hw. cbn [fst snd]. exact Hf. }
  rewrite Hr. destruct (group_by_year_spec ls) as (Hgnd & _ & Hgin).
  apply NoDup_Permutation; [exact Hgnd|apply NoDup_nodup|].
  intros y. rewrite Hgin, Hls, Hsel, nodup_In. reflexivity.
Qed.

Lemma render_without_range_one_frame_per_layer_year_witness :
  exists frames legend w',
    render (toy_engine true) fragmented_collection None None None TcPerHa blend_world
      = Ok ((frames, legend), w') /\
    Permutation (map frame_year frames)
                (nodup Z.eq_dec (map year (_layers fragmented_collection))).
Proof.
  apply (render_without_range_one_frame_per_layer_year (toy_engine true)
           fragmented_collection None None None TcPerHa blend_world).
  - apply toy_set_order_ok.
  - apply toy_warp_ok.
  - intros fs layers. eexists. reflexivity.
  - reflexivity.
  - intros bx Hbx. discriminate Hbx.
  - left. reflexivity.
  - right. discriminate.
Defined.

(** *** The merge step of render *)

Lemma of_year_snoc y done l :
  of_year y (done ++ [l]) = of_year y done ++ (if year l =? y then [l] else []).
Proof. unfold of_year. rewrite filter_app. reflexivity. Qed.

Lemma add_to_year_exact l done groups :
  NoDup (map fst groups) ->
  (forall g, In g groups -> snd g = of_year (fst g) done) ->
  (of_year (year l) done = [] \/ In (year l) (map fst groups)) ->
  forall g, In g (add_to_year l groups) -> snd g = of_year (fst g) (done ++ [l]).
Proof.
  induction groups as [|[y0 ls0] groups IH]; intros Hnd Hex Hnew g Hg.
  - destruct Hnew as [Hnew|[]]. destruct Hg as [<-|[]]. cbn [fst snd].
    now rewrite of_year_snoc, Hnew, Z.eqb_refl.
  - inversion Hnd as [|? ? Hnotin Hnd']; subst. cbn [add_to_year] in Hg.
    destruct (Z.eqb_spec y0 (year l)) as [Hy|Hy].
    + destruct Hg as [<-|Hg]; cbn [fst snd].
      * rewrite of_year_snoc, <- Hy, Z.eqb_refl.
        f_equal. apply (Hex (y0, ls0)). now left.
      * rewrite of_year_snoc.
        destruct (Z.eqb_spec (year l) (fst g)) as [Hg'|_].
        { exfalso. apply Hnotin. cbn [fst]. rewrite Hy, Hg'. now apply in_map. }
        rewrite app_nil_r. apply Hex. now right.
    + destruct Hg as [<-|Hg]; cbn [fst snd].
      * rewrite of_year_snoc.
        destruct (Z.eqb_spec (year l) y0) as [Hg'|_]; [congruence|].
        rewrite app_nil_r. apply (Hex (y0, ls0)). now left.
      * apply IH; auto.
        { intros g' Hg'. apply Hex. now right. }
        { destruct Hnew as [Hnew|[Hnew|Hnew]]; [now left|cbn in Hnew; congruence|now right]. }
Qed.

Lemma of_year_nil_iff y ls : of_year y ls = [] <-> ~ In y (map year ls).
Proof.
  split.
  - intros H Hin. apply in_map_iff in Hin. destruct Hin as (l & Hl & Hin).
    assert (Hf : In l (of_year y ls)) by (apply filter_In; split; [exact Hin|lia]).
    rewrite H in Hf. destruct Hf.
  - intros H. destruct (of_year y ls) as [|l rest] eqn:Hof; [reflexivity|].
    exfalso. apply H. assert (Hl : In l (of_year y ls)) by (rewrite Hof; now left).
    apply of_year_In in Hl. destruct Hl as (Hin & <-). now apply in_map.
Qed.

(** Each group holds exactly the layers of its year, in their order. *)
Lemma group_by_year_exact layers g :
  In g (group_by_year layers) -> snd g = of_year (fst g) layers.
Proof.
  unfold group_by_year.
  assert (G : forall ls done groups,
            NoDup (map fst groups) ->
            (forall g, In g groups -> snd g = of_year (fst g) done) ->
            (forall y, In y (map year done) -> In y (map fst groups)) ->
            forall g, In g (fold_left (fun groups l => add_to_year l groups) ls groups) ->
                      snd g = of_year (fst g) (done ++ ls)).
  { induction ls as [|l ls IH]; intros done groups Hnd Hex Hcov g0 Hg0; cbn in Hg0.
    - rewrite app_nil_r. now apply Hex.
    - replace (done ++ l :: ls) with ((done ++ [l]) ++ ls) by now rewrite <- app_assoc.
      apply (IH (done ++ [l]) (add_to_year l groups)); auto.
      + now apply add_to_year_NoDup.
      + apply add_to_year_exact; auto.
        destruct (in_dec Z.eq_dec (year l) (map fst groups)) as [Hin|Hnin]; [now right|left].
        apply of_year_nil_iff. intros H. apply Hnin, Hcov, H.
      + intros y Hy. apply add_to_year_keys. rewrite map_app, in_app_iff in Hy.
        destruct Hy as [Hy|[<-|[]]]; [right; now apply Hcov|now left]. }
  intros Hg. apply (G layers [] []); [apply NoDup_nil|intros ? []|intros ? []|exact Hg].
Qed.

Lemma merge_groups E w0 (groups : list (Z * list Layer)) : forall w,
  extends w0 w ->
  Forall (fun g => snd g <> [] /\ Forall (fun l => allocated w0 (path l)) (snd g)) groups ->
  exists merged w',
    mapM (fun g => _merge_layers E (snd g)) groups w = Ok (merged, w') /\
    extends w w' /\
    Forall2 (fun g m => year m = year (hd m (snd g)) /\
                        (allocated w0 (path m) \/ allocated w' (path m)) /\
                        merged_from E w0 w' (snd g) m)
            groups merged.
Proof.
  induction groups as [|g groups IH]; intros w Hext Hgroups.
  - exists [], w. split; [reflexivity|]. split; [apply extends_refl|constructor].
  - inversion Hgroups as [|? ? (Hne & Halloc) Hrest]; subst.
    cbn [mapM]. unfold bind at 1.
    assert (Hhead : exists m w1,
              _merge_layers E (snd g) w = Ok (m, w1) /\ extends w w1 /\
              year m = year (hd m (snd g)) /\
              (allocated w0 (path m) \/ allocated w1 (path m)) /\
              merged_from E w0 w1 (snd g) m).
    { destruct (snd g) as [|l1 [|l2 rest]] eqn:Hg; [congruence| |].
      - exists l1, w. split; [reflexivity|]. split; [apply extends_refl|].
        split; [reflexivity|]. split; [left; now inversion Halloc|now left].
      - unfold _merge_layers, bind, mktmp, put_file, ret. cbv beta iota.
        rewrite (mapM_gdal_Open (l1 :: l2 :: rest)). cbn beta iota.
        eexists _, _. split; [reflexivity|]. split; [apply write_fresh_extends|].
        split; [reflexivity|]. cbn [path]. split; [right; simpl; lia|]. right.
        split; [simpl; lia|]. split.
        + destruct Hext as (Hn & _). simpl. lia.
        + rewrite write_file_same. f_equal. apply map_ext_in. intros l Hl.
          rewrite Forall_forall in Halloc. apply Hext, Halloc, Hl. }
    destruct Hhead as (m & w1 & -> & Hext1 & Hy & Ha & Hm).
    destruct (IH w1 (extends_trans _ _ _ Hext Hext1) Hrest)
      as (merged & w' & Hrest' & Hext' & Hall).
    unfold bind at 1. rewrite Hrest'. unfold ret.
    exists (m :: merged), w'. split; [reflexivity|].
    split; [eapply extends_trans; eauto|]. constructor; [|exact Hall].
    split; [exact Hy|]. split.
    { destruct Ha as [Ha|Ha]; [now left|right; eapply allocated_mono; eauto]. }
    destruct Hm as [Hm|(Hlen & Hfresh & Hfile)]; [now left|right].
    split; [exact Hlen|]. split; [exact Hfresh|].
    destruct Ha as [Ha|Ha]; [contradiction|].
    destruct Hext' as (_ & Hf). now rewrite Hf.
Qed.

(** X17. The merge step of [render] leaves one layer per year of the
    working layers: a year with a single layer keeps that layer, and a year
    with several gets a new raster that mosaics exactly the layers of that
    year, in the order of the collection; no file in use is rewritten. *)
Theorem merge_step_mosaics_each_year (E : Engine) (working : list Layer) (w : World) :
  Forall (fun l => allocated w (path l)) working ->
  exists merged w',
    mapM (fun g => _merge_layers E (snd g)) (group_by_year working) w = Ok (merged, w') /\
    extends w w' /\
    NoDup (map year merged) /\
    (forall y, In y (map year merged) <-> In y (map year working)) /\
    forall m, In m merged -> merged_from E w w' (of_year (year m) working) m.
Proof.
  intros Halloc.
  destruct (group_by_year_spec working) as (Hnd & Hgood & Hkeys).
  assert (Hgroups : Forall (fun g => snd g <> [] /\
                                     Forall (fun l => allocated w (path l)) (snd g))
                           (group_by_year working)).
  { apply Forall_forall. intros g Hg. rewrite Forall_forall in Hgood.
    split; [apply Hgood, Hg|]. rewrite (group_by_year_exact _ _ Hg).
    apply Forall_forall. intros l Hl. apply of_year_In in Hl.
    rewrite Forall_forall in Halloc. apply Halloc, Hl. }
  destruct (merge_groups E w (group_by_year working) w (extends_refl w) Hgroups)
    as (merged & w' & Hm & Hext & Hall).
  exists merged, w'. split; [exact Hm|]. split; [exact Hext|].
  assert (Hyears : map year merged = map fst (group_by_year working)).
  { clear Hm. revert Hgood Hall. generalize (group_by_year working) as groups.
    intros groups Hgood Hall. induction Hall as [|g m gs ms (Hy & _) _ IH]; [reflexivity|].
    inversion Hgood as [|? ? (Hne & Hsame) Hgood']; subst.
    cbn [map]. rewrite IH by exact Hgood'. f_equal. rewrite Hy.
    destruct (snd g) as [|l rest]; [congruence|]. now inversion Hsame. }
  rewrite Hyears. split; [exact Hnd|]. split; [exact Hkeys|].
  intros m Hin.
  assert (Hg : exists g, In g (group_by_year working) /\ year m = fst g /\
                         merged_from E w w' (snd g) m).
  { clear Hm Hyears. revert Hgood Hall Hin. generalize (group_by_year working) as groups.
    intros groups Hgood Hall Hin.
    induction Hall as [|g m0 gs ms (Hy & _ & Hfrom) _ IH]; [destruct Hin|].
    inversion Hgood as [|? ? (Hne & Hsame) Hgood']; subst.
    destruct Hin as [->|Hin].
    - exists g. split; [now left|]. split; [|exact Hfrom]. rewrite Hy.
      destruct (snd g) as [|l rest]; [congruence|]. now inversion Hsame.
    - destruct (IH Hgood' Hin) as (g' & Hg' & H). exists g'. split; [now right|exact H]. }
  destruct Hg as (g & Hg & Hy & Hfrom).
  rewrite Hy, <- (group_by_year_exact _ _ Hg). exact Hfrom.
Qed.

Lemma merge_step_mosaics_each_year_witness :
  exists merged w',
    mapM (fun g => _merge_layers (toy_engine true) (snd g))
         (group_by_year (_layers fragmented_collection)) blend_world = Ok (merged, w') /\
    extends blend_world w' /\
    NoDup (map year merged) /\
    (forall y, In y (map year merged) <-> In y (map year (_layers fragmented_collection))) /\
    forall m, In m merged ->
      merged_from (toy_engine true) blend_world w'
                  (of_year (year m) (_layers fragmented_collection)) m.
Proof.
  apply (merge_step_mosaics_each_year (toy_engine true) (_layers fragmented_collection)
           blend_world).
  repeat constructor.
Defined.

End CollectionMore.
